(** * Boids experiment analysis: the aggregation pipeline of
      [ExperimentData/analyze_experiments.py]

    A shallow embedding of the loaders ([load_all_summaries],
    [load_all_captures], [load_all_snapshots]) and of the data part of
    [plot_confusion_effect], [print_summary_table], [write_analysis_report]
    and [main], with the properties of the written specification stated
    over it.

    Modelling conventions.
    - Text is a [string] of characters [ascii]; one character stands for a
      code point in the range 0..255.
    - A pandas cell is a string, a number or the missing-value marker NaN.
      Numbers are exact rationals ([Q], kept in lowest terms) or one of the
      two infinities; the rounding and the overflow of binary floating
      point are not modelled.
    - A Python exception is a value [Raise e] of the type [result].
    - Objects that the script passes around by reference (data frames) live
      in a [heap]; [copy] allocates, column assignment updates in place.
    - matplotlib calls only consume values; they are not part of the model. *)

From Stdlib Require Import QArith Qreduction Ascii String.
From stdpp Require Import base option list strings gmap sorting.

Local Open Scope Z_scope.
Local Open Scope stdpp_scope.

(* ===================================================================== *)
(** ** Exceptions *)
(* ===================================================================== *)

Inductive exn :=
| KeyError (key : string)
| ValueError (msg : string)
| TypeError (msg : string)
| AttributeError (msg : string)
| OSError (msg : string)
| ParserError (msg : string).

Inductive result (A : Type) :=
| Ok (a : A)
| Raise (e : exn).
Arguments Ok {A} a.
Arguments Raise {A} e.

Global Instance result_ret : MRet result := λ A a, Ok a.
Global Instance result_bind : MBind result := λ A B f m,
  match m with
  | Ok a => f a
  | Raise e => Raise e
  end.

Definition is_Ok {A} (r : result A) : Prop := ∃ a, r = Ok a.

Definition exn_message (e : exn) : string :=
  match e with
  | KeyError k => "'" +:+ k +:+ "'"
  | ValueError m | TypeError m | AttributeError m | OSError m | ParserError m => m
  end.

(* ===================================================================== *)
(** ** Python string operations *)
(* ===================================================================== *)

Module Str.

(** [s.startswith(p)] *)
Fixpoint startswith (p s : string) : bool :=
  match p, s with
  | "", _ => true
  | String _ _, "" => false
  | String a p', String b s' => if decide (a = b) then startswith p' s' else false
  end.

(** [s.endswith(p)] *)
Definition endswith (p s : string) : bool :=
  startswith (String.rev p) (String.rev s).

(** [sub in s] *)
Fixpoint contains (sub s : string) : bool :=
  startswith sub s ||
  match s with
  | "" => false
  | String _ s' => contains sub s'
  end.

(** The characters [str.isspace] accepts, below code point 256. *)
Definition isspace (c : ascii) : bool :=
  let n := Stdlib.Strings.Ascii.N_of_ascii c in
  ((9 <=? n) && (n <=? 13) || (28 <=? n) && (n <=? 32)
   || (n =? 133) || (n =? 160))%N.

Fixpoint lstrip (s : string) : string :=
  match s with
  | "" => ""
  | String c s' => if isspace c then lstrip s' else s
  end.

Fixpoint rstrip (s : string) : string :=
  match s with
  | "" => ""
  | String c s' =>
      match rstrip s' with
      | "" => if isspace c then "" else String c ""
      | r => String c r
      end
  end.

(** [s.strip()] *)
Definition strip (s : string) : string := rstrip (lstrip s).

Fixpoint drop (n : nat) (s : string) : string :=
  match n, s with
  | O, _ => s
  | S _, "" => ""
  | S n', String _ s' => drop n' s'
  end.

(** [s.replace(old, new)]: all non-overlapping occurrences, leftmost
    first.  [skip] counts the characters of a matched occurrence that are
    still to be dropped. *)
Fixpoint replace_go (old new : string) (skip : nat) (s : string) : string :=
  match s with
  | "" => ""
  | String c s' =>
      match skip with
      | S k => replace_go old new k s'
      | O =>
          if startswith old s
          then new +:+ replace_go old new (String.length old - 1) s'
          else String c (replace_go old new 0 s')
      end
  end.

Fixpoint intersperse (new s : string) : string :=
  match s with
  | "" => new
  | String c s' => new +:+ String c (intersperse new s')
  end.

Definition replace (old new s : string) : string :=
  match old with
  | "" => intersperse new s
  | _ => replace_go old new 0 s
  end.

(** [s.split(sep, 1)] for a one-character separator: cut at the first
    occurrence, or return the string alone. *)
Fixpoint cut (sep : ascii) (s : string) : string * option string :=
  match s with
  | "" => ("", None)
  | String c s' =>
      if decide (c = sep) then ("", Some s')
      else let '(a, b) := cut sep s' in (String c a, b)
  end.

Definition split1 (sep : ascii) (s : string) : list string :=
  match cut sep s with
  | (a, Some b) => [a; b]
  | (a, None) => [a]
  end.

(** Iterating a text file: lines keep their terminating newline. *)
Fixpoint readlines (s : string) : list string :=
  match s with
  | "" => []
  | String c s' =>
      if decide (c = "010"%char) then String c "" :: readlines s'
      else match readlines s' with
           | [] => [String c ""]
           | l :: ls => String c l :: ls
           end
  end.

(** [c] occurs in [s]. *)
Fixpoint has_char (c : ascii) (s : string) : Prop :=
  match s with
  | "" => False
  | String d s' => d = c ∨ has_char c s'
  end.

(** [sub] occurs in [s] as a contiguous substring. *)
Definition occurs (sub s : string) : Prop :=
  ∃ a b, s = a +:+ sub +:+ b.

End Str.

(* ===================================================================== *)
(** ** Cells and numeric parsing *)
(* ===================================================================== *)

(** A number of a table: a rational, or one of the two infinities of
    floating point. *)
Inductive number :=
| Fin (q : Q)
| Inf (negative : bool).

Coercion Fin : Q >-> number.

Inductive cell :=
| CStr (s : string)
| CNum (x : number)
| CNaN.
Arguments CNum x%_Q.

Module Num.

Definition digit (c : ascii) : option Z :=
  let n := Stdlib.Strings.Ascii.N_of_ascii c in
  if ((48 <=? n) && (n <=? 57))%N then Some (Z.of_N n - 48) else None.

(** Reads a maximal run of decimal digits: the accumulated value, the
    number of digits read, the rest of the text. *)
Fixpoint digits (acc : Z) (cnt : nat) (s : string) : Z * nat * string :=
  match s with
  | "" => (acc, cnt, "")
  | String c s' =>
      match digit c with
      | Some d => digits (10 * acc + d) (S cnt) s'
      | None => (acc, cnt, s)
      end
  end.

Definition sign (s : string) : bool * string :=
  match s with
  | String "-" s' => (true, s')
  | String "+" s' => (false, s')
  | _ => (false, s)
  end.

Definition c_isspace (c : ascii) : bool :=
  let n := Stdlib.Strings.Ascii.N_of_ascii c in
  ((9 <=? n) && (n <=? 13) || (n =? 32))%N.

Fixpoint skip_spaces (s : string) : string :=
  match s with
  | String c s' => if c_isspace c then skip_spaces s' else s
  | "" => ""
  end.

(** The optional exponent, which must end the literal (trailing blanks
    apart). *)
Definition exponent (s : string) : option Z :=
  match s with
  | String c s' =>
      if bool_decide (c = "e"%char ∨ c = "E"%char) then
        let '(neg, r) := sign s' in
        let '(v, n, rest) := digits 0 0 r in
        if bool_decide (n ≠ O ∧ skip_spaces rest = "")
        then Some (if neg : bool then - v else v) else None
      else if bool_decide (skip_spaces s = "") then Some 0 else None
  | "" => Some 0
  end.

(** [m * 10 ^ e] in lowest terms. *)
Definition scale (m e : Z) : Q :=
  Qred (if 0 <=? e then Qmake (m * 10 ^ e) 1 else Qmake m (Z.to_pos (10 ^ (- e)))).

(** The decimal literals accepted by [pandas.to_numeric] on a string:
    blanks, a sign, digits with an optional fraction, an optional
    exponent.  [None] is a string that is not such a literal. *)
Definition parse (s : string) : option Q :=
  let '(neg, r0) := sign (skip_spaces s) in
  let '(i, ni, r1) := digits 0 0 r0 in
  let '(m, nf, r2) :=
    match r1 with
    | String "." r => digits i 0 r
    | _ => (i, O, r1)
    end in
  if bool_decide (ni + nf = 0)%nat then None
  else e ← exponent r2; Some (scale (if neg : bool then - m else m) (e - Z.of_nat nf)).

(** The lower case of an ASCII letter. *)
Definition lower (c : ascii) : ascii :=
  let n := Stdlib.Strings.Ascii.N_of_ascii c in
  if ((65 <=? n) && (n <=? 90))%N then Stdlib.Strings.Ascii.ascii_of_N (n + 32) else c.

Fixpoint lowercase (s : string) : string :=
  match s with
  | "" => ""
  | String c s' => String (lower c) (lowercase s')
  end.

(** The spellings of an infinity that [pandas.to_numeric] accepts, in any
    mix of cases and with no blank around them: [Some true] is the negative
    one. *)
Definition infinity (s : string) : option bool :=
  let t := lowercase s in
  if bool_decide (t = "inf" ∨ t = "+inf" ∨ t = "infinity" ∨ t = "+infinity")
  then Some false
  else if bool_decide (t = "-inf" ∨ t = "-infinity") then Some true
  else None.

End Num.

(** [pandas.to_numeric(..., errors='coerce')] on one cell: a decimal
    literal gives its value, a spelling of infinity gives that infinity,
    any other text (the spellings of NaN among them) gives NaN. *)
Definition to_numeric (c : cell) : cell :=
  match c with
  | CStr s =>
      match Num.parse s with
      | Some q => CNum q
      | None =>
          match Num.infinity s with
          | Some negative => CNum (Inf negative)
          | None => CNaN
          end
      end
  | CNum x => CNum x
  | CNaN => CNaN
  end.

(** [Series.str.replace(old, new)] on one cell. *)
Definition str_replace (old new : string) (c : cell) : cell :=
  match c with
  | CStr s => CStr (Str.replace old new s)
  | _ => CNaN
  end.

(* ===================================================================== *)
(** ** Python dicts with string keys and values, in insertion order *)
(* ===================================================================== *)

Definition dict := list (string * string).

(** [d[k] = v] *)
Fixpoint dict_set (k v : string) (d : dict) : dict :=
  match d with
  | [] => [(k, v)]
  | (k', v') :: d' =>
      if decide (k' = k) then (k, v) :: d' else (k', v') :: dict_set k v d'
  end.

Fixpoint dict_get (k : string) (d : dict) : option string :=
  match d with
  | [] => None
  | (k', v') :: d' => if decide (k' = k) then Some v' else dict_get k d'
  end.

(* ===================================================================== *)
(** ** Data frames *)
(* ===================================================================== *)

(** A row maps column names to cells; a column the row lacks reads NaN.
    Each row carries its index label. *)
Record DataFrame := mkFrame {
  columns : list string;
  rows : list (nat * gmap string cell)
}.

Definition empty_frame : DataFrame := mkFrame [] [].

Definition cell_at (col : string) (r : gmap string cell) : cell :=
  default CNaN (r !! col).

Definition add_column (cols : list string) (c : string) : list string :=
  if decide (c ∈ cols) then cols else cols ++ [c].

Definition row_of_dict (d : dict) : gmap string cell :=
  list_to_map (prod_map id CStr <$> d).

(** [pd.DataFrame(dicts)]: the columns are the keys in order of first
    appearance, the index is 0..n-1. *)
Definition frame_of_dicts (ds : list dict) : DataFrame :=
  mkFrame (foldl (λ cols d, foldl add_column cols d.*1) [] ds)
          (imap (λ i d, (i, row_of_dict d)) ds).

(** [df[col]] *)
Definition getitem (col : string) (df : DataFrame) : result (list cell) :=
  if decide (col ∈ columns df) then Ok (cell_at col <$> (rows df).*2)
  else Raise (KeyError col).

(** [df[col] = values], the values being aligned with the rows of [df]. *)
Definition setitem (col : string) (vals : list cell) (df : DataFrame) : DataFrame :=
  mkFrame (add_column (columns df) col)
          (zip_with (λ r v, (r.1, <[col := v]> r.2)) (rows df) vals).

(** [pd.concat(dfs, ignore_index=True)] *)
Definition concat (dfs : list DataFrame) : result DataFrame :=
  match dfs with
  | [] => Raise (ValueError "No objects to concatenate")
  | _ => Ok (mkFrame (foldl (λ cols df, foldl add_column cols (columns df)) [] dfs)
                     (imap (λ i r, (i, r.2)) (dfs ≫= rows)))
  end.

(* ===================================================================== *)
(** ** The data directory *)
(* ===================================================================== *)

(** A directory entry either yields its text or fails when opened or
    read. *)
Inductive file :=
| Text (content : string)
| Unreadable (e : exn).

(** File names with their files, in the order the directory scan yields
    them. *)
Definition directory := list (string * file).

(** [DATA_DIR.glob("*" + suffix)] *)
Definition glob (suffix : string) (d : directory) : directory :=
  filter (λ nf, Str.endswith suffix nf.1 = true) d.

(** [open(f, 'r')] followed by iteration over the lines. *)
Definition read_lines (f : file) : result (list string) :=
  match f with
  | Text c => Ok (Str.readlines c)
  | Unreadable e => Raise e
  end.

(* ===================================================================== *)
(** ** [load_all_summaries] *)
(* ===================================================================== *)

(** The body of the loop over the lines of one summary. *)
Definition summary_line (data : dict) (line : string) : result dict :=
  if Str.contains ":" line && negb (Str.contains "===" line) then
    match Str.split1 ":" line with
    | [key; val] =>
        let key := Str.strip key in
        let val := Str.replace " per minute" "" (Str.replace "s" "" (Str.strip val)) in
        Ok (dict_set key val data)
    | _ => Raise (ValueError "not enough values to unpack")
    end
  else Ok data.

Fixpoint summary_lines (data : dict) (lines : list string) : result dict :=
  match lines with
  | [] => Ok data
  | line :: rest => data' ← summary_line data line; summary_lines data' rest
  end.

Fixpoint collect_summaries (summaries : list dict) (files : directory)
  : result (list dict) :=
  match files with
  | [] => Ok summaries
  | (_, f) :: rest =>
      lines ← read_lines f;
      data ← summary_lines [] lines;
      collect_summaries (match data with [] => summaries | _ => summaries ++ [data] end) rest
  end.

Definition numeric_columns : list string :=
  ["Initial Boid Count"; "Total Duration"; "Total Kills"; "Capture Rate"].

(** [if col in df.columns: df[col] = f(df[col])] *)
Definition update_column (f : cell → cell) (col : string) (df : DataFrame)
  : result DataFrame :=
  if decide (col ∈ columns df) then
    vals ← getitem col df; Ok (setitem col (f <$> vals) df)
  else Ok df.

Fixpoint coerce_columns (cols : list string) (df : DataFrame) : result DataFrame :=
  match cols with
  | [] => Ok df
  | col :: rest => df' ← update_column to_numeric col df; coerce_columns rest df'
  end.

Definition coerce_summaries (df : DataFrame) : result DataFrame :=
  df ← coerce_columns numeric_columns df;
  update_column (λ c, to_numeric (str_replace "N/A" "" c)) "First Kill Time" df.

Definition load_all_summaries (d : directory) : result DataFrame :=
  summaries ← collect_summaries [] (glob "_summary.txt" d);
  coerce_summaries (frame_of_dicts summaries).

(* ===================================================================== *)
(** ** [load_all_captures] and [load_all_snapshots] *)
(* ===================================================================== *)

Section CsvLoaders.

(** The location of the data directory, and the CSV parser of pandas on
    the text of a file. *)
Variable DATA_DIR : string.
Variable parse_csv : string → result DataFrame.

Definition path_of (name : string) : string := DATA_DIR +:+ "/" +:+ name.

(** [pd.read_csv(f)] *)
Definition read_csv (f : file) : result DataFrame :=
  match f with
  | Text c => parse_csv c
  | Unreadable e => Raise e
  end.

(** The loop of a CSV loader: the frames collected and the lines printed
    so far. *)
Fixpoint read_frames (dfs : list DataFrame) (out : list string) (files : directory)
  : list DataFrame * list string :=
  match files with
  | [] => (dfs, out)
  | (name, f) :: rest =>
      match read_csv f with
      | Ok df => read_frames (dfs ++ [df]) out rest
      | Raise e =>
          read_frames dfs
            (out ++ ["Error loading " +:+ path_of name +:+ ": " +:+ exn_message e]) rest
      end
  end.

Definition concat_or_empty (dfs : list DataFrame) : result DataFrame :=
  match dfs with
  | [] => Ok empty_frame
  | _ => concat dfs
  end.

(** The value returned and the lines printed. *)
Definition load_all_captures (d : directory) : result DataFrame * list string :=
  let '(dfs, out) := read_frames [] [] (glob "_captures.csv" d) in
  (concat_or_empty dfs, out).

Definition load_all_snapshots (d : directory) : result DataFrame * list string :=
  let '(dfs, out) := read_frames [] [] (glob "_snapshots.csv" d) in
  (concat_or_empty dfs, out).

End CsvLoaders.

(* ===================================================================== *)
(** ** Vocabulary of the statements about summaries *)
(* ===================================================================== *)

(** The two replacements [load_all_summaries] applies to a trimmed value. *)
Definition strip_units (val : string) : string :=
  Str.replace " per minute" "" (Str.replace "s" "" val).

(** The white space that [str.strip] removes, among the code points below
    256: tab, line feed, vertical tab, form feed, carriage return, the four
    separators 28 to 31, the blank, the next-line control and the no-break
    space. *)
Definition whitespace (c : ascii) : Prop :=
  Stdlib.Strings.Ascii.N_of_ascii c ∈ [9; 10; 11; 12; 13; 28; 29; 30; 31; 32; 133; 160]%N.

Definition first_char (s : string) : option ascii :=
  match s with
  | "" => None
  | String c _ => Some c
  end.

Fixpoint last_char (s : string) : option ascii :=
  match s with
  | "" => None
  | String c s' =>
      match s' with
      | "" => Some c
      | _ => last_char s'
      end
  end.

(** [t] is [s] without its leading and its trailing white space: [s] is
    [t] between two runs of white space, and [t] neither begins nor ends
    with white space. *)
Definition trimmed_of (s t : string) : Prop :=
  (∃ l r, s = l +:+ t +:+ r ∧
          (∀ c, Str.has_char c l → whitespace c) ∧
          (∀ c, Str.has_char c r → whitespace c)) ∧
  (∀ c, first_char t = Some c → ¬ whitespace c) ∧
  (∀ c, last_char t = Some c → ¬ whitespace c).

(** The trimmed key and the trimmed value a line is read as, if it is read
    as a pair at all. *)
Definition line_fields (line : string) : option (string * string) :=
  if Str.contains ":" line && negb (Str.contains "===" line) then
    match Str.cut ":" line with
    | (key, Some val) => Some (Str.strip key, Str.strip val)
    | (_, None) => None
    end
  else None.

(** The lines of an artifact record [raw] for [key]: some line reads as
    that pair, and no later line reads as a pair with the same key. *)
Definition records (lines : list string) (key raw : string) : Prop :=
  ∃ l1 line l2,
    lines = l1 ++ line :: l2 ∧
    line_fields line = Some (key, raw) ∧
    ∀ l raw', l ∈ l2 → line_fields l ≠ Some (key, raw').

(** What the coercion stage of [load_all_summaries] does to a cell of
    column [col]. *)
Definition coerce_cell (col : string) (c : cell) : cell :=
  if decide (col ∈ numeric_columns) then to_numeric c
  else if decide (col = "First Kill Time") then to_numeric (str_replace "N/A" "" c)
  else c.

(** The cell the loaded table holds in column [col] for a run whose
    summary was read as [data]. *)
Definition summary_cell (col : string) (data : dict) : cell :=
  coerce_cell col (from_option CStr CNaN (dict_get col data)).

(* ===================================================================== *)
(** ** Vocabulary of the statements about the CSV loaders *)
(* ===================================================================== *)

(** The frames of the files that parse, in directory order. *)
Definition parsed_frames (parse_csv : string → result DataFrame) (files : directory)
  : list DataFrame :=
  omap (λ nf, match read_csv parse_csv nf.2 with
              | Ok df => Some df
              | Raise _ => None
              end) files.

(** The line printed for each file that does not parse, in directory
    order: the location of the file, which is the data directory, a slash
    and the name of the file, and the message of the exception. *)
Definition skipped_messages (DATA_DIR : string) (parse_csv : string → result DataFrame)
    (files : directory) : list string :=
  omap (λ nf, match read_csv parse_csv nf.2 with
              | Ok _ => None
              | Raise e =>
                  Some ("Error loading " +:+ DATA_DIR +:+ "/" +:+ nf.1 +:+ ": "
                          +:+ exn_message e)
              end) files.

(* ===================================================================== *)
(** ** Sample data *)
(* ===================================================================== *)

Definition sample_summary : string :=
"=== Experiment Summary: A1 ===
Condition: A1
Initial Boid Count: 50
Total Duration: 42.0s
Total Kills: 12
First Kill Time: N/A
Capture Rate: 3.5 per minute
".

Definition sample_captures : string :=
"condition,time_sec,kill_number,boids_in_view
B1,2.0,1,7
B1,5.0,2,4
".

Definition sample_directory : directory :=
  [("A1_summary.txt", Text sample_summary);
   ("A1_captures.csv", Unreadable (OSError "Permission denied"));
   ("notes.txt", Text "nothing")].

(** One unreadable summary among readable ones. *)
Definition broken_directory : directory :=
  [("A1_summary.txt", Unreadable (OSError "Permission denied"));
   ("B1_summary.txt", Text sample_summary)].

(* ===================================================================== *)
(** ** Comparing and sorting cells *)
(* ===================================================================== *)

Global Instance Q_eq_dec : EqDecision Q.
Proof. solve_decision. Defined.

Global Instance number_eq_dec : EqDecision number.
Proof. solve_decision. Defined.

Global Instance cell_eq_dec : EqDecision cell.
Proof. solve_decision. Defined.

Definition is_str (c : cell) : bool :=
  match c with CStr _ => true | _ => false end.

Definition is_num (c : cell) : bool :=
  match c with CNum _ => true | _ => false end.

(** The order of the numbers: minus infinity is least, plus infinity
    greatest. *)
Definition num_le (a b : number) : Prop :=
  match a, b with
  | Inf true, _ => True
  | _, Inf false => True
  | Fin p, Fin q => (Qnum p * QDen q ≤ Qnum q * QDen p)%Z
  | _, _ => False
  end.

Global Instance num_le_dec : RelDecision num_le.
Proof. intros [p|[]] [q|[]]; simpl; apply _. Defined.

Definition num_lt (a b : number) : Prop := ¬ num_le b a.
Arguments num_le (a b)%_Q.
Arguments num_lt (a b)%_Q.

(** The same order as a test. *)
Definition num_leb (a b : number) : bool := bool_decide (num_le a b).

(** The order [sort_values] puts the keys in: strings by code points,
    numbers by value, NaN last.  Strings are never compared with numbers
    (see [sort_values]). *)
Definition cell_le (a b : cell) : Prop :=
  match a, b with
  | _, CNaN => True
  | CNaN, _ => False
  | CStr s, CStr t => String.le s t
  | CNum p, CNum q => num_le p q
  | CNum _, CStr _ => True
  | CStr _, CNum _ => False
  end.

Global Instance cell_le_dec : RelDecision cell_le.
Proof. intros [s|p|] [t|q|]; simpl; apply _. Defined.

(** Insertion before the first element that [x] is not above. *)
Fixpoint insert_by {A} (R : relation A) `{!RelDecision R} (x : A) (l : list A) : list A :=
  match l with
  | [] => [x]
  | y :: l' => if decide (R x y) then x :: l else y :: insert_by R x l'
  end.

(** A stable sort: elements that compare equal keep the order they had.
    (pandas sorts the rows of a table of up to sixteen rows in this way,
    and Python's [sorted] any list; on a longer table the order among rows
    with equal keys is left to the library.) *)
Definition stable_sort {A} (R : relation A) `{!RelDecision R} (l : list A) : list A :=
  foldr (insert_by R) [] l.

Definition row_le (col : string) (r1 r2 : nat * gmap string cell) : Prop :=
  cell_le (cell_at col r1.2) (cell_at col r2.2).

Global Instance row_le_dec col : RelDecision (row_le col).
Proof. intros r1 r2. unfold row_le. apply _. Defined.

(** [df.sort_values(col)]: ascending, rows without a key last, rows with
    equal keys in the order of the table. *)
Definition sort_values (col : string) (df : DataFrame) : result DataFrame :=
  keys ← getitem col df;
  if existsb is_str keys && existsb is_num keys
  then Raise (TypeError "'<' not supported between instances of 'str' and 'float'")
  else Ok (mkFrame (columns df) (stable_sort (row_le col) (rows df))).

(** [sorted(series.unique())] *)
Definition sorted_unique (vals : list cell) : result (list cell) :=
  if existsb is_str vals && existsb (λ c, negb (is_str c)) vals
  then Raise (TypeError "'<' not supported between instances of 'float' and 'str'")
  else Ok (stable_sort cell_le (remove_dups vals)).

(* ===================================================================== *)
(** ** Selecting rows and cells *)
(* ===================================================================== *)

(** [row[col]] for a row taken from a frame with the columns [cols]. *)
Definition series_get (cols : list string) (col : string) (r : gmap string cell)
  : result cell :=
  if decide (col ∈ cols) then Ok (cell_at col r) else Raise (KeyError col).

(** A format specification ending in [f] applied to a cell. *)
Definition format_float (c : cell) : result cell :=
  match c with
  | CStr _ => Raise (ValueError "Unknown format code 'f' for object of type 'str'")
  | _ => Ok c
  end.

(** The first entry that no later entry beats, among the numeric cells. *)
Fixpoint first_best (better : number → number → bool) (best : option (nat * number))
    (l : list (nat * cell)) : option (nat * number) :=
  match l with
  | [] => best
  | (i, CNum q) :: l' =>
      match best with
      | Some (_, b) =>
          if better q b then first_best better (Some (i, q)) l'
          else first_best better best l'
      | None => first_best better (Some (i, q)) l'
      end
  | _ :: l' => first_best better best l'
  end.

Definition idx_best (better : number → number → bool) (col : string) (df : DataFrame)
  : result nat :=
  vals ← getitem col df;
  if existsb is_str vals
  then Raise (TypeError "reduction operation not allowed for this dtype")
  else match first_best better None (zip (rows df).*1 vals) with
       | Some (i, _) => Ok i
       | None => Raise (ValueError "attempt to get argmax of an empty sequence")
       end.

(** [df[col].idxmax()] and [df[col].idxmin()]: the index label of the
    first greatest, of the first least, value that is not NaN. *)
Definition idxmax : string → DataFrame → result nat :=
  idx_best (λ q b, negb (num_leb q b)).

Definition idxmin : string → DataFrame → result nat :=
  idx_best (λ q b, negb (num_leb b q)).

(** [df.loc[label]], used as one row. *)
Definition loc (label : nat) (df : DataFrame) : result (gmap string cell) :=
  match filter (λ r, r.1 = label) (rows df) with
  | [r] => Ok r.2
  | [] => Raise (KeyError "label")
  | _ => Raise (TypeError "unsupported format string passed to Series.__format__")
  end.

(** [df.dropna(subset=[col])] *)
Definition dropna (col : string) (df : DataFrame) : result DataFrame :=
  if decide (col ∈ columns df)
  then Ok (mkFrame (columns df) (filter (λ r, cell_at col r.2 ≠ CNaN) (rows df)))
  else Raise (KeyError col).

(** [df[[c1, ..., cn]]] *)
Definition select (cols : list string) (df : DataFrame) : result DataFrame :=
  match filter (λ c, c ∉ columns df) cols with
  | c :: _ => Raise (KeyError c)
  | [] => Ok (mkFrame cols
                (map (λ r, (r.1, filter (λ kv : string * cell, kv.1 ∈ cols) r.2)) (rows df)))
  end.

(** [df.columns = names] *)
Definition set_columns (names : list string) (df : DataFrame) : result DataFrame :=
  if decide (length names = length (columns df)) then
    Ok (mkFrame names
          (map (λ r, (r.1, list_to_map (zip names ((λ c, cell_at c r.2) <$> columns df))))
               (rows df)))
  else Raise (ValueError "Length mismatch").

Definition cell_startswith (prefix : string) (c : cell) : bool :=
  match c with
  | CStr s => Str.startswith prefix s
  | _ => false
  end.

(** [df[df[col].str.startswith(prefix)]] *)
Definition rows_with_prefix (col prefix : string) (df : DataFrame) : result DataFrame :=
  vals ← getitem col df;
  if forallb is_str vals then
    Ok (mkFrame (columns df)
          (filter (λ r, cell_startswith prefix (cell_at col r.2) = true) (rows df)))
  else if existsb is_str vals
       then Raise (ValueError "Cannot mask with non-boolean array containing NA / NaN values")
       else Raise (AttributeError "Can only use .str accessor with string values").

(* ===================================================================== *)
(** ** Differences within groups *)
(* ===================================================================== *)

(** Subtraction of two numbers: an infinity minus itself is NaN. *)
Definition num_sub (a b : number) : cell :=
  match a, b with
  | Fin p, Fin q => CNum (Qred (p - q))
  | Inf s, Fin _ => CNum (Inf s)
  | Fin _, Inf s => CNum (Inf (negb s))
  | Inf s, Inf t => if decide (s = t) then CNaN else CNum (Inf s)
  end.

(** Subtraction of two numeric cells; NaN if either is missing. *)
Definition cell_sub (a b : cell) : cell :=
  match a, b with
  | CNum p, CNum q => num_sub p q
  | _, _ => CNaN
  end.

(** One pass over the (key, value) pairs of the rows; [last] holds, for
    each key met so far, the value of its latest row.  A row whose key is
    NaN belongs to no group. *)
Fixpoint diff_go (last : cell → option cell) (l : list (cell * cell)) : list cell :=
  match l with
  | [] => []
  | (CNaN, _) :: l' => CNaN :: diff_go last l'
  | (k, v) :: l' =>
      from_option (cell_sub v) CNaN (last k)
        :: diff_go (λ k', if decide (k' = k) then Some v else last k') l'
  end.

(** [df.groupby(key)[col].diff()] *)
Definition groupby_diff (key col : string) (df : DataFrame) : result (list cell) :=
  ks ← getitem key df;
  vs ← getitem col df;
  if existsb is_str vs
  then Raise (TypeError "unsupported operand type(s) for -: 'str' and 'str'")
  else Ok (diff_go (λ _, None) (zip ks vs)).

(* ===================================================================== *)
(** ** Objects and references *)
(* ===================================================================== *)

(** The data frames alive, by address; a reference is an address. *)
Definition heap := list DataFrame.
Definition ref := nat.

(** Computations that read and update the heap and may raise. *)
Definition M (A : Type) : Type := heap → result (A * heap).

Global Instance M_ret : MRet M := λ A a h, Ok (a, h).
Global Instance M_bind : MBind M := λ A B f m h,
  match m h with
  | Ok (a, h') => f a h'
  | Raise e => Raise e
  end.

Definition lift {A} (r : result A) : M A := λ h,
  match r with
  | Ok a => Ok (a, h)
  | Raise e => Raise e
  end.

(** A new object. *)
Definition new (df : DataFrame) : M ref := λ h, Ok (length h, h ++ [df]).

Definition load (l : ref) : M DataFrame := λ h,
  match h !! l with
  | Some df => Ok (df, h)
  | None => Raise (ValueError "dangling reference")
  end.

Definition store (l : ref) (df : DataFrame) : M unit := λ h, Ok ((), <[l := df]> h).

(** [df.copy()] *)
Definition copy (l : ref) : M ref := df ← load l; new df.

(** The value of a computation, without the final heap. *)
Definition value {A} (r : result (A * heap)) : result A :=
  match r with
  | Ok (a, _) => Ok a
  | Raise e => Raise e
  end.

(* ===================================================================== *)
(** ** [plot_confusion_effect] *)
(* ===================================================================== *)

(** What the function hands to the plotting library. *)
Record ConfusionPlot := mkConfusionPlot {
  hist_values : list cell;
  scatter_x : list cell;
  scatter_y : list cell;
  trend : option (cell * cell)
}.

(** [series.median()]: defined on numbers and missing values only. *)
Definition median_defined (vals : list cell) : result unit :=
  if existsb is_str vals
  then Raise (TypeError "could not convert string to float")
  else Ok ().

Section Plots.

(** [np.polyfit(x, y, 1)]: slope and intercept. *)
Variable polyfit : list cell → list cell → result (cell * cell).

(** The regression line over the rows that have a difference. *)
Definition trend_line (valid : DataFrame) : result (option (cell * cell)) :=
  if decide (2 < length (rows valid))%nat then
    x ← getitem "boids_in_view" valid;
    y ← getitem "time_diff" valid;
    z ← polyfit x y;
    Ok (Some z)
  else Ok None.

Definition plot_confusion_effect (captures : ref) : M ConfusionPlot :=
  captures ← copy captures;
  df ← load captures;
  diffs ← lift (groupby_diff "condition" "time_sec" df);
  _ ← store captures (setitem "time_diff" diffs df);
  df ← load captures;
  view ← lift (getitem "boids_in_view" df);
  _ ← lift (median_defined view);
  valid ← lift (dropna "time_diff" df);
  x ← lift (getitem "boids_in_view" valid);
  y ← lift (getitem "time_diff" valid);
  line ← lift (trend_line valid);
  mret (mkConfusionPlot view x y line).

End Plots.

(* ===================================================================== *)
(** ** The other plots *)
(* ===================================================================== *)

(** [plot_condition_comparison]: the bars drawn. *)
Definition plot_condition_comparison (summaries : ref)
  : M (list cell * list cell * list cell * list cell) :=
  summaries ← load summaries;
  df ← lift (sort_values "Condition" summaries);
  conds ← lift (getitem "Condition" df);
  _ ← lift (if forallb is_str conds then Ok ()
            else Raise (AttributeError "'float' object has no attribute 'startswith'"));
  fkt ← lift (getitem "First Kill Time" df);
  rate ← lift (getitem "Capture Rate" df);
  duration ← lift (getitem "Total Duration" df);
  mret (conds, fkt, rate, duration).

(** [plot_predation_timeline]: one line per condition.  The comparison
    [captures['condition'] == cond] holds of no row when [cond] is NaN. *)
Definition plot_predation_timeline (captures : ref)
  : M (list (cell * list cell * list cell)) :=
  captures ← load captures;
  all ← lift (getitem "condition" captures);
  conditions ← lift (sorted_unique all);
  lift (mapM (λ cond,
          let df := mkFrame (columns captures)
                      (filter (λ r, cond ≠ CNaN ∧ cell_at "condition" r.2 = cond)
                              (rows captures)) in
          t ← getitem "time_sec" df;
          k ← getitem "kill_number" df;
          Ok (cond, t, k)) conditions).

(** [plot_experiment_groups]: the bars of each family that has runs. *)
Definition plot_experiment_groups (summaries : ref)
  : M (list (option (list cell * list cell * list cell))) :=
  summaries ← load summaries;
  lift (mapM (λ prefix,
          group ← rows_with_prefix "Condition" prefix summaries;
          df ← sort_values "Condition" group;
          if decide (length (rows df) = 0)%nat then Ok None
          else
            fkt ← getitem "First Kill Time" df;
            rate ← getitem "Capture Rate" df;
            conds ← getitem "Condition" df;
            Ok (Some (fkt, rate, conds))) ["A"; "B"; "C"]).

(* ===================================================================== *)
(** ** [print_summary_table] *)
(* ===================================================================== *)

Definition summary_columns : list string :=
  ["Condition"; "Initial Boid Count"; "First Kill Time"; "Capture Rate"; "Total Duration"].

(** The headings of the printed table (held as their UTF-8 text). *)
Definition summary_headings : list string :=
  ["条件"; "初期個体数"; "最初の捕食(秒)"; "捕食率(/分)"; "実験時間(秒)"].

(** The table printed, which is also the value returned.  The selection,
    the sorted frame and the renamed frame are new objects. *)
Definition print_summary_table (summaries : ref) : M DataFrame :=
  summaries ← load summaries;
  df ← lift (select summary_columns summaries);
  df ← lift (sort_values "Condition" df);
  lift (set_columns summary_headings df).

(* ===================================================================== *)
(** ** [write_analysis_report] *)
(* ===================================================================== *)

(** The values a report prints; the layout of the text and the rounding of
    the numbers are left to the formatting of Python. *)
Record Report := mkReport {
  table : list (list cell);
  stats_first_kill : list cell;
  stats_rate : list cell;
  families : list (option (nat * list cell * list cell));
  view : option (list cell);
  fastest : gmap string cell;
  slowest : gmap string cell
}.

(** One line of the table of results. *)
Definition report_row (cols : list string) (r : gmap string cell) : result (list cell) :=
  c ← series_get cols "Condition" r;
  n ← series_get cols "Initial Boid Count" r ≫= format_float;
  k ← series_get cols "First Kill Time" r ≫= format_float;
  p ← series_get cols "Capture Rate" r ≫= format_float;
  d ← series_get cols "Total Duration" r ≫= format_float;
  Ok [c; n; k; p; d].

Definition report_table (df : DataFrame) : result (list (list cell)) :=
  mapM (λ r, report_row (columns df) r.2) (rows df).

Definition report_family (df : DataFrame) (prefix : string)
  : result (option (nat * list cell * list cell)) :=
  group ← rows_with_prefix "Condition" prefix df;
  if decide (0 < length (rows group))%nat then
    fkt ← getitem "First Kill Time" group;
    rate ← getitem "Capture Rate" group;
    Ok (Some (length (rows group), fkt, rate))
  else Ok None.

Definition report_view (captures : DataFrame) : result (option (list cell)) :=
  if decide ("boids_in_view" ∈ columns captures) then
    v ← getitem "boids_in_view" captures;
    if existsb is_str v
    then Raise (TypeError "could not convert string to float")
    else Ok (Some v)
  else Ok None.

(** The most and the least efficient condition. *)
Definition report_extremes (df : DataFrame)
  : result (gmap string cell * gmap string cell) :=
  i ← idxmax "Capture Rate" df;
  fastest ← loc i df;
  j ← idxmin "Capture Rate" df;
  slowest ← loc j df;
  Ok (fastest, slowest).

Definition analysis_report (summaries captures : DataFrame) : result Report :=
  df ← sort_values "Condition" summaries;
  table ← report_table df;
  fkt ← getitem "First Kill Time" df;
  rate ← getitem "Capture Rate" df;
  families ← mapM (report_family df) ["A"; "B"; "C"];
  view ← report_view captures;
  '(fastest, slowest) ← report_extremes df;
  _ ← series_get (columns df) "Condition" fastest;
  _ ← series_get (columns df) "Condition" slowest;
  Ok (mkReport table fkt rate families view fastest slowest).

Definition write_analysis_report (summaries captures : ref) : M Report :=
  summaries ← load summaries;
  captures ← load captures;
  lift (analysis_report summaries captures).

(* ===================================================================== *)
(** ** [main] *)
(* ===================================================================== *)

Section Main.

Variable DATA_DIR : string.
Variable parse_csv : string → result DataFrame.
Variable polyfit : list cell → list cell → result (cell * cell).

Definition main (d : directory) : M Report :=
  summaries ← lift (load_all_summaries d) ≫= new;
  captures ← lift (load_all_captures DATA_DIR parse_csv d).1 ≫= new;
  snapshots ← lift (load_all_snapshots DATA_DIR parse_csv d).1 ≫= new;
  conds ← (df ← load summaries; lift (getitem "Condition" df));
  _ ← lift (sorted_unique conds);
  _ ← print_summary_table summaries;
  _ ← plot_condition_comparison summaries;
  _ ← plot_predation_timeline captures;
  _ ← plot_confusion_effect polyfit captures;
  _ ← plot_experiment_groups summaries;
  write_analysis_report summaries captures.

End Main.

(* ===================================================================== *)
(** ** Vocabulary of the statements about the analysis *)
(* ===================================================================== *)

(** The rows of a frame whose cell in column [key] is [k], in row order. *)
Definition group_of (key : string) (k : cell) (df : DataFrame)
  : list (nat * gmap string cell) :=
  filter (λ r, cell_at key r.2 = k) (rows df).

(** The cells of column [col] in the given rows. *)
Definition cells (col : string) (rs : list (nat * gmap string cell)) : list cell :=
  cell_at col <$> rs.*2.

(** The successive differences of a series: the first entry has none, every
    later entry has its value minus the value before it. *)
Fixpoint diff_from (prev : option cell) (vs : list cell) : list cell :=
  match vs with
  | [] => []
  | v :: vs' => from_option (cell_sub v) CNaN prev :: diff_from (Some v) vs'
  end.

Definition series_diff (vs : list cell) : list cell := diff_from None vs.

(* ===================================================================== *)
(** ** Sample tables *)
(* ===================================================================== *)

Definition capture_row (condition : string) (time_sec boids_in_view : Q)
  : gmap string cell :=
  {[ "condition" := CStr condition; "time_sec" := CNum time_sec;
     "kill_number" := CNum 1; "boids_in_view" := CNum boids_in_view ]}.

(** Two interleaved conditions; A1 has its events at 2, 5 and 9 seconds. *)
Definition sample_capture_table : DataFrame :=
  mkFrame ["condition"; "time_sec"; "kill_number"; "boids_in_view"]
    [(0%nat, capture_row "A1" 2 6); (1%nat, capture_row "B1" 1 3);
     (2%nat, capture_row "A1" 5 4); (3%nat, capture_row "B1" 4 2);
     (4%nat, capture_row "A1" 9 7)].

(** A computation that only ever adds objects to the heap: the objects
    present before it runs are the same after it. *)
Definition extends {A} (m : M A) : Prop :=
  ∀ h a h', m h = Ok (a, h') → ∃ k, h' = h ++ k.

(** A fit that does not depend on the data, for the samples. *)
Definition sample_polyfit (x y : list cell) : result (cell * cell) :=
  Ok (CNum 1, CNum 0).

(** The summary of one run. *)
Definition run_summary (condition rate : string) : string :=
  "=== Experiment Summary ===
Condition: " +:+ condition +:+ "
Initial Boid Count: 50
First Kill Time: 1.5s
Total Duration: 60.0s
Total Kills: 12
Capture Rate: " +:+ rate +:+ " per minute
".

(** Three runs with the capture rates A1: 4.0, A2: 6.0, B1: 2.0, found in
    another order, and one capture log. *)
Definition sample_runs : directory :=
  [("run3_summary.txt", Text (run_summary "B1" "2.0"));
   ("run1_summary.txt", Text (run_summary "A1" "4.0"));
   ("run2_summary.txt", Text (run_summary "A2" "6.0"));
   ("run1_captures.csv", Text sample_captures)].

(** A CSV parser for the samples: every file holds the sample table. *)
Definition sample_parse_csv (content : string) : result DataFrame :=
  Ok sample_capture_table.

(** The cells one line of the table of results shows. *)
Definition row_cells (r : gmap string cell) : list cell :=
  (λ c, cell_at c r) <$> summary_columns.

(** The table of run records loaded from the sample runs. *)
Definition sample_summaries : DataFrame :=
  match load_all_summaries sample_runs with
  | Ok df => df
  | Raise _ => empty_frame
  end.

(** One run whose summary gives no capture rate. *)
Definition rateless_runs : directory :=
  [("run1_summary.txt", Text "Condition: A1
Initial Boid Count: 50
First Kill Time: N/A
Total Duration: 60.0s
Total Kills: 0
Capture Rate: N/A per minute
")].


(** A table that combines the frames [dfs] under a fresh index: its rows
    are numbered 0, 1, ..., and its columns are the columns of the frames,
    each once. *)
Definition combines (dfs : list DataFrame) (table : DataFrame) : Prop :=
  (rows table).*1 = seq 0 (length (dfs ≫= rows)) ∧
  NoDup (columns table) ∧
  ∀ c, c ∈ columns table ↔ ∃ df, df ∈ dfs ∧ c ∈ columns df.

(** A computation that leaves the heap as it found it whenever it
    returns. *)
Definition reads_only {A} (m : M A) : Prop :=
  ∀ h a h', m h = Ok (a, h') → h' = h.

(** Two heaps that hold the same objects except, possibly, for the third
    one (the snapshot table of [main]). *)
Definition same_but_third (h1 h2 : heap) : Prop :=
  ∃ s c n1 n2 k, h1 = s :: c :: n1 :: k ∧ h2 = s :: c :: n2 :: k.

(** A computation whose outcome does not depend on the third object. *)
Definition ignores_third {A} (m : M A) : Prop :=
  ∀ h1 h2, same_but_third h1 h2 →
    match m h1, m h2 with
    | Ok (a1, h1'), Ok (a2, h2') => a1 = a2 ∧ same_but_third h1' h2'
    | Raise e1, Raise e2 => e1 = e2
    | _, _ => False
    end.

(** The capture rate of a row. *)
Definition rate_of (r : gmap string cell) : cell := cell_at "Capture Rate" r.
(* ===================================================================== *)
(** * Properties *)
(* ===================================================================== *)

Example strip_ex : Str.strip "  Total Duration  " = "Total Duration".
Proof. reflexivity. Qed.
Example replace_ex1 : Str.replace "s" "" "42.0s" = "42.0".
Proof. reflexivity. Qed.
Example replace_ex2 : Str.replace " per minute" "" "3.5 per minute" = "3.5".
Proof. reflexivity. Qed.
Example replace_ex3 : Str.replace "ab" "x" "aababab" = "axxx".
Proof. reflexivity. Qed.
Example replace_ex4 : Str.replace "" "-" "ab" = "-a-b-".
Proof. reflexivity. Qed.
Example split1_ex : Str.split1 ":" "Start: 12:30" = ["Start"; " 12:30"].
Proof. reflexivity. Qed.
Example readlines_ex :
  Str.readlines "a: 1
=== x ===
b" = ["a: 1
"; "=== x ===
"; "b"].
Proof. reflexivity. Qed.
Module StrFacts.
Import Str.

Lemma app_cons a s t : String a s +:+ t = String a (s +:+ t).
Proof. reflexivity. Qed.

Lemma app_nil_l t : "" +:+ t = t.
Proof. reflexivity. Qed.

Lemma app_assoc_str a b c : (a +:+ b) +:+ c = a +:+ (b +:+ c).
Proof. induction a as [|x a IH]; [done |]. by rewrite !app_cons, IH. Qed.

Lemma startswith_prefix p s : startswith p s = true ↔ ∃ b, s = p +:+ b.
Proof.
  revert s. induction p as [|a p IH]; intros s.
  - split; [intros _; by exists s | done].
  - destruct s as [|b s]; simpl.
    + split; [done | intros [t Ht]; discriminate Ht].
    + destruct (decide (a = b)) as [->|Hne].
      * rewrite IH. split; intros [t Ht]; exists t.
        -- by rewrite app_cons, <- Ht.
        -- rewrite app_cons in Ht. by injection Ht.
      * split; [done | intros [t Ht]]. rewrite app_cons in Ht.
        injection Ht as Hab _. by destruct Hne.
Qed.

Lemma contains_occurs sub s : contains sub s = true ↔ occurs sub s.
Proof.
  induction s as [|c s IH]; simpl.
  - rewrite orb_false_r, startswith_prefix. split.
    + intros [b Hb]. by exists "", b.
    + intros ([|x a] & b & Hab); [by exists b |]. discriminate Hab.
  - rewrite orb_true_iff, startswith_prefix, IH. split.
    + intros [[b Hb] | (a & b & Hab)].
      * by exists "", b.
      * exists (String c a), b. by rewrite app_cons, <- Hab.
    + intros ([|x a] & b & Hab).
      * left. by exists b.
      * right. rewrite app_cons in Hab. injection Hab as _ Hab. by exists a, b.
Qed.

Lemma contains_char c s : contains (String c "") s = true ↔ has_char c s.
Proof.
  induction s as [|d s IH]; simpl; [done |].
  rewrite orb_true_iff, IH.
  destruct (decide (c = d)) as [->|Hne]; [tauto |].
  split; [intros [[=]|?]; tauto | intros [?|?]; [congruence | tauto]].
Qed.

Lemma cut_found c s :
  has_char c s →
  ∃ pre post, cut c s = (pre, Some post) ∧ s = pre +:+ String c post ∧ ¬ has_char c pre.
Proof.
  induction s as [|d s IH]; simpl; [done |]. intros Hc.
  destruct (decide (d = c)) as [->|Hne].
  - exists "", s. split_and!; [done | done | intros []].
  - destruct Hc as [|Hc]; [done |].
    destruct (IH Hc) as (pre & post & -> & -> & Hpre).
    exists (String d pre), post. rewrite app_cons. simpl. tauto.
Qed.

Lemma cut_unique c pre post :
  ¬ has_char c pre → cut c (pre +:+ String c post) = (pre, Some post).
Proof.
  induction pre as [|d pre IH]; intros Hpre.
  - rewrite app_nil_l. simpl. by rewrite decide_True.
  - rewrite app_cons. simpl in *. rewrite decide_False by tauto.
    rewrite IH by tauto. done.
Qed.
End StrFacts.

(* ===================================================================== *)
(** ** Reading one summary *)
(* ===================================================================== *)

Section SummaryLines.
Import Str StrFacts.

Lemma dict_get_set_eq k v d : dict_get k (dict_set k v d) = Some v.
Proof.
  induction d as [|[k' v'] d IH]; simpl.
  - by rewrite decide_True.
  - destruct (decide (k' = k)); simpl.
    + by rewrite decide_True.
    + by rewrite decide_False.
Qed.

Lemma dict_get_set_ne k k' v d : k ≠ k' → dict_get k' (dict_set k v d) = dict_get k' d.
Proof.
  intros Hne. induction d as [|[k0 v0] d IH]; simpl.
  - by rewrite decide_False.
  - destruct (decide (k0 = k)) as [->|]; simpl.
    + by rewrite !decide_False.
    + by rewrite IH.
Qed.

Lemma dict_set_nonempty k v d : dict_set k v d ≠ [].
Proof. destruct d as [|[k' v'] d]; simpl; [done | by destruct (decide (k' = k))]. Qed.

Lemma line_fields_text line key raw :
  line_fields line = Some (key, raw) ↔
  has_char ":" line ∧ ¬ occurs "===" line ∧
  ∃ pre post, line = pre +:+ String ":" post ∧ ¬ has_char ":" pre ∧
              key = strip pre ∧ raw = strip post.
Proof.
  unfold line_fields. rewrite <- contains_occurs, <- contains_char. split.
  - destruct (contains ":" line) eqn:Hc; [| done].
    destruct (contains "===" line) eqn:Hs; [done |]. simpl.
    apply contains_char, (cut_found ":") in Hc as (pre & post & -> & -> & Hpre).
    intros [= <- <-]. split_and!; [done | done | by exists pre, post].
  - intros (-> & Hs & pre & post & -> & Hpre & -> & ->).
    apply not_true_is_false in Hs. rewrite Hs. simpl.
    by rewrite cut_unique.
Qed.

Lemma line_fields_is_Some line :
  is_Some (line_fields line) ↔ has_char ":" line ∧ ¬ occurs "===" line.
Proof.
  split.
  - intros [[key raw] H]. apply line_fields_text in H. tauto.
  - intros [Hc Hs]. destruct (cut_found _ _ Hc) as (pre & post & _ & Hl & Hpre).
    exists (strip pre, strip post). apply line_fields_text. naive_solver.
Qed.

Lemma summary_line_fields data line :
  summary_line data line =
  Ok (match line_fields line with
      | Some (key, raw) => dict_set key (strip_units raw) data
      | None => data
      end).
Proof.
  unfold summary_line, line_fields, split1.
  destruct (contains ":" line) eqn:Hc; [| done].
  destruct (contains "===" line); [done |]. simpl.
  apply contains_char, (cut_found ":") in Hc as (pre & post & -> & _).
  done.
Qed.

Lemma summary_lines_fold data lines :
  summary_lines data lines =
  Ok (foldl (λ d line, match line_fields line with
                       | Some (key, raw) => dict_set key (strip_units raw) d
                       | None => d
                       end) data lines).
Proof.
  revert data. induction lines as [|line lines IH]; intros data; [done |].
  simpl. rewrite summary_line_fields. simpl. apply IH.
Qed.

Lemma summary_lines_untouched key data data' lines :
  summary_lines data lines = Ok data' →
  (∀ l raw, l ∈ lines → line_fields l ≠ Some (key, raw)) →
  dict_get key data' = dict_get key data.
Proof.
  revert data. induction lines as [|line lines IH]; intros data; simpl.
  - by intros [= ->].
  - rewrite summary_line_fields. simpl. intros Hrest Hno.
    rewrite (IH _ Hrest) by (intros; apply Hno; by right).
    destruct (line_fields line) as [[k raw]|] eqn:Hl; [| done].
    apply dict_get_set_ne. intros ->. eapply Hno; [by left | done].
Qed.

Lemma summary_lines_app data lines1 lines2 :
  summary_lines data (lines1 ++ lines2) =
  data' ← summary_lines data lines1; summary_lines data' lines2.
Proof.
  revert data. induction lines1 as [|l lines1 IH]; intros data; [done |].
  simpl. rewrite summary_line_fields. simpl. apply IH.
Qed.

Lemma summary_lines_records data lines key raw :
  records lines key raw →
  ∃ data', summary_lines data lines = Ok data' ∧
           dict_get key data' = Some (strip_units raw) ∧ data' ≠ [].
Proof.
  intros (l1 & line & l2 & -> & Hline & Hlater).
  rewrite summary_lines_app, (summary_lines_fold data l1). simpl.
  rewrite summary_line_fields, Hline. simpl.
  rewrite summary_lines_fold. eexists. split; [done |].
  pose proof (summary_lines_fold
    (dict_set key (strip_units raw)
       (foldl (λ d line0, match line_fields line0 with
                          | Some (key0, raw0) => dict_set key0 (strip_units raw0) d
                          | None => d
                          end) data l1)) l2) as Hfold.
  split.
  - rewrite (summary_lines_untouched key _ _ _ Hfold Hlater).
    apply dict_get_set_eq.
  - intros Hnil. 
    assert (dict_get key [] = Some (strip_units raw)) as Hget; [| done].
    rewrite <- Hnil, (summary_lines_untouched key _ _ _ Hfold Hlater).
    apply dict_get_set_eq.
Qed.

End SummaryLines.

Section Trimming.
Import Str StrFacts.

Lemma isspace_whitespace c : isspace c = true ↔ whitespace c.
Proof.
  assert (isspace c = bool_decide (whitespace c)) as ->.
  { destruct c as [[] [] [] [] [] [] [] []]; reflexivity. }
  apply bool_decide_eq_true.
Qed.

Lemma isspace_not_whitespace c : isspace c = false ↔ ¬ whitespace c.
Proof. rewrite <- isspace_whitespace. by destruct (isspace c). Qed.

Lemma lstrip_spaces l u : (∀ c, has_char c l → whitespace c) → lstrip (l +:+ u) = lstrip u.
Proof.
  induction l as [|a l IH]; intros Hl; [done |]. simpl.
  rewrite (proj2 (isspace_whitespace a)) by (apply Hl; by left).
  apply IH. intros c Hc. apply Hl. by right.
Qed.

Lemma lstrip_all_spaces r : (∀ c, has_char c r → whitespace c) → lstrip r = "".
Proof.
  induction r as [|a r IH]; intros Hr; [done |]. simpl.
  rewrite (proj2 (isspace_whitespace a)) by (apply Hr; by left).
  apply IH. intros c Hc. apply Hr. by right.
Qed.

Lemma lstrip_id u : (∀ c, first_char u = Some c → ¬ whitespace c) → lstrip u = u.
Proof.
  destruct u as [|a u]; intros Hu; [done |]. simpl.
  by rewrite (proj2 (isspace_not_whitespace a)) by (by apply Hu).
Qed.

Lemma rstrip_all_spaces r : (∀ c, has_char c r → whitespace c) → rstrip r = "".
Proof.
  induction r as [|a r IH]; intros Hr; [done |]. simpl.
  rewrite IH by (intros c Hc; apply Hr; by right).
  by rewrite (proj2 (isspace_whitespace a)) by (apply Hr; by left).
Qed.

Lemma rstrip_id u : (∀ c, last_char u = Some c → ¬ whitespace c) → rstrip u = u.
Proof.
  induction u as [|a u IH]; intros Hu; [done |]. simpl.
  destruct u as [|b u].
  - simpl. by rewrite (proj2 (isspace_not_whitespace a)) by (by apply Hu).
  - rewrite IH by (intros c Hc; by apply Hu). done.
Qed.

Lemma rstrip_nonempty a u :
  (∀ c, last_char (String a u) = Some c → ¬ whitespace c) → rstrip (String a u) ≠ "".
Proof. intros Hu. by rewrite rstrip_id. Qed.

Lemma rstrip_spaces u r :
  (∀ c, last_char u = Some c → ¬ whitespace c) →
  (∀ c, has_char c r → whitespace c) →
  rstrip (u +:+ r) = u.
Proof.
  intros Hu Hr. induction u as [|a u IH]; [by apply rstrip_all_spaces |].
  simpl. destruct u as [|b u].
  - simpl. rewrite rstrip_all_spaces by done.
    by rewrite (proj2 (isspace_not_whitespace a)) by (by apply Hu).
  - rewrite IH by (intros c Hc; by apply Hu). done.
Qed.

Lemma lstrip_split s :
  ∃ l, s = l +:+ lstrip s ∧ (∀ c, has_char c l → whitespace c) ∧
       (∀ c, first_char (lstrip s) = Some c → ¬ whitespace c).
Proof.
  induction s as [|a s (l & Hs & Hl & Hf)].
  - exists "". by split_and!.
  - simpl. destruct (isspace a) eqn:Ha.
    + exists (String a l). split_and!.
      * rewrite app_cons. by f_equal.
      * intros c [<- | Hc]; [by apply isspace_whitespace | by apply Hl].
      * done.
    + exists "". split_and!; [done | done |].
      intros c [= <-]. by apply isspace_not_whitespace.
Qed.

Lemma rstrip_split s :
  ∃ r, s = rstrip s +:+ r ∧ (∀ c, has_char c r → whitespace c) ∧
       (∀ c, last_char (rstrip s) = Some c → ¬ whitespace c) ∧
       (∀ c, first_char (rstrip s) = Some c → first_char s = Some c).
Proof.
  induction s as [|a s (r & Hs & Hr & Hlast & Hfirst)].
  - exists "". by split_and!.
  - simpl. destruct (rstrip s) as [|b u] eqn:Hu.
    + destruct (isspace a) eqn:Ha.
      * exists (String a r). split_and!; try done.
        -- rewrite ?app_cons, ?app_nil_l in *. by f_equal.
        -- intros c [<- | Hc]; [by apply isspace_whitespace | by apply Hr].
      * exists r. split_and!; try done.
        -- rewrite ?app_cons, ?app_nil_l in *. by f_equal.
        -- intros c [= <-]. by apply isspace_not_whitespace.
    + exists r. split_and!; try done. rewrite !app_cons in *. by f_equal.
Qed.


(** [strip] is trimming: its result is the one text that the argument
    holds between two runs of white space and that has no white space at
    either end. *)
Lemma strip_trimmed s t : trimmed_of s t ↔ t = strip s.
Proof.
  split.
  - intros ((l & r & -> & Hl & Hr) & Hfirst & Hlast). unfold strip.
    rewrite lstrip_spaces by done. destruct t as [|a t].
    + simpl. by rewrite lstrip_all_spaces.
    + rewrite lstrip_id by (intros c [= <-]; by apply Hfirst).
      by rewrite rstrip_spaces.
  - intros ->. unfold strip.
    destruct (lstrip_split s) as (l & Hs & Hl & Hfirst).
    destruct (rstrip_split (lstrip s)) as (r & Hs' & Hr & Hlast & Hkeep).
    split_and!.
    + exists l, r. split_and!; [| done | done]. by rewrite <- Hs', <- Hs.
    + intros c Hc. apply Hfirst. by apply Hkeep.
    + done.
Qed.

End Trimming.

(** C2.  A line of a summary is read as a key/value pair exactly when it
    contains a colon and does not contain the marker [===]; a line that is
    read is cut at its first colon, the key is the text before it without
    its leading and trailing white space and the value the text after it
    without its leading and trailing white space (from which the loader
    then removes the unit texts); every other line, and in particular every
    line with the marker, whether or not it has a colon, leaves the record
    as it is. *)
Theorem summary_line_key_value (line : string) :
  (is_Some (line_fields line) ↔ Str.has_char ":" line ∧ ¬ Str.occurs "===" line) ∧
  (∀ key raw, line_fields line = Some (key, raw) ↔
     Str.has_char ":" line ∧ ¬ Str.occurs "===" line ∧
     ∃ pre post, line = pre +:+ String ":" post ∧ ¬ Str.has_char ":" pre ∧
                 trimmed_of pre key ∧ trimmed_of post raw) ∧
  (∀ data, summary_line data line =
     Ok (match line_fields line with
         | Some (key, raw) => dict_set key (strip_units raw) data
         | None => data
         end)) ∧
  (Str.occurs "===" line → ∀ data, summary_line data line = Ok data).
Proof.
  split_and!.
  - apply line_fields_is_Some.
  - intros key raw. rewrite line_fields_text.
    split; intros (Hc & Hs & pre & post & Hline & Hpre & Hkey & Hraw);
      (split; [done |]); (split; [done |]); exists pre, post;
      (split; [done |]); (split; [done |]); split; by apply strip_trimmed.
  - intros data. apply summary_line_fields.
  - intros Hs data. rewrite summary_line_fields.
    destruct (line_fields line) as [[key raw]|] eqn:Hl; [| done].
    apply line_fields_text in Hl. tauto.
Qed.

Lemma summary_line_key_value_witness :
  summary_line [] "  Total Duration :  42.0s  " = Ok [("Total Duration", "42.0")] ∧
  trimmed_of "  Total Duration " "Total Duration" ∧
  trimmed_of "  42.0s  " "42.0s".
Proof.
  destruct (summary_line_key_value "  Total Duration :  42.0s  ")
    as (_ & Hfields & Hline & _).
  assert (line_fields "  Total Duration :  42.0s  " = Some ("Total Duration", "42.0s"))
    as Hread by (vm_compute; reflexivity).
  split.
  - rewrite Hline, Hread. vm_compute. reflexivity.
  - apply Hfields in Hread as (_ & _ & pre & post & Hcut & Hpre & Hkey & Hraw).
    pose proof (StrFacts.cut_unique ":" pre post Hpre) as Hunique.
    rewrite <- Hcut in Hunique. vm_compute in Hunique.
    injection Hunique as <- <-. split; [exact Hkey | exact Hraw].
Defined.

Example separator_with_colon :
  summary_line [("Condition", "A1")] "=== Experiment: A1 ===" = Ok [("Condition", "A1")].
Proof. reflexivity. Qed.
Example first_colon_only :
  summary_line [] "  Start Time : 12:30:05  " = Ok [("Start Time", "12:30:05")].
Proof. reflexivity. Qed.

(* ===================================================================== *)
(** ** Frames built from records *)
(* ===================================================================== *)

Section Frames.

Lemma add_column_elem cols c x : x ∈ add_column cols c ↔ x ∈ cols ∨ x = c.
Proof.
  unfold add_column. destruct (decide (c ∈ cols)).
  - split; [tauto | intros [? | ->]; done].
  - rewrite elem_of_app, list_elem_of_singleton. tauto.
Qed.

Lemma add_columns_elem cs cols x :
  x ∈ foldl add_column cols cs ↔ x ∈ cols ∨ x ∈ cs.
Proof.
  revert cols. induction cs as [|c cs IH]; intros cols; simpl.
  - rewrite elem_of_nil. tauto.
  - rewrite IH, add_column_elem, elem_of_cons. tauto.
Qed.

Lemma add_column_present cols c : c ∈ cols → add_column cols c = cols.
Proof. intros H. unfold add_column. by rewrite decide_True. Qed.

Lemma frame_of_dicts_columns_go (ds : list dict) cols x :
  x ∈ foldl (λ cols d, foldl add_column cols d.*1) cols ds ↔
  x ∈ cols ∨ ∃ d, d ∈ ds ∧ x ∈ d.*1.
Proof.
  revert cols. induction ds as [|d ds IH]; intros cols; simpl.
  - split; [tauto | intros [|(d & Hd & _)]; [done | by apply elem_of_nil in Hd]].
  - rewrite IH, add_columns_elem. split.
    + intros [[|]|(d' & Hd' & Hx)]; [tauto | right; exists d | right; exists d'];
        rewrite elem_of_cons; tauto.
    + intros [|(d' & Hd' & Hx)]; [tauto |].
      apply elem_of_cons in Hd' as [->|]; [tauto | right; by exists d'].
Qed.

Lemma frame_of_dicts_columns ds x :
  x ∈ columns (frame_of_dicts ds) ↔ ∃ d, d ∈ ds ∧ x ∈ d.*1.
Proof.
  unfold frame_of_dicts. simpl. rewrite frame_of_dicts_columns_go, elem_of_nil. tauto.
Qed.

Lemma dict_get_Some_key k v (d : dict) : dict_get k d = Some v → k ∈ d.*1.
Proof.
  induction d as [|[k' v'] d IH]; simpl; [done |].
  destruct (decide (k' = k)) as [->|]; [by left | right; auto].
Qed.

Lemma cell_at_row_of_dict col (d : dict) :
  cell_at col (row_of_dict d) = from_option CStr CNaN (dict_get col d).
Proof.
  unfold cell_at, row_of_dict. induction d as [|[k v] d IH]; simpl; [done |].
  rewrite lookup_insert. destruct (decide (k = col)); [done | apply IH].
Qed.

Lemma frame_of_dicts_rows (ds : list dict) i d :
  ds !! i = Some d → rows (frame_of_dicts ds) !! i = Some (i, row_of_dict d).
Proof. intros H. unfold frame_of_dicts. simpl. by rewrite list_lookup_imap, H. Qed.

Lemma zip_with_fmap_same {A B C} (g : A → B → C) (h : A → B) (l : list A) :
  zip_with g l (h <$> l) = (λ x, g x (h x)) <$> l.
Proof. induction l; simpl; by f_equal. Qed.

Lemma update_column_eq f col df :
  update_column f col df =
  Ok (if decide (col ∈ columns df)
      then mkFrame (columns df)
             ((λ r, (r.1, <[col := f (cell_at col r.2)]> r.2)) <$> rows df)
      else df).
Proof.
  unfold update_column, getitem. destruct (decide (col ∈ columns df)); [| done].
  simpl. unfold setitem. rewrite add_column_present by done.
  do 2 f_equal. rewrite <- !list_fmap_compose.
  exact (zip_with_fmap_same _ (f ∘ cell_at col ∘ snd) _).
Qed.


Lemma update_column_spec f col df :
  ∃ df', update_column f col df = Ok df' ∧
    columns df' = columns df ∧
    Forall2 (λ r r', r'.1 = r.1 ∧
               ∀ c, cell_at c r'.2 =
                    if decide (c = col ∧ col ∈ columns df)
                    then f (cell_at c r.2) else cell_at c r.2)
            (rows df) (rows df').
Proof.
  rewrite update_column_eq. eexists. split; [done |].
  destruct (decide (col ∈ columns df)) as [Hin|Hout]; simpl.
  - split; [done |]. apply Forall2_fmap_r, Forall_Forall2_diag, Forall_forall.
    intros [i r] _. simpl. split; [done |]. intros c. unfold cell_at.
    rewrite lookup_insert. destruct (decide (col = c)) as [->|Hne].
    + by rewrite decide_True.
    + rewrite decide_False; [done | by intros [-> _]].
  - split; [done |]. apply Forall_Forall2_diag, Forall_forall.
    intros [i r] _. simpl. split; [done |]. intros c.
    rewrite decide_False; [done | by intros [_ ?]].
Qed.

Lemma Forall2_chain {A} (R S : A → A → Prop) l k m :
  Forall2 R l k → Forall2 S k m → Forall2 (λ x z, ∃ y, R x y ∧ S y z) l m.
Proof.
  intros H. revert m. induction H; intros m Hm; inversion Hm; subst; constructor; eauto.
Qed.

Lemma to_numeric_NaN_fixed col : coerce_cell col CNaN = CNaN.
Proof. unfold coerce_cell. by repeat case_decide. Qed.

Lemma if_and_other {A} (c col : string) (P : Prop) `{!Decision P} (a b : A) :
  c ≠ col → (if decide (c = col ∧ P) then a else b) = b.
Proof. intros Hne. rewrite decide_False; [done | by intros [? _]]. Qed.

Lemma if_and_same {A} (col : string) (P : Prop) `{!Decision P} (a b : A) :
  (if decide (col = col ∧ P) then a else b) = if decide P then a else b.
Proof.
  destruct (decide P).
  - by rewrite decide_True.
  - rewrite decide_False; [done | by intros [_ ?]].
Qed.

Ltac simpl_ifs :=
  repeat match goal with
         | |- context [decide (?c = ?col ∧ ?P)] =>
             first [ rewrite (if_and_other c col P) by (first [assumption | discriminate])
                   | rewrite (if_and_same col P) ]
         end.

Lemma coerce_cell_numeric c v : c ∈ numeric_columns → coerce_cell c v = to_numeric v.
Proof. intros H. unfold coerce_cell. by rewrite decide_True. Qed.

Lemma coerce_cell_first_kill v :
  coerce_cell "First Kill Time" v = to_numeric (str_replace "N/A" "" v).
Proof. reflexivity. Qed.

Lemma coerce_cell_other c v :
  c ∉ numeric_columns → c ≠ "First Kill Time" → coerce_cell c v = v.
Proof. intros H1 H2. unfold coerce_cell. by rewrite !decide_False. Qed.

Lemma coerce_summaries_spec df :
  ∃ df', coerce_summaries df = Ok df' ∧
    columns df' = columns df ∧
    Forall2 (λ r r', r'.1 = r.1 ∧
               ∀ c, cell_at c r'.2 =
                    if decide (c ∈ columns df)
                    then coerce_cell c (cell_at c r.2) else cell_at c r.2)
            (rows df) (rows df').
Proof.
  unfold coerce_summaries, numeric_columns. simpl.
  destruct (update_column_spec to_numeric "Initial Boid Count" df)
    as (df1 & -> & Hc1 & H1). simpl.
  destruct (update_column_spec to_numeric "Total Duration" df1)
    as (df2 & -> & Hc2 & H2). simpl.
  destruct (update_column_spec to_numeric "Total Kills" df2)
    as (df3 & -> & Hc3 & H3). simpl.
  destruct (update_column_spec to_numeric "Capture Rate" df3)
    as (df4 & -> & Hc4 & H4). simpl.
  destruct (update_column_spec (λ c, to_numeric (str_replace "N/A" "" c))
              "First Kill Time" df4) as (df5 & -> & Hc5 & H5).
  rewrite Hc1 in *. rewrite Hc2 in *. rewrite Hc3 in *. rewrite Hc4 in *.
  exists df5. split_and!; [done | done |].
  pose proof (Forall2_chain _ _ _ _ _
                (Forall2_chain _ _ _ _ _
                   (Forall2_chain _ _ _ _ _
                      (Forall2_chain _ _ _ _ _ H1 H2) H3) H4) H5) as H.
  eapply Forall2_impl; [exact H |]. clear.
  intros r r' (r4 & (r3 & (r2 & (r1 & [E1 F1] & [E2 F2]) & [E3 F3]) & [E4 F4]) & [E5 F5]).
  split; [congruence |]. intros c.
  rewrite F5, F4, F3, F2, F1. clear.
  destruct (decide (c = "Initial Boid Count")) as [->|N1]; [simpl_ifs |].
  { rewrite coerce_cell_numeric; [done | by left]. }
  destruct (decide (c = "Total Duration")) as [->|N2]; [simpl_ifs |].
  { rewrite coerce_cell_numeric; [done | by right; left]. }
  destruct (decide (c = "Total Kills")) as [->|N3]; [simpl_ifs |].
  { rewrite coerce_cell_numeric; [done | by do 2 right; left]. }
  destruct (decide (c = "Capture Rate")) as [->|N4]; [simpl_ifs |].
  { rewrite coerce_cell_numeric; [done | by do 3 right; left]. }
  destruct (decide (c = "First Kill Time")) as [->|N5]; [simpl_ifs |].
  { by rewrite coerce_cell_first_kill. }
  simpl_ifs.
  rewrite coerce_cell_other; [by case_decide | | done].
  unfold numeric_columns. rewrite !not_elem_of_cons. split_and!; try done. apply not_elem_of_nil.
Qed.

End Frames.

(* ===================================================================== *)
(** ** The summary loader *)
(* ===================================================================== *)

Section SummaryLoader.
Import Str.

Lemma collect_summaries_prefix acc files res :
  collect_summaries acc files = Ok res → ∀ d, d ∈ acc → d ∈ res.
Proof.
  revert acc. induction files as [|[name f] files IH]; intros acc; simpl.
  - by intros [= ->].
  - destruct (read_lines f) as [lines|]; [| done]. simpl.
    rewrite summary_lines_fold. simpl. intros H d Hd.
    apply (IH _ H). destruct (foldl _ _ _); [done |].
    apply elem_of_app. by left.
Qed.

Lemma collect_summaries_elem acc files res name content data :
  collect_summaries acc files = Ok res →
  (name, Text content) ∈ files →
  summary_lines [] (readlines content) = Ok data →
  data ≠ [] →
  data ∈ res.
Proof.
  revert acc. induction files as [|[name' f] files IH]; intros acc; simpl.
  - intros _ H. by apply elem_of_nil in H.
  - intros Hres Hin Hdata Hne. apply elem_of_cons in Hin as [[= <- <-]|Hin].
    + simpl in Hres. rewrite Hdata in Hres. simpl in Hres.
      apply (collect_summaries_prefix _ _ _ Hres).
      destruct data; [done |]. apply elem_of_app. right. by left.
    + destruct (read_lines f) as [lines|]; [| done]. simpl in Hres.
      destruct (summary_lines [] lines); [| done]. simpl in Hres.
      by apply (IH _ Hres).
Qed.

Lemma collect_summaries_readable acc files res :
  collect_summaries acc files = Ok res →
  ∀ name f, (name, f) ∈ files → ∃ content, f = Text content.
Proof.
  revert acc. induction files as [|[name' f'] files IH]; intros acc; simpl.
  - intros _ name f H. by apply elem_of_nil in H.
  - intros Hres name f Hin. apply elem_of_cons in Hin as [[= -> ->]|Hin].
    + destruct f' as [content|]; [by exists content | done].
    + destruct (read_lines f'); [| done]. simpl in Hres.
      destruct (summary_lines [] _); [| done]. simpl in Hres.
      by apply (IH _ Hres name f).
Qed.

(** Every readable summary that yields a non-empty record is a row of the
    loaded table, whose cells are those of [summary_cell]. *)
Lemma load_all_summaries_row d df name content data :
  load_all_summaries d = Ok df →
  (name, Text content) ∈ glob "_summary.txt" d →
  summary_lines [] (readlines content) = Ok data →
  data ≠ [] →
  ∃ i r, rows df !! i = Some (i, r) ∧ ∀ col, cell_at col r = summary_cell col data.
Proof.
  unfold load_all_summaries. intros Hload Hin Hdata Hne.
  destruct (collect_summaries [] _) as [ds|] eqn:Hds; [| done]. simpl in Hload.
  pose proof (collect_summaries_elem _ _ _ _ _ _ Hds Hin Hdata Hne) as Hd.
  apply list_elem_of_lookup in Hd as [i Hi].
  destruct (coerce_summaries_spec (frame_of_dicts ds)) as (df' & Hco & Hcols & Hrows).
  rewrite Hco in Hload. injection Hload as ->.
  pose proof (frame_of_dicts_rows _ _ _ Hi) as Hrow.
  destruct (Forall2_lookup_l _ _ _ _ _ Hrows Hrow) as ([j r] & Hr & Hj & Hcells).
  simpl in Hj, Hcells. subst j. exists i, r. split; [done |].
  intros col. rewrite Hcells, cell_at_row_of_dict. unfold summary_cell.
  case_decide as Hcol; [done |].
  destruct (dict_get col data) as [v|] eqn:Hget; simpl.
  - destruct Hcol. apply frame_of_dicts_columns. exists data. split.
    + apply list_elem_of_lookup. by exists i.
    + by apply dict_get_Some_key in Hget.
  - by rewrite to_numeric_NaN_fixed.
Qed.

End SummaryLoader.

(** C1.  For every summary artifact of a directory that loads, and every
    key for which the artifact records a value: the loaded table has a row
    for the artifact whose cells are the coerced values the artifact
    records; in that row a Total Duration recorded as [42.0s] is the
    number 42, a Capture Rate recorded as [3.5 per minute] is the number
    3.5, and a First Kill Time recorded as [N/A] is the missing-value
    marker NaN (which is neither the number zero nor a string). *)
Theorem summary_values_coerced (d : directory) (df : DataFrame)
    (name content key raw : string) :
  load_all_summaries d = Ok df →
  (name, Text content) ∈ glob "_summary.txt" d →
  records (Str.readlines content) key raw →
  ∃ data i r,
    summary_lines [] (Str.readlines content) = Ok data ∧
    rows df !! i = Some (i, r) ∧
    (∀ col, cell_at col r = summary_cell col data) ∧
    dict_get key data = Some (strip_units raw) ∧
    (key = "Total Duration" → raw = "42.0s" →
       cell_at "Total Duration" r = CNum (42 # 1)) ∧
    (key = "Capture Rate" → raw = "3.5 per minute" →
       cell_at "Capture Rate" r = CNum (7 # 2)) ∧
    (key = "First Kill Time" → raw = "N/A" →
       cell_at "First Kill Time" r = CNaN ∧
       cell_at "First Kill Time" r ≠ CNum 0 ∧
       ∀ s, cell_at "First Kill Time" r ≠ CStr s).
Proof.
  intros Hload Hin Hrec.
  destruct (summary_lines_records [] _ _ _ Hrec) as (data & Hdata & Hget & Hne).
  destruct (load_all_summaries_row _ _ _ _ _ Hload Hin Hdata Hne) as (i & r & Hr & Hcells).
  exists data, i, r. split_and!; try done.
  - intros -> ->. rewrite Hcells. unfold summary_cell. by rewrite Hget.
  - intros -> ->. rewrite Hcells. unfold summary_cell. by rewrite Hget.
  - intros -> ->. rewrite Hcells. unfold summary_cell. by rewrite Hget.
Qed.


Lemma summary_values_coerced_witness :
  ∃ df data i r,
    load_all_summaries sample_directory = Ok df ∧
    summary_lines [] (Str.readlines sample_summary) = Ok data ∧
    rows df !! i = Some (i, r) ∧
    cell_at "Capture Rate" r = CNum (7 # 2).
Proof.
  assert (load_all_summaries sample_directory =
          Ok (from_option id empty_frame
                (match load_all_summaries sample_directory with
                 | Ok df => Some df | Raise _ => None end))) as Hload
    by (vm_compute; reflexivity).
  destruct (summary_values_coerced sample_directory _ "A1_summary.txt" sample_summary
              "Capture Rate" "3.5 per minute" Hload)
    as (data & i & r & Hdata & Hr & _ & _ & _ & Hrate & _).
  - vm_compute. left.
  - exists (take 6 (Str.readlines sample_summary)),
           "Capture Rate: 3.5 per minute
", []. split_and!; [by vm_compute | by vm_compute |].
    intros l raw' Hl. apply elem_of_nil in Hl. destruct Hl.
  - eexists _, data, i, r. split_and!; [exact Hload | done | done | by apply Hrate].
Defined.

(* ===================================================================== *)
(** ** The CSV loaders *)
(* ===================================================================== *)

Section CsvLoaderFacts.
Variable DATA_DIR : string.
Variable parse_csv : string → result DataFrame.

Lemma read_frames_eq dfs out files :
  read_frames DATA_DIR parse_csv dfs out files =
  (dfs ++ parsed_frames parse_csv files,
   out ++ skipped_messages DATA_DIR parse_csv files).
Proof.
  revert dfs out. induction files as [|[name f] files IH]; intros dfs out; simpl.
  - by rewrite !app_nil_r.
  - unfold parsed_frames, skipped_messages in *. simpl.
    destruct (read_csv parse_csv f) as [df|e]; rewrite IH; simpl.
    + by rewrite <- app_assoc.
    + unfold path_of. by rewrite <- app_assoc, !StrFacts.app_assoc_str.
Qed.

(** Every file that does not parse has its line among the lines printed. *)
Lemma skipped_messages_elem files name f e :
  (name, f) ∈ files → read_csv parse_csv f = Raise e →
  "Error loading " +:+ DATA_DIR +:+ "/" +:+ name +:+ ": " +:+ exn_message e
    ∈ skipped_messages DATA_DIR parse_csv files.
Proof.
  intros Hin Hf. unfold skipped_messages. apply list_elem_of_omap.
  exists (name, f). split; [done |]. simpl. by rewrite Hf.
Qed.

(** Every frame that parses is among the frames kept. *)
Lemma parsed_frames_elem files name f df :
  (name, f) ∈ files → read_csv parse_csv f = Ok df → df ∈ parsed_frames parse_csv files.
Proof.
  intros Hin Hf. unfold parsed_frames. apply list_elem_of_omap.
  exists (name, f). split; [done |]. simpl. by rewrite Hf.
Qed.

Lemma concat_or_empty_Ok dfs :
  concat_or_empty dfs =
  Ok (match dfs with
      | [] => empty_frame
      | _ => mkFrame (foldl (λ cols df, foldl add_column cols (columns df)) [] dfs)
                     (imap (λ i r, (i, r.2)) (dfs ≫= rows))
      end).
Proof. by destruct dfs. Qed.

Lemma imap_snd_rows {A} (l : list (nat * A)) (f : nat → nat) :
  (imap (λ i r, (f i, r.2)) l).*2 = l.*2.
Proof.
  revert f. induction l as [|x l IH]; intros f; [done |].
  simpl. f_equal. apply (IH (f ∘ S)).
Qed.

End CsvLoaderFacts.

(** C8.  Each CSV loader reads every matching file on its own: a file that
    fails to parse adds one printed line, which holds the location of that
    file (the data directory, a slash, the name of the file) and the message
    of the failure, and is left out; every other file is still loaded, in
    order; the loader returns a table in every case, whose rows are the rows
    of the files that parsed, and the empty table when no file parsed. *)
Theorem csv_loaders_skip_and_continue (DATA_DIR : string)
    (parse_csv : string → result DataFrame) (d : directory) :
  (∃ table,
     load_all_captures DATA_DIR parse_csv d =
       (Ok table, skipped_messages DATA_DIR parse_csv (glob "_captures.csv" d)) ∧
     (rows table).*2 = (parsed_frames parse_csv (glob "_captures.csv" d) ≫= rows).*2 ∧
     (parsed_frames parse_csv (glob "_captures.csv" d) = [] → table = empty_frame)) ∧
  (∃ table,
     load_all_snapshots DATA_DIR parse_csv d =
       (Ok table, skipped_messages DATA_DIR parse_csv (glob "_snapshots.csv" d)) ∧
     (rows table).*2 = (parsed_frames parse_csv (glob "_snapshots.csv" d) ≫= rows).*2 ∧
     (parsed_frames parse_csv (glob "_snapshots.csv" d) = [] → table = empty_frame)) ∧
  (∀ name f e,
     (name, f) ∈ glob "_captures.csv" d → read_csv parse_csv f = Raise e →
     "Error loading " +:+ DATA_DIR +:+ "/" +:+ name +:+ ": " +:+ exn_message e
       ∈ (load_all_captures DATA_DIR parse_csv d).2) ∧
  (∀ name f e,
     (name, f) ∈ glob "_snapshots.csv" d → read_csv parse_csv f = Raise e →
     "Error loading " +:+ DATA_DIR +:+ "/" +:+ name +:+ ": " +:+ exn_message e
       ∈ (load_all_snapshots DATA_DIR parse_csv d).2) ∧
  (∀ name f df,
     (name, f) ∈ glob "_captures.csv" d → read_csv parse_csv f = Ok df →
     df ∈ parsed_frames parse_csv (glob "_captures.csv" d)) ∧
  (∀ name f df,
     (name, f) ∈ glob "_snapshots.csv" d → read_csv parse_csv f = Ok df →
     df ∈ parsed_frames parse_csv (glob "_snapshots.csv" d)).
Proof.
  unfold load_all_captures, load_all_snapshots. rewrite !read_frames_eq. simpl.
  rewrite !concat_or_empty_Ok. split_and!.
  - eexists. split_and!; [done | | by intros ->].
    destruct (parsed_frames parse_csv (glob "_captures.csv" d)) eqn:E; [done |].
    simpl rows at 1. apply (imap_snd_rows _ id).
  - eexists. split_and!; [done | | by intros ->].
    destruct (parsed_frames parse_csv (glob "_snapshots.csv" d)) eqn:E; [done |].
    simpl rows at 1. apply (imap_snd_rows _ id).
  - intros name f e. apply skipped_messages_elem.
  - intros name f e. apply skipped_messages_elem.
  - intros name f df. apply parsed_frames_elem.
  - intros name f df. apply parsed_frames_elem.
Qed.

Lemma csv_loaders_skip_and_continue_witness :
  "Error loading Assets/ExperimentData/a_captures.csv: Error tokenizing data"
    ∈ (load_all_captures "Assets/ExperimentData"
         (λ c, if decide (c = "ok") then Ok (mkFrame ["condition"] [])
               else Raise (ParserError "Error tokenizing data"))
         [("a_captures.csv", Text "?"); ("b_captures.csv", Text "ok")]).2.
Proof.
  destruct (csv_loaders_skip_and_continue "Assets/ExperimentData"
              (λ c, if decide (c = "ok") then Ok (mkFrame ["condition"] [])
                    else Raise (ParserError "Error tokenizing data"))
              [("a_captures.csv", Text "?"); ("b_captures.csv", Text "ok")])
    as (_ & _ & Hline & _).
  apply (Hline "a_captures.csv" (Text "?") (ParserError "Error tokenizing data")).
  - vm_compute. apply list_elem_of_here.
  - reflexivity.
Defined.

Example csv_loader_partial_success :
  let parse := λ c : string, if decide (c = "ok") then Ok (mkFrame ["condition"]
                 [(0%nat, {["condition" := CStr "A1"]})]) else Raise (ParserError "bad") in
  load_all_captures "data" parse
    [("a_captures.csv", Text "??"); ("b_captures.csv", Text "ok");
     ("c_captures.csv", Unreadable (OSError "denied"))] =
  (Ok (mkFrame ["condition"] [(0%nat, {["condition" := CStr "A1"]})]),
   ["Error loading data/a_captures.csv: bad"; "Error loading data/c_captures.csv: denied"]).
Proof. reflexivity. Qed.

(** C9.  When no file of the directory matches any of the three patterns,
    the three loaders return the empty table, none of them raises, and the
    coercion stage of the summary loader returns the table without columns
    as it is. *)
Theorem empty_directory_loads_empty (DATA_DIR : string)
    (parse_csv : string → result DataFrame) (d : directory) :
  glob "_summary.txt" d = [] →
  glob "_captures.csv" d = [] →
  glob "_snapshots.csv" d = [] →
  load_all_summaries d = Ok empty_frame ∧
  load_all_captures DATA_DIR parse_csv d = (Ok empty_frame, []) ∧
  load_all_snapshots DATA_DIR parse_csv d = (Ok empty_frame, []) ∧
  coerce_summaries (frame_of_dicts []) = Ok empty_frame ∧
  columns empty_frame = [] ∧ rows empty_frame = [].
Proof.
  intros Hs Hc Hn. unfold load_all_summaries, load_all_captures, load_all_snapshots.
  rewrite Hs, Hc, Hn. done.
Qed.

Lemma empty_directory_loads_empty_witness :
  load_all_summaries [("notes.txt", Text "nothing")] = Ok empty_frame ∧
  load_all_captures "data" (λ _, Raise (ParserError "no data"))
    [("notes.txt", Text "nothing")] = (Ok empty_frame, []).
Proof.
  destruct (empty_directory_loads_empty "data" (λ _, Raise (ParserError "no data"))
              [("notes.txt", Text "nothing")]) as (H1 & H2 & _);
    [reflexivity | reflexivity | reflexivity |].
  split; [exact H1 | exact H2].
Defined.

Lemma unreadable_summary_raises (acc : list dict) (files : directory) name e :
  (name, Unreadable e) ∈ files → ∃ e', collect_summaries acc files = Raise e'.
Proof.
  revert acc. induction files as [|[name' f] files IH]; intros acc Hin.
  - by apply elem_of_nil in Hin.
  - apply elem_of_cons in Hin as [[= <- <-]|Hin]; simpl.
    + by exists e.
    + destruct (read_lines f) as [lines|e0]; simpl; [| by exists e0].
      rewrite summary_lines_fold. simpl. by apply IH.
Qed.

(** C7.  The summary loader does not survive an unreadable artifact: on a
    directory whose first summary cannot be opened and whose second one is
    well formed, [load_all_summaries] raises and returns no table, although
    the second summary alone loads as one run; the CSV loaders on files in
    the same state skip the unreadable file and load the other. *)
Theorem unreadable_summary_aborts_batch :
  load_all_summaries broken_directory = Raise (OSError "Permission denied") ∧
  (∃ df, load_all_summaries (tail broken_directory) = Ok df ∧ length (rows df) = 1%nat) ∧
  (∀ DATA_DIR parse_csv df,
     parse_csv sample_captures = Ok df →
     load_all_captures DATA_DIR parse_csv
       [("A1_captures.csv", Unreadable (OSError "Permission denied"));
        ("B1_captures.csv", Text sample_captures)] =
     (concat [df], ["Error loading " +:+ path_of DATA_DIR "A1_captures.csv" +:+ ": "
                      +:+ "Permission denied"])).
Proof.
  split_and!.
  - reflexivity.
  - eexists. split; [by vm_compute | reflexivity].
  - intros DATA_DIR parse_csv df Hdf. unfold load_all_captures.
    assert (glob "_captures.csv"
              [("A1_captures.csv", Unreadable (OSError "Permission denied"));
               ("B1_captures.csv", Text sample_captures)] =
            [("A1_captures.csv", Unreadable (OSError "Permission denied"));
             ("B1_captures.csv", Text sample_captures)]) as -> by reflexivity.
    simpl. by rewrite Hdf.
Qed.
(* ===================================================================== *)
(** ** Differences within groups *)
(* ===================================================================== *)

Section GroupDiff.

Lemma diff_from_length prev vs : length (diff_from prev vs) = length vs.
Proof. revert prev. induction vs; intros prev; simpl; by f_equal. Qed.

Lemma diff_from_lookup prev vs i t0 t1 :
  vs !! i = Some t0 → vs !! S i = Some t1 →
  diff_from prev vs !! S i = Some (cell_sub t1 t0).
Proof.
  revert prev i. induction vs as [|v vs IH]; intros prev i; [done |].
  destruct i as [|i]; simpl.
  - intros [= ->]. destruct vs as [|w vs]; [done |]. by intros [= ->].
  - intros H0 H1. by apply (IH (Some v) i).
Qed.

Lemma series_diff_first vs t : vs !! 0%nat = Some t → series_diff vs !! 0%nat = Some CNaN.
Proof. by destruct vs. Qed.

Lemma diff_go_length last l : length (diff_go last l) = length l.
Proof.
  revert last. induction l as [|[k v] l IH]; intros last; [done |].
  destruct k; simpl; by rewrite IH.
Qed.

Variables key col new : string.
Hypothesis new_not_key : new ≠ key.

Local Abbreviation pairs :=
  (fmap (M := list) (λ r : nat * gmap string cell, (cell_at key r.2, cell_at col r.2))).

Local Abbreviation assign :=
  (zip_with (λ (r : nat * gmap string cell) (v : cell), (r.1, <[new := v]> r.2))).

Lemma cell_at_insert_eq (r : gmap string cell) v : cell_at new (<[new := v]> r) = v.
Proof. unfold cell_at. by rewrite lookup_insert_eq. Qed.

Lemma cell_at_insert_ne c (r : gmap string cell) v :
  c ≠ new → cell_at c (<[new := v]> r) = cell_at c r.
Proof. intros H. unfold cell_at. by rewrite lookup_insert_ne. Qed.

(** The differences assigned to the rows of one group are the successive
    differences of the values of that group. *)
Lemma diff_go_group rs last k :
  k ≠ CNaN →
  cells new (filter (λ r, cell_at key r.2 = k) (assign rs (diff_go last (pairs rs)))) =
  diff_from (last k) (cells col (filter (λ r, cell_at key r.2 = k) rs)).
Proof.
  intros Hk. revert last. induction rs as [|[i r] rs IH]; intros last; [done |].
  unfold cells in *. simpl.
  destruct (cell_at key r) as [s|q|] eqn:Hkey; simpl.
  - rewrite !filter_cons. simpl. rewrite cell_at_insert_ne by done. rewrite Hkey.
    destruct (decide (CStr s = k)) as [<-|Hne]; simpl.
    + rewrite cell_at_insert_eq. f_equal. rewrite IH. by rewrite decide_True.
    + rewrite IH. by rewrite decide_False by done.
  - rewrite !filter_cons. simpl. rewrite cell_at_insert_ne by done. rewrite Hkey.
    destruct (decide (CNum q = k)) as [<-|Hne]; simpl.
    + rewrite cell_at_insert_eq. f_equal. rewrite IH. by rewrite decide_True.
    + rewrite IH. by rewrite decide_False by done.
  - rewrite !filter_cons. simpl. rewrite cell_at_insert_ne by done. rewrite Hkey.
    rewrite !decide_False by done. apply IH.
Qed.

Lemma getitem_pairs df ks vs :
  getitem key df = Ok ks → getitem col df = Ok vs → zip ks vs = pairs (rows df).
Proof.
  unfold getitem. repeat case_decide; try done. intros [= <-] [= <-].
  induction (rows df) as [|r rs IH]; simpl; by f_equal.
Qed.

Lemma assign_same_rows rs vals i r :
  length vals = length rs → rs !! i = Some r →
  ∃ v, vals !! i = Some v ∧ assign rs vals !! i = Some (r.1, <[new := v]> r.2).
Proof.
  intros Hlen Hr. destruct (lookup_lt_is_Some_2 vals i) as [v Hv].
  { rewrite Hlen. by eapply lookup_lt_Some. }
  exists v. split; [done |]. by rewrite lookup_zip_with, Hr, Hv.
Qed.

Lemma assign_index rs vals : length vals = length rs → (assign rs vals).*1 = rs.*1.
Proof.
  revert vals. induction rs as [|r rs IH]; intros [|v vals]; try done.
  simpl. intros [= H]. f_equal. by apply IH.
Qed.

End GroupDiff.

(** C3.  For every capture table that has the columns [condition] and
    [time_sec], the latter without text: the column of differences is
    computed, has one entry per row, and is assigned to the rows in their
    order; within the rows of each condition, taken in row order, the first
    row has the missing value NaN and every later row has its [time_sec]
    minus the [time_sec] of the row before it in that condition. *)
Theorem time_diff_per_condition (captures : DataFrame) :
  "condition" ∈ columns captures →
  "time_sec" ∈ columns captures →
  existsb is_str (cells "time_sec" (rows captures)) = false →
  ∃ diffs,
    groupby_diff "condition" "time_sec" captures = Ok diffs ∧
    length diffs = length (rows captures) ∧
    let derived := setitem "time_diff" diffs captures in
    (∀ i r, rows captures !! i = Some r →
       ∃ v, diffs !! i = Some v ∧
            rows derived !! i = Some (r.1, <["time_diff" := v]> r.2)) ∧
    ∀ k, k ≠ CNaN →
      let times := cells "time_sec" (group_of "condition" k captures) in
      let deltas := cells "time_diff" (group_of "condition" k derived) in
      deltas = series_diff times ∧
      length deltas = length times ∧
      (∀ t, times !! 0%nat = Some t → deltas !! 0%nat = Some CNaN) ∧
      (∀ i t0 t1, times !! i = Some t0 → times !! S i = Some t1 →
         deltas !! S i = Some (cell_sub t1 t0)).
Proof.
  intros Hc Ht Hnum.
  destruct (getitem "condition" captures) as [ks|] eqn:Hks;
    [| unfold getitem in Hks; by rewrite decide_True in Hks].
  destruct (getitem "time_sec" captures) as [vs|] eqn:Hvs;
    [| unfold getitem in Hvs; by rewrite decide_True in Hvs].
  assert (vs = cells "time_sec" (rows captures)) as Hvs'.
  { unfold getitem in Hvs. rewrite decide_True in Hvs by done. by injection Hvs as <-. }
  pose proof (getitem_pairs "condition" "time_sec" _ _ _ Hks Hvs) as Hpairs.
  unfold groupby_diff. rewrite Hks, Hvs. simpl. rewrite Hvs', Hnum, <- Hvs', Hpairs.
  eexists. split; [done |].
  assert (length (diff_go (λ _, None)
            ((λ r : nat * gmap string cell,
                (cell_at "condition" r.2, cell_at "time_sec" r.2)) <$> rows captures)) =
          length (rows captures)) as Hlen.
  { by rewrite diff_go_length, length_fmap. }
  split; [done |]. split.
  - intros i r Hr. by apply assign_same_rows.
  - intros k Hk.
    assert (cells "time_diff"
              (group_of "condition" k
                 (setitem "time_diff"
                    (diff_go (λ _, None)
                       ((λ r : nat * gmap string cell,
                           (cell_at "condition" r.2, cell_at "time_sec" r.2))
                          <$> rows captures)) captures)) =
            series_diff (cells "time_sec" (group_of "condition" k captures))) as Heq.
    { unfold group_of, setitem. simpl.
      by rewrite (diff_go_group "condition" "time_sec" "time_diff"). }
    simpl. rewrite Heq. split_and!; [done | apply diff_from_length | |].
    + apply series_diff_first.
    + intros i t0 t1. apply diff_from_lookup.
Qed.

Lemma time_diff_per_condition_witness :
  ∃ diffs,
    groupby_diff "condition" "time_sec" sample_capture_table = Ok diffs ∧
    cells "time_sec" (group_of "condition" (CStr "A1") sample_capture_table) =
      [CNum 2; CNum 5; CNum 9] ∧
    cells "time_diff"
      (group_of "condition" (CStr "A1") (setitem "time_diff" diffs sample_capture_table)) =
      [CNaN; CNum 3; CNum 4].
Proof.
  destruct (time_diff_per_condition sample_capture_table) as (diffs & Hd & _ & _ & H).
  - repeat constructor.
  - repeat constructor.
  - reflexivity.
  - exists diffs. split; [exact Hd |]. split; [reflexivity |].
    destruct (H (CStr "A1")) as [Heq _]; [discriminate |].
    simpl in Heq. rewrite Heq. reflexivity.
Defined.
(* ===================================================================== *)
(** ** The heap *)
(* ===================================================================== *)

Section Heap.

Lemma bind_Ok {A B} (m : M A) (f : A → M B) h b h2 :
  (m ≫= f) h = Ok (b, h2) → ∃ a h1, m h = Ok (a, h1) ∧ f a h1 = Ok (b, h2).
Proof.
  unfold mbind, M_bind. destruct (m h) as [[a h1]|e]; [| done]. by exists a, h1.
Qed.

Lemma lift_Ok {A} (r : result A) h a h' : lift r h = Ok (a, h') → r = Ok a ∧ h' = h.
Proof. destruct r; simpl; [by intros [= -> ->] | done]. Qed.

Lemma load_Ok l h df h' : load l h = Ok (df, h') → h !! l = Some df ∧ h' = h.
Proof. unfold load. destruct (h !! l); [by intros [= -> ->] | done]. Qed.

Lemma result_bind_Ok {A B} (a : A) (f : A → result B) : Ok a ≫= f = f a.
Proof. reflexivity. Qed.

Lemma run_bind {A B} (m : M A) (f : A → M B) h :
  (m ≫= f) h = match m h with Ok (a, h') => f a h' | Raise e => Raise e end.
Proof. reflexivity. Qed.

Lemma run_lift {A} (r : result A) h :
  lift r h = match r with Ok a => Ok (a, h) | Raise e => Raise e end.
Proof. reflexivity. Qed.

Lemma run_load l h df : h !! l = Some df → load l h = Ok (df, h).
Proof. intros H. unfold load. by rewrite H. Qed.

Lemma extends_ret {A} (a : A) : extends (mret a).
Proof. intros h a' h' [= _ <-]. exists []. by rewrite app_nil_r. Qed.

Lemma extends_lift {A} (r : result A) : extends (lift r).
Proof. intros h a h' [_ ->]%lift_Ok. exists []. by rewrite app_nil_r. Qed.

Lemma extends_load l : extends (load l).
Proof. intros h a h' [_ ->]%load_Ok. exists []. by rewrite app_nil_r. Qed.

Lemma extends_new df : extends (new df).
Proof. intros h a h' [= _ <-]. by exists [df]. Qed.

Lemma extends_bind {A B} (m : M A) (f : A → M B) :
  extends m → (∀ a, extends (f a)) → extends (m ≫= f).
Proof.
  intros Hm Hf h b h2 (a & h1 & H1 & H2)%bind_Ok.
  destruct (Hm _ _ _ H1) as [k1 ->]. destruct (Hf _ _ _ _ H2) as [k2 ->].
  exists (k1 ++ k2). by rewrite app_assoc.
Qed.

Lemma extends_lookup (h k : list DataFrame) l df :
  h !! l = Some df → (h ++ k) !! l = Some df.
Proof. apply lookup_app_l_Some. Qed.

End Heap.

(* ===================================================================== *)
(** ** [plot_confusion_effect] *)
(* ===================================================================== *)

Section ConfusionEffect.

Variable polyfit : list cell → list cell → result (cell * cell).

(** The function as a computation on the value of the caller's table:
    the only change to the heap is one new object, the copy with its
    added column. *)
Lemma plot_confusion_effect_eq l h captures :
  h !! l = Some captures →
  plot_confusion_effect polyfit l h =
  (diffs ← groupby_diff "condition" "time_sec" captures;
   let derived := setitem "time_diff" diffs captures in
   view ← getitem "boids_in_view" derived;
   _ ← median_defined view;
   valid ← dropna "time_diff" derived;
   x ← getitem "boids_in_view" valid;
   y ← getitem "time_diff" valid;
   line ← trend_line polyfit valid;
   Ok (mkConfusionPlot view x y line, h ++ [derived])).
Proof.
  intros Hl. unfold plot_confusion_effect, copy.
  rewrite !run_bind, (run_load _ _ _ Hl). unfold new at 1.
  rewrite run_bind, (run_load _ (h ++ [captures]) captures)
    by (by apply list_lookup_middle).
  rewrite run_bind, run_lift.
  destruct (groupby_diff "condition" "time_sec" captures) as [diffs|e]; [| reflexivity].
  rewrite result_bind_Ok.
  rewrite run_bind. unfold store at 1.
  rewrite (insert_app_r_alt h) by done. rewrite Nat.sub_diag.
  change (<[0%nat:=?x]> [captures]) with [x].
  rewrite run_bind, (run_load _ _ (setitem "time_diff" diffs captures))
    by (by apply list_lookup_middle).
  rewrite run_bind, run_lift. simpl mbind at 1.
  destruct (getitem "boids_in_view" _) as [view|e]; [| reflexivity].
  rewrite result_bind_Ok.
  rewrite run_bind, run_lift. simpl mbind at 1.
  destruct (median_defined view) as [u|e]; [| reflexivity].
  rewrite result_bind_Ok.
  rewrite run_bind, run_lift. simpl mbind at 1.
  destruct (dropna "time_diff" _) as [valid|e]; [| reflexivity].
  rewrite result_bind_Ok.
  rewrite run_bind, run_lift. simpl mbind at 1.
  destruct (getitem "boids_in_view" valid) as [x|e]; [| reflexivity].
  rewrite result_bind_Ok.
  rewrite run_bind, run_lift. simpl mbind at 1.
  destruct (getitem "time_diff" valid) as [y|e]; [| reflexivity].
  rewrite result_bind_Ok.
  rewrite run_bind, run_lift. simpl mbind at 1.
  destruct (trend_line polyfit valid) as [line|e]; reflexivity.
Qed.

Lemma plot_confusion_effect_Ok l h captures plot h' :
  h !! l = Some captures →
  plot_confusion_effect polyfit l h = Ok (plot, h') →
  ∃ diffs, groupby_diff "condition" "time_sec" captures = Ok diffs ∧
           h' = h ++ [setitem "time_diff" diffs captures].
Proof.
  intros Hl. rewrite (plot_confusion_effect_eq _ _ _ Hl).
  destruct (groupby_diff _ _ _) as [diffs|]; [| done]. simpl.
  destruct (getitem "boids_in_view" _) as [view|]; [| done]. simpl.
  destruct (median_defined view); [| done]. simpl.
  destruct (dropna _ _) as [valid|]; [| done]. simpl.
  destruct (getitem "boids_in_view" valid); [| done]. simpl.
  destruct (getitem "time_diff" valid); [| done]. simpl.
  destruct (trend_line polyfit valid); [| done]. simpl.
  intros [= _ <-]. by exists diffs.
Qed.

Lemma extends_plot_confusion_effect l : extends (plot_confusion_effect polyfit l).
Proof.
  intros h plot h' H. destruct (h !! l) as [captures|] eqn:Hl.
  - destruct (plot_confusion_effect_Ok _ _ _ _ _ Hl H) as (diffs & _ & ->). by eexists.
  - unfold plot_confusion_effect, copy in H. rewrite !run_bind in H.
    unfold load at 1 in H. by rewrite Hl in H.
Qed.

End ConfusionEffect.

Section ConfusionEffectFacts.

Lemma getitem_Ok col df : col ∈ columns df → getitem col df = Ok (cells col (rows df)).
Proof. intros H. unfold getitem. by rewrite decide_True. Qed.

Lemma groupby_diff_Ok key col df :
  key ∈ columns df → col ∈ columns df →
  existsb is_str (cells col (rows df)) = false →
  groupby_diff key col df =
  Ok (diff_go (λ _, None)
        ((λ r : nat * gmap string cell, (cell_at key r.2, cell_at col r.2)) <$> rows df)).
Proof.
  intros Hk Hc Hnum. unfold groupby_diff.
  rewrite (getitem_Ok key), (getitem_Ok col) by done. simpl. rewrite Hnum.
  do 2 f_equal. apply getitem_pairs; by apply getitem_Ok.
Qed.

Lemma cells_length col rs : length (cells col rs) = length rs.
Proof. unfold cells. by rewrite !length_fmap. Qed.

(** Assigning a column of full length keeps the cells of every other
    column. *)
Lemma setitem_other_cells new vals df col :
  col ≠ new → length vals = length (rows df) →
  cells col (rows (setitem new vals df)) = cells col (rows df).
Proof.
  intros Hne. unfold setitem, cells. simpl. generalize (rows df). clear df.
  intros rs. revert vals. induction rs as [|r rs IH]; intros [|v vals] Hlen; try done.
  simpl in *. rewrite cell_at_insert_ne by done. f_equal. apply IH. lia.
Qed.

Lemma median_defined_Ok vals : existsb is_str vals = false → median_defined vals = Ok ().
Proof. intros H. unfold median_defined. by rewrite H. Qed.

Lemma setitem_columns col vals df c :
  c ∈ columns (setitem col vals df) ↔ c ∈ columns df ∨ c = col.
Proof. apply add_column_elem. Qed.

End ConfusionEffectFacts.



Example trend_line_skipped :
  ∀ polyfit,
    value (plot_confusion_effect polyfit 0%nat
             [mkFrame ["condition"; "time_sec"; "boids_in_view"]
                [(0%nat, capture_row "A1" 2 6); (1%nat, capture_row "B1" 1 3);
                 (2%nat, capture_row "A1" 5 4); (3%nat, capture_row "B1" 4 2)]]) =
    Ok (mkConfusionPlot [CNum 6; CNum 3; CNum 4; CNum 2] [CNum 4; CNum 2]
          [CNum 3; CNum 3] None).
Proof. reflexivity. Qed.

(** A count recorded as text stops the plot at the median of the
    histogram, before the guard on the number of points. *)
Example confusion_effect_text_view :
  ∀ polyfit,
    value (plot_confusion_effect polyfit 0%nat
             [mkFrame ["condition"; "time_sec"; "boids_in_view"]
                [(0%nat, capture_row "A1" 2 6);
                 (1%nat, <["boids_in_view" := CStr "unknown"]> (capture_row "A1" 5 4))]]) =
    Raise (TypeError "could not convert string to float").
Proof. reflexivity. Qed.

Section MainFacts.

Variable DATA_DIR : string.
Variable parse_csv : string → result DataFrame.
Variable polyfit : list cell → list cell → result (cell * cell).

Ltac solve_extends :=
  repeat first
    [ apply extends_load | apply extends_lift | apply extends_ret | apply extends_new
    | apply extends_plot_confusion_effect
    | apply extends_bind; [| intros ?] ].

Lemma extends_print_summary_table l : extends (print_summary_table l).
Proof. unfold print_summary_table. solve_extends. Qed.

Lemma extends_plot_condition_comparison l : extends (plot_condition_comparison l).
Proof. unfold plot_condition_comparison. solve_extends. Qed.

Lemma extends_plot_predation_timeline l : extends (plot_predation_timeline l).
Proof. unfold plot_predation_timeline. solve_extends. Qed.

Lemma extends_plot_experiment_groups l : extends (plot_experiment_groups l).
Proof. unfold plot_experiment_groups. solve_extends. Qed.

Lemma write_analysis_report_value s l h summaries captures :
  h !! s = Some summaries → h !! l = Some captures →
  value (write_analysis_report s l h) = analysis_report summaries captures.
Proof.
  intros Hs Hl. unfold write_analysis_report.
  rewrite run_bind, (run_load _ _ _ Hs), run_bind, (run_load _ _ _ Hl), run_lift.
  by destruct (analysis_report summaries captures).
Qed.

(** The report of a complete run is the report of the tables as the
    loaders returned them. *)
Lemma main_report d report hf :
  main DATA_DIR parse_csv polyfit d [] = Ok (report, hf) →
  ∃ summaries loaded,
    load_all_summaries d = Ok summaries ∧
    (load_all_captures DATA_DIR parse_csv d).1 = Ok loaded ∧
    analysis_report summaries loaded = Ok report.
Proof.
  unfold main. intros H.
  apply bind_Ok in H as (s & h1 & H1 & H).
  apply bind_Ok in H1 as (sdf & h0 & Hs & Hnew).
  apply lift_Ok in Hs as [Hs ->]. injection Hnew as <- <-.
  apply bind_Ok in H as (c & h2 & H2 & H).
  apply bind_Ok in H2 as (cdf & h0 & Hc & Hnew).
  apply lift_Ok in Hc as [Hc ->]. injection Hnew as <- <-.
  apply bind_Ok in H as (n & h3 & H3 & H).
  apply bind_Ok in H3 as (ndf & h0 & Hn & Hnew).
  apply lift_Ok in Hn as [Hn ->]. injection Hnew as <- <-.
  apply bind_Ok in H as (conds & h4 & H4 & H).
  assert (extends (load 0%nat ≫= λ df, lift (getitem "Condition" df))) as E4
    by solve_extends.
  apply E4 in H4 as [k4 ->].
  apply bind_Ok in H as (u5 & h5 & H5 & H). apply lift_Ok in H5 as [_ ->].
  apply bind_Ok in H as (u6 & h6 & H6 & H).
  apply extends_print_summary_table in H6 as [k6 ->].
  apply bind_Ok in H as (u7 & h7 & H7 & H).
  apply extends_plot_condition_comparison in H7 as [k7 ->].
  apply bind_Ok in H as (u8 & h8 & H8 & H).
  apply extends_plot_predation_timeline in H8 as [k8 ->].
  apply bind_Ok in H as (u9 & h9 & H9 & H).
  apply extends_plot_confusion_effect in H9 as [k9 ->].
  apply bind_Ok in H as (u10 & h10 & H10 & H).
  apply extends_plot_experiment_groups in H10 as [k10 ->].
  exists sdf, cdf. split_and!; [done | done |].
  simpl in H. rewrite <- !app_assoc in H. simpl in H.
  erewrite <- write_analysis_report_value; [by rewrite H | done | done].
Qed.

End MainFacts.

(** C10.  [plot_confusion_effect] works on a copy: when it returns, the
    object the caller passed is unchanged (so it has gained no column and
    none of its rows or columns differ), every other object is unchanged,
    and the one new object is the copy that carries the column
    [time_diff]; a report written afterwards from the same reference is the
    report of the unchanged table, and the report of a complete run of
    [main] is the report of the capture table as the loader returned it. *)
Theorem confusion_effect_leaves_table
    (polyfit : list cell → list cell → result (cell * cell))
    (h h' : heap) (l : ref) (captures : DataFrame) (plot : ConfusionPlot) :
  h !! l = Some captures →
  plot_confusion_effect polyfit l h = Ok (plot, h') →
  h' !! l = Some captures ∧
  (∀ l0 df, h !! l0 = Some df → h' !! l0 = Some df) ∧
  (∃ diffs,
     groupby_diff "condition" "time_sec" captures = Ok diffs ∧
     h' = h ++ [setitem "time_diff" diffs captures] ∧
     "time_diff" ∈ columns (setitem "time_diff" diffs captures)) ∧
  (∀ s summaries,
     h !! s = Some summaries →
     value (write_analysis_report s l h') = analysis_report summaries captures ∧
     value (write_analysis_report s l h') = value (write_analysis_report s l h)) ∧
  (∀ DATA_DIR parse_csv d report hf,
     main DATA_DIR parse_csv polyfit d [] = Ok (report, hf) →
     ∃ summaries loaded,
       load_all_summaries d = Ok summaries ∧
       (load_all_captures DATA_DIR parse_csv d).1 = Ok loaded ∧
       analysis_report summaries loaded = Ok report).
Proof.
  intros Hl Hrun.
  destruct (plot_confusion_effect_Ok _ _ _ _ _ _ Hl Hrun) as (diffs & Hd & ->).
  split_and!.
  - by apply extends_lookup.
  - intros l0 df. apply extends_lookup.
  - exists diffs. split_and!; [done | done |]. apply setitem_columns. by right.
  - intros s summaries Hs.
    rewrite (write_analysis_report_value s l (h ++ _) summaries captures)
      by (by apply extends_lookup).
    by rewrite (write_analysis_report_value s l h summaries captures).
  - intros DATA_DIR parse_csv d report hf. apply main_report.
Qed.

Lemma confusion_effect_leaves_table_witness :
  ∃ plot h',
    plot_confusion_effect sample_polyfit 0%nat [sample_capture_table] = Ok (plot, h') ∧
    h' !! 0%nat = Some sample_capture_table ∧
    "time_diff" ∉ columns sample_capture_table.
Proof.
  destruct (plot_confusion_effect sample_polyfit 0%nat [sample_capture_table])
    as [[plot h']|e] eqn:Hrun; [| discriminate Hrun].
  exists plot, h'. split; [reflexivity |].
  destruct (confusion_effect_leaves_table sample_polyfit [sample_capture_table] h' 0%nat
              sample_capture_table plot eq_refl Hrun) as [Hsame _].
  split; [exact Hsame |].
  intros Hin. repeat (apply elem_of_cons in Hin as [Hin|Hin]; [discriminate Hin |]).
  by apply elem_of_nil in Hin.
Defined.

Example main_sample_run :
  ∃ report,
    value (main "data" sample_parse_csv sample_polyfit sample_runs []) = Ok report ∧
    table report =
      [[CStr "A1"; CNum 50; CNum (3 # 2); CNum 4; CNum 60];
       [CStr "A2"; CNum 50; CNum (3 # 2); CNum 6; CNum 60];
       [CStr "B1"; CNum 50; CNum (3 # 2); CNum 2; CNum 60]] ∧
    cell_at "Condition" (fastest report) = CStr "A2" ∧
    cell_at "Condition" (slowest report) = CStr "B1".
Proof. eexists. split; [by vm_compute |]. split_and!; reflexivity. Qed.
(* ===================================================================== *)
(** ** Sorting *)
(* ===================================================================== *)

Section Sorting.

Global Instance num_le_total : Total num_le.
Proof. intros [p|[]] [q|[]]; simpl; try tauto. lia. Qed.

Global Instance num_le_trans : Transitive num_le.
Proof.
  intros [p|[]] [q|[]] [r|[]]; simpl; try tauto.
  intros H1 H2. apply (Qle_trans p q r H1 H2).
Qed.

Lemma num_le_Fin (p q : Q) : num_le p q ↔ (p <= q)%Q.
Proof. done. Qed.

Lemma num_leb_le a b : num_leb a b = true ↔ num_le a b.
Proof. apply bool_decide_eq_true. Qed.

Lemma num_leb_total a b : num_leb a b = true ∨ num_leb b a = true.
Proof. rewrite !num_leb_le. apply (total num_le). Qed.

Lemma num_leb_trans a b c : num_leb a b = true → num_leb b c = true → num_leb a c = true.
Proof. rewrite !num_leb_le. apply (transitivity (R := num_le)). Qed.

Lemma num_leb_beyond q c : negb (num_leb q c) = true → num_lt c q.
Proof.
  intros H Hle. apply num_leb_le in Hle. by rewrite Hle in H.
Qed.

Global Instance cell_le_total : Total cell_le.
Proof.
  intros [s|p|] [t|q|]; simpl; try tauto.
  - apply (total String.le).
  - apply (total num_le).
Qed.

Global Instance cell_le_trans : Transitive cell_le.
Proof.
  intros [s|p|] [t|q|] [u|r|]; simpl; try tauto.
  - apply (transitivity (R := String.le)).
  - apply (transitivity (R := num_le)).
Qed.

Lemma insert_by_Permutation {A} (R : relation A) `{!RelDecision R} x l :
  insert_by R x l ≡ₚ x :: l.
Proof.
  induction l as [|y l IH]; simpl; [done |].
  case_decide; [done |]. by rewrite IH, Permutation_swap.
Qed.

Lemma stable_sort_Permutation {A} (R : relation A) `{!RelDecision R} l :
  stable_sort R l ≡ₚ l.
Proof.
  induction l as [|x l IH]; [done |].
  unfold stable_sort in *. simpl. by rewrite insert_by_Permutation, IH.
Qed.

Lemma StronglySorted_insert_by {A} (R : relation A)
    `{!RelDecision R, !Transitive R, !Total R} x l :
  StronglySorted R l → StronglySorted R (insert_by R x l).
Proof.
  induction 1 as [|y l Hs IH Hall]; simpl.
  - repeat constructor.
  - case_decide as Hxy.
    + constructor; [by constructor |]. constructor; [done |].
      eapply Forall_impl; [exact Hall |]. intros z Hz. by transitivity y.
    + constructor; [done |]. rewrite insert_by_Permutation. constructor; [| done].
      by destruct (total R x y).
Qed.

Lemma StronglySorted_stable_sort {A} (R : relation A)
    `{!RelDecision R, !Transitive R, !Total R} l :
  StronglySorted R (stable_sort R l).
Proof.
  induction l as [|x l IH]; [constructor |].
  unfold stable_sort in *. simpl. by apply StronglySorted_insert_by.
Qed.

(** Rows that compare equal keep their order: an element stays ahead of
    every later element that is not below it. *)
Lemma insert_by_head {A} (R : relation A) `{!RelDecision R} x l :
  Forall (R x) l → insert_by R x l = x :: l.
Proof. destruct l as [|y l]; [done |]. intros [Hy _]%Forall_cons. simpl. by rewrite decide_True. Qed.

Global Instance row_le_total col : Total (row_le col).
Proof. intros r1 r2. apply (total cell_le). Qed.

Global Instance row_le_trans col : Transitive (row_le col).
Proof. intros r1 r2 r3. apply (transitivity (R := cell_le)). Qed.

Lemma sort_values_Ok col df :
  col ∈ columns df →
  existsb is_num (cells col (rows df)) = false →
  sort_values col df = Ok (mkFrame (columns df) (stable_sort (row_le col) (rows df))).
Proof.
  intros Hc Hn. unfold sort_values. rewrite (getitem_Ok _ _ Hc), result_bind_Ok.
  by rewrite Hn, andb_false_r.
Qed.

Lemma mapM_Ok {A B} (f : A → result B) (g : A → B) (l : list A) :
  (∀ x, x ∈ l → f x = Ok (g x)) → mapM f l = Ok (g <$> l).
Proof.
  induction l as [|x l IH]; intros H; [done |].
  simpl. rewrite (H x) by left. rewrite result_bind_Ok.
  rewrite IH by (intros; apply H; by right). done.
Qed.

Lemma existsb_false {A} (p : A → bool) (l : list A) :
  existsb p l = false ↔ ∀ x, x ∈ l → p x = false.
Proof.
  induction l as [|y l IH]; simpl.
  - split; [intros _ x Hx; by apply elem_of_nil in Hx | done].
  - rewrite orb_false_iff, IH. split.
    + intros [Hy Hl] x [->|Hx]%elem_of_cons; auto.
    + intros H. split; [apply H; by left | intros x Hx; apply H; by right].
Qed.

End Sorting.
(* ===================================================================== *)
(** ** The table of run records *)
(* ===================================================================== *)

Section RunRecords.

Lemma imap_index {A B} (f : A → B) (l : list A) (n : nat) :
  (imap (λ i x, (n + i, f x)%nat) l).*1 = seq n (length l).
Proof.
  revert n. induction l as [|x l IH]; intros n; [done |].
  simpl. rewrite Nat.add_0_r. f_equal. rewrite <- (IH (S n)).
  f_equal. apply imap_ext. intros i y _. simpl. f_equal. lia.
Qed.

Lemma frame_of_dicts_index ds :
  (rows (frame_of_dicts ds)).*1 = seq 0 (length ds).
Proof. apply (imap_index row_of_dict ds 0). Qed.

Lemma Forall2_same_index {A} (P : nat * A → nat * A → Prop) (l k : list (nat * A)) :
  Forall2 (λ r r', r'.1 = r.1 ∧ P r r') l k → k.*1 = l.*1.
Proof. induction 1 as [|r r' l k [Hi _] _ IH]; [done |]. by rewrite !fmap_cons, Hi, IH. Qed.

(** The rows of the loaded table are the records parsed, in order, under
    the index 0, 1, ... *)
Lemma load_all_summaries_rows d df :
  load_all_summaries d = Ok df →
  ∃ ds, collect_summaries [] (glob "_summary.txt" d) = Ok ds ∧
        Forall2 (λ data r, ∀ col, cell_at col r.2 = summary_cell col data) ds (rows df) ∧
        (rows df).*1 = seq 0 (length ds).
Proof.
  unfold load_all_summaries. intros Hload.
  destruct (collect_summaries [] _) as [ds|] eqn:Hds; [| done]. simpl in Hload.
  destruct (coerce_summaries_spec (frame_of_dicts ds)) as (df' & Hco & Hcols & Hrows).
  rewrite Hco in Hload. injection Hload as ->.
  exists ds. split; [done |].
  assert (length ds = length (rows df)) as Hlen.
  { rewrite <- (Forall2_length _ _ _ Hrows). unfold frame_of_dicts. simpl.
    by rewrite length_imap. }
  split.
  - apply Forall2_same_length_lookup_2; [done |].
    intros i data [j r] Hi Hr col.
    pose proof (frame_of_dicts_rows _ _ _ Hi) as Hrow.
    destruct (Forall2_lookup_l _ _ _ _ _ Hrows Hrow) as (r' & Hr' & Hj & Hcells).
    rewrite Hr in Hr'. injection Hr' as <-. simpl in *.
    rewrite Hcells, cell_at_row_of_dict. unfold summary_cell.
    case_decide as Hcol; [done |].
    destruct (dict_get col data) as [v|] eqn:Hget; simpl.
    + destruct Hcol. apply frame_of_dicts_columns. exists data. split.
      * apply list_elem_of_lookup. by exists i.
      * by apply dict_get_Some_key in Hget.
    + by rewrite to_numeric_NaN_fixed.
  - rewrite <- frame_of_dicts_index. by apply (Forall2_same_index _ _ _ Hrows).
Qed.

Lemma to_numeric_not_str c : is_str (to_numeric c) = false.
Proof.
  destruct c as [s| |]; simpl; [| done | done].
  destruct (Num.parse s); [done |]. by destruct (Num.infinity s).
Qed.

Lemma summary_cell_number col data :
  col ∈ numeric_columns ∨ col = "First Kill Time" →
  is_str (summary_cell col data) = false.
Proof.
  intros H. unfold summary_cell, coerce_cell.
  destruct (decide (col ∈ numeric_columns)); [apply to_numeric_not_str |].
  destruct H as [H| ->]; [done |]. rewrite decide_True by done.
  apply to_numeric_not_str.
Qed.

Lemma summary_cell_condition data : is_num (summary_cell "Condition" data) = false.
Proof.
  unfold summary_cell. rewrite coerce_cell_other.
  - by destruct (dict_get "Condition" data).
  - unfold numeric_columns. rewrite !not_elem_of_cons.
    split_and!; try discriminate. apply not_elem_of_nil.
  - discriminate.
Qed.

Lemma report_row_Ok cols (r : gmap string cell) :
  (∀ c, c ∈ summary_columns → c ∈ cols) →
  is_str (cell_at "Initial Boid Count" r) = false →
  is_str (cell_at "First Kill Time" r) = false →
  is_str (cell_at "Capture Rate" r) = false →
  is_str (cell_at "Total Duration" r) = false →
  report_row cols r = Ok (row_cells r).
Proof.
  intros Hcols H1 H2 H3 H4. unfold report_row, series_get.
  rewrite !decide_True by (apply Hcols; unfold summary_columns; repeat constructor).
  rewrite !result_bind_Ok. unfold row_cells, summary_columns. rewrite !fmap_cons, fmap_nil.
  destruct (cell_at "Initial Boid Count" r); [done | |];
    destruct (cell_at "First Kill Time" r); try done;
    destruct (cell_at "Capture Rate" r); try done;
    destruct (cell_at "Total Duration" r); done.
Qed.

End RunRecords.

Section ReportTable.

Lemma StronglySorted_lookup {A} (R : relation A) (l : list A) i j x y :
  StronglySorted R l → (i < j)%nat → l !! i = Some x → l !! j = Some y → R x y.
Proof.
  intros Hs. revert i j. induction Hs as [|z l Hs IH Hall]; intros i j Hij Hi Hj; [done |].
  destruct j as [|j]; [lia |]. destruct i as [|i]; simpl in *.
  - injection Hi as <-. rewrite Forall_forall in Hall. apply Hall.
    by eapply list_elem_of_lookup_2.
  - apply (IH i j); [lia | done | done].
Qed.

Lemma loaded_rows_cells d summaries r :
  load_all_summaries d = Ok summaries →
  r ∈ rows summaries →
  ∃ data, ∀ col, cell_at col r.2 = summary_cell col data.
Proof.
  intros Hload Hr. destruct (load_all_summaries_rows _ _ Hload) as (ds & _ & Hrows & _).
  apply list_elem_of_lookup in Hr as [i Hi].
  destruct (Forall2_lookup_r _ _ _ _ _ Hrows Hi) as (data & _ & Hcells). by exists data.
Qed.

End ReportTable.



Example report_table_sample :
  (df ← sort_values "Condition" sample_summaries; report_table df) =
  Ok [[CStr "A1"; CNum 50; CNum (3 # 2); CNum 4; CNum 60];
      [CStr "A2"; CNum 50; CNum (3 # 2); CNum 6; CNum 60];
      [CStr "B1"; CNum 50; CNum (3 # 2); CNum 2; CNum 60]].
Proof. vm_compute. reflexivity. Qed.

Example print_summary_table_sample :
  ∃ printed,
    value (print_summary_table 0%nat [sample_summaries]) = Ok printed ∧
    columns printed = summary_headings ∧
    (rows printed).*1 = [1; 2; 0]%nat ∧
    cells "条件" (rows printed) = [CStr "A1"; CStr "A2"; CStr "B1"].
Proof. eexists. split; [vm_compute; reflexivity |]. split_and!; reflexivity. Qed.
(* ===================================================================== *)
(** ** Extremal records *)
(* ===================================================================== *)

Section FirstBest.

(** A total preorder on the numbers, as a test; [negb (le q b)] says that
    [q] is strictly beyond [b]. *)
Variable le : number → number → bool.
Hypothesis le_total : ∀ a b, le a b = true ∨ le b a = true.
Hypothesis le_trans : ∀ a b c, le a b = true → le b c = true → le a c = true.

Local Abbreviation beyond := (λ q b : number, negb (le q b)).

Lemma le_refl a : le a a = true.
Proof. by destruct (le_total a a). Qed.

Lemma better_le q b : negb (le q b) = true → le b q = true.
Proof.
  intros H. destruct (le_total q b) as [Hqb|]; [| done].
  by rewrite Hqb in H.
Qed.

Lemma better_trans_le q b c : negb (le q b) = true → le c b = true → negb (le q c) = true.
Proof.
  intros H Hcb. destruct (le q c) eqn:Hqc; [| done].
  by rewrite (le_trans _ _ _ Hqc Hcb) in H.
Qed.

(** Starting from a best value [b] found at label [i0]: the result bounds
    [b] and every number of the list, and it is either the start, when no
    number of the list is beyond it, or an element of the list that is
    beyond the start and beyond every number before it. *)
Lemma first_best_from l i0 b :
  ∃ i q, first_best beyond (Some (i0, b)) l = Some (i, q) ∧
    le b q = true ∧
    (∀ j c, (j, CNum c) ∈ l → le c q = true) ∧
    ((i, q) = (i0, b) ∨
     ∃ n, l !! n = Some (i, CNum q) ∧ negb (le q b) = true ∧
          ∀ m j c, (m < n)%nat → l !! m = Some (j, CNum c) → negb (le q c) = true).
Proof.
  revert i0 b. induction l as [|[j [s|c|]] l IH]; intros i0 b.
  - exists i0, b. split_and!; [done | apply le_refl | | by left].
    intros j c H. by apply elem_of_nil in H.
  - destruct (IH i0 b) as (i & q & Hf & Hb & Hall & Horigin).
    exists i, q. split_and!; [done | done | |].
    + intros j' c' [[=]|H]%elem_of_cons. by apply (Hall j').
    + destruct Horigin as [?|(n & Hn & Hbt & Hbefore)]; [by left | right].
      exists (S n). split_and!; [done | done |].
      intros [|m] j' c' Hm Hl; [done |]. apply (Hbefore m j'); [lia | done].
  - simpl. destruct (negb (le c b)) eqn:Hcb.
    + destruct (IH j c) as (i & q & Hf & Hc & Hall & Horigin).
      exists i, q. split_and!; [done | | |].
      * apply (le_trans _ c); [by apply better_le | done].
      * intros j' c' [[= -> ->]|H]%elem_of_cons; [done | by apply (Hall j')].
      * right. destruct Horigin as [[= -> ->]|(n & Hn & Hbt & Hbefore)].
        -- exists 0%nat. split_and!; [done | done |]. intros; lia.
        -- exists (S n). split_and!; [done | |].
           ++ apply (better_trans_le _ c); [done | by apply better_le].
           ++ intros [|m] j' c' Hm Hl.
              ** by injection Hl as -> ->.
              ** apply (Hbefore m j'); [lia | done].
    + apply negb_false_iff in Hcb.
      destruct (IH i0 b) as (i & q & Hf & Hb & Hall & Horigin).
      exists i, q. split_and!; [done | done | |].
      * intros j' c' [[= -> ->]|H]%elem_of_cons; [by apply (le_trans _ b) | by apply (Hall j')].
      * destruct Horigin as [?|(n & Hn & Hbt & Hbefore)]; [by left | right].
        exists (S n). split_and!; [done | done |].
        intros [|m] j' c' Hm Hl.
        -- injection Hl as -> ->. by apply (better_trans_le _ b).
        -- apply (Hbefore m j'); [lia | done].
  - destruct (IH i0 b) as (i & q & Hf & Hb & Hall & Horigin).
    exists i, q. split_and!; [done | done | |].
    + intros j' c' [[=]|H]%elem_of_cons. by apply (Hall j').
    + destruct Horigin as [?|(n & Hn & Hbt & Hbefore)]; [by left | right].
      exists (S n). split_and!; [done | done |].
      intros [|m] j' c' Hm Hl; [done |]. apply (Hbefore m j'); [lia | done].
Qed.

(** From nothing: when the list has a number, the result is the first
    element that bounds every number of the list. *)
Lemma first_best_first l :
  (∃ j c, (j, CNum c) ∈ l) →
  ∃ i q n, first_best beyond None l = Some (i, q) ∧
    l !! n = Some (i, CNum q) ∧
    (∀ j c, (j, CNum c) ∈ l → le c q = true) ∧
    (∀ m j c, (m < n)%nat → l !! m = Some (j, CNum c) → negb (le q c) = true).
Proof.
  induction l as [|[j [s|c|]] l IH]; intros (j0 & c0 & H0).
  - by apply elem_of_nil in H0.
  - apply elem_of_cons in H0 as [[=]|H0].
    destruct IH as (i & q & n & Hf & Hn & Hall & Hbefore); [by exists j0, c0 |].
    exists i, q, (S n). split_and!; [done | done | |].
    + intros j' c' [[=]|H]%elem_of_cons. by apply (Hall j').
    + intros [|m] j' c' Hm Hl; [done |]. apply (Hbefore m j'); [lia | done].
  - simpl. destruct (first_best_from l j c) as (i & q & Hf & Hc & Hall & Horigin).
    destruct Horigin as [[= -> ->]|(n & Hn & Hbt & Hbefore)].
    + exists j, c, 0%nat. split_and!; [done | done | | intros; lia].
      intros j' c' [[= -> ->]|H]%elem_of_cons; [apply le_refl | by apply (Hall j')].
    + exists i, q, (S n). split_and!; [done | done | |].
      * intros j' c' [[= -> ->]|H]%elem_of_cons; [done | by apply (Hall j')].
      * intros [|m] j' c' Hm Hl.
        -- by injection Hl as -> ->.
        -- apply (Hbefore m j'); [lia | done].
  - apply elem_of_cons in H0 as [[=]|H0].
    destruct IH as (i & q & n & Hf & Hn & Hall & Hbefore); [by exists j0, c0 |].
    exists i, q, (S n). split_and!; [done | done | |].
    + intros j' c' [[=]|H]%elem_of_cons. by apply (Hall j').
    + intros [|m] j' c' Hm Hl; [done |]. apply (Hbefore m j'); [lia | done].
Qed.

Lemma first_best_none l :
  (∀ j c, (j, CNum c) ∉ l) → first_best beyond None l = None.
Proof.
  induction l as [|[j [s|c|]] l IH]; intros H; [done | ..].
  - apply IH. intros j' c' Hin. apply (H j' c'). by right.
  - destruct (H j c). by left.
  - apply IH. intros j' c' Hin. apply (H j' c'). by right.
Qed.

End FirstBest.

Section Extremes.

Lemma zip_index_cells col (rs : list (nat * gmap string cell)) :
  zip rs.*1 (cells col rs) = (λ r, (r.1, cell_at col r.2)) <$> rs.
Proof. unfold cells. induction rs as [|r rs IH]; [done |]. simpl. by f_equal. Qed.

Lemma filter_none {A} (P : A → Prop) `{∀ x, Decision (P x)} (l : list A) :
  (∀ x, x ∈ l → ¬ P x) → filter P l = [].
Proof.
  induction l as [|x l IH]; intros Hl; [done |].
  rewrite filter_cons, decide_False by (apply Hl; by left).
  apply IH. intros y Hy. apply Hl. by right.
Qed.

Lemma loc_unique df n i r :
  NoDup (rows df).*1 → rows df !! n = Some (i, r) → loc i df = Ok r.
Proof.
  unfold loc. generalize (rows df). clear df. intros rs. revert n.
  induction rs as [|[j r'] rs IH]; intros n Hnd Hn; [done |].
  rewrite fmap_cons in Hnd. apply NoDup_cons in Hnd as [Hj Hnd].
  rewrite filter_cons. simpl. destruct n as [|n]; simpl in Hn.
  - injection Hn as -> ->. rewrite decide_True by done.
    assert (filter (λ x : nat * gmap string cell, x.1 = i) rs = []) as ->; [| done].
    apply filter_none. intros [k x] Hx Hk. simpl in Hk. subst k.
    apply Hj. apply list_elem_of_fmap. by exists (i, x).
  - rewrite decide_False; [by apply (IH n) |].
    simpl. intros ->. apply Hj. apply list_elem_of_fmap. exists (i, r). split; [done |].
    by eapply list_elem_of_lookup_2.
Qed.

Variable le : number → number → bool.
Hypothesis le_total : ∀ a b, le a b = true ∨ le b a = true.
Hypothesis le_trans : ∀ a b c, le a b = true → le b c = true → le a c = true.

(** The label found and the row it names: the first row, in the order of
    the frame, whose value bounds the value of every row that has one. *)
Lemma idx_best_first col df :
  col ∈ columns df →
  existsb is_str (cells col (rows df)) = false →
  NoDup (rows df).*1 →
  (∃ r q, r ∈ rows df ∧ cell_at col r.2 = CNum q) →
  ∃ n i r q,
    idx_best (λ q b, negb (le q b)) col df = Ok i ∧
    loc i df = Ok r ∧
    rows df !! n = Some (i, r) ∧
    cell_at col r = CNum q ∧
    (∀ r' c, r' ∈ rows df → cell_at col r'.2 = CNum c → le c q = true) ∧
    (∀ m r' c, (m < n)%nat → rows df !! m = Some r' → cell_at col r'.2 = CNum c →
       negb (le q c) = true).
Proof.
  intros Hcol Hstr Hnd (r0 & q0 & Hr0 & Hq0).
  destruct (first_best_first le le_total le_trans (zip (rows df).*1 (cells col (rows df))))
    as (i & q & n & Hf & Hn & Hall & Hbefore).
  { exists r0.1, q0. rewrite zip_index_cells. apply list_elem_of_fmap.
    exists r0. by rewrite Hq0. }
  rewrite zip_index_cells in Hn, Hall, Hbefore.
  rewrite list_lookup_fmap in Hn.
  destruct (rows df !! n) as [[i' r]|] eqn:Hrow; [| done].
  simpl in Hn. injection Hn as -> Hq.
  exists n, i, r, q. split_and!; [| by eapply loc_unique | done | done | |].
  - unfold idx_best. rewrite (getitem_Ok _ _ Hcol), result_bind_Ok.
    fold (cells col (rows df)). by rewrite Hstr, Hf.
  - intros r' c Hr' Hc. apply (Hall r'.1). apply list_elem_of_fmap.
    exists r'. by rewrite Hc.
  - intros m r' c Hm Hr' Hc. apply (Hbefore m r'.1); [done |].
    by rewrite list_lookup_fmap, Hr', <- Hc.
Qed.

Lemma idx_best_undefined col df :
  col ∈ columns df →
  (∀ r, r ∈ rows df → cell_at col r.2 = CNaN) →
  idx_best (λ q b, negb (le q b)) col df =
  Raise (ValueError "attempt to get argmax of an empty sequence").
Proof.
  intros Hcol Hnan. unfold idx_best. rewrite (getitem_Ok _ _ Hcol), result_bind_Ok.
  assert (existsb is_str (cells col (rows df)) = false) as ->.
  { apply existsb_false. intros x Hx. unfold cells in Hx.
    apply list_elem_of_fmap in Hx as (m & -> & Hm).
    apply list_elem_of_fmap in Hm as (r & -> & Hr). by rewrite (Hnan r Hr). }
  rewrite first_best_none; [done |].
  intros j c Hin. rewrite zip_index_cells in Hin.
  apply list_elem_of_fmap in Hin as (r & [= _ Hc] & Hr). by rewrite (Hnan r Hr) in Hc.
Qed.

End Extremes.

Section ExtremesOfRuns.

Lemma Ok_inj {A} (a b : A) : Ok a = Ok b → a = b.
Proof. by intros [= ->]. Qed.

Lemma pair_inj {A B} (a c : A) (b d : B) : (a, b) = (c, d) → a = c ∧ b = d.
Proof. by intros [= -> ->]. Qed.

(** Sorting a loaded table by [Condition] never meets a number among the
    labels. *)
Lemma loaded_sort_values d summaries :
  load_all_summaries d = Ok summaries →
  "Condition" ∈ columns summaries →
  sort_values "Condition" summaries =
  Ok (mkFrame (columns summaries) (stable_sort (row_le "Condition") (rows summaries))).
Proof.
  intros Hload Hc. apply sort_values_Ok; [done |].
  apply existsb_false. intros x Hx. unfold cells in Hx.
  apply list_elem_of_fmap in Hx as (m & -> & Hm).
  apply list_elem_of_fmap in Hm as (r & -> & Hr).
  destruct (loaded_rows_cells _ _ _ Hload Hr) as (data & Hcells).
  rewrite Hcells. apply summary_cell_condition.
Qed.

Lemma loaded_rates_numeric d summaries (rs : list (nat * gmap string cell)) :
  load_all_summaries d = Ok summaries →
  rs ≡ₚ rows summaries →
  existsb is_str (cells "Capture Rate" rs) = false.
Proof.
  intros Hload Hperm. apply existsb_false. intros x Hx. unfold cells in Hx.
  apply list_elem_of_fmap in Hx as (m & -> & Hm).
  apply list_elem_of_fmap in Hm as (r & -> & Hr). rewrite Hperm in Hr.
  destruct (loaded_rows_cells _ _ _ Hload Hr) as (data & Hcells).
  rewrite Hcells. apply summary_cell_number. left.
  unfold numeric_columns. repeat constructor.
Qed.

Lemma loaded_index_NoDup d summaries (rs : list (nat * gmap string cell)) :
  load_all_summaries d = Ok summaries →
  rs ≡ₚ rows summaries →
  NoDup rs.*1.
Proof.
  intros Hload Hperm.
  destruct (load_all_summaries_rows _ _ Hload) as (ds & _ & _ & Hindex).
  rewrite Hperm, Hindex. apply NoDup_seq.
Qed.

(** The lines of the table of the report, for any arrangement of the rows
    of a loaded table. *)
Lemma loaded_report_table d summaries df :
  load_all_summaries d = Ok summaries →
  (∀ c, c ∈ summary_columns → c ∈ columns summaries) →
  columns df = columns summaries →
  rows df ≡ₚ rows summaries →
  report_table df = Ok (row_cells <$> (rows df).*2).
Proof.
  intros Hload Hcols Hsame Hperm. unfold report_table. rewrite <- list_fmap_compose.
  apply mapM_Ok. intros r Hr. rewrite Hperm in Hr. rewrite Hsame.
  destruct (loaded_rows_cells _ _ _ Hload Hr) as (data & Hcells).
  apply report_row_Ok; [done | ..]; rewrite Hcells; apply summary_cell_number.
  - left. unfold numeric_columns. repeat constructor.
  - by right.
  - left. unfold numeric_columns. repeat constructor.
  - left. unfold numeric_columns. repeat constructor.
Qed.

Lemma forallb_true {A} (p : A → bool) (l : list A) :
  forallb p l = true ↔ ∀ x, x ∈ l → p x = true.
Proof.
  rewrite forallb_forall. split; intros H x Hx; apply H; by apply list_elem_of_In.
Qed.

(** A family of a table whose labels are all text is reported without
    failure, whether or not it has runs. *)
Lemma report_family_Ok df prefix :
  "Condition" ∈ columns df → "First Kill Time" ∈ columns df →
  "Capture Rate" ∈ columns df →
  forallb is_str (cells "Condition" (rows df)) = true →
  ∃ family, report_family df prefix = Ok family.
Proof.
  intros Hc Hk Hr Hstr. unfold report_family, rows_with_prefix.
  rewrite (getitem_Ok _ _ Hc), result_bind_Ok, Hstr, result_bind_Ok.
  case_decide; [| by eexists].
  rewrite (getitem_Ok "First Kill Time"), result_bind_Ok by done.
  rewrite (getitem_Ok "Capture Rate"), result_bind_Ok by done.
  by eexists.
Qed.

Lemma report_view_Ok captures :
  existsb is_str (cells "boids_in_view" (rows captures)) = false →
  ∃ v, report_view captures = Ok v.
Proof.
  intros Hnum. unfold report_view. case_decide as Hcol; [| by eexists].
  rewrite (getitem_Ok _ _ Hcol), result_bind_Ok, Hnum. by eexists.
Qed.

(** Two sorted arrangements of the same elements are equal when no two
    elements are each below the other. *)
Lemma StronglySorted_unique_on {A} (R : relation A) (l1 l2 : list A) :
  (∀ x y, x ∈ l1 → y ∈ l1 → R x y → R y x → x = y) →
  StronglySorted R l1 → StronglySorted R l2 → l1 ≡ₚ l2 → l1 = l2.
Proof.
  intros Hanti Hs1. revert l2. induction Hs1 as [|x l1 Hs1 IH Hall1]; intros l2 Hs2 Hperm.
  - by apply Permutation_nil_l in Hperm.
  - destruct Hs2 as [|y l2 Hs2 Hall2].
    + by apply Permutation_nil_r in Hperm.
    + assert (x = y) as <-.
      { assert (x ∈ y :: l2) as Hx by (rewrite <- Hperm; by left).
        assert (y ∈ x :: l1) as Hy by (rewrite Hperm; by left).
        apply elem_of_cons in Hx as [Hx | Hx]; [done |].
        apply elem_of_cons in Hy as [Hy | Hy]; [done |].
        rewrite Forall_forall in Hall1, Hall2.
        apply Hanti; [by left | by right | by apply Hall1 | by apply Hall2]. }
      f_equal. apply IH; [| done | by apply Permutation_cons_inv in Hperm].
      intros a b Ha Hb. apply Hanti; by right.
Qed.

Lemma NoDup_cells_inj col (rs : list (nat * gmap string cell)) r1 r2 :
  NoDup (cells col rs) → r1 ∈ rs → r2 ∈ rs →
  cell_at col r1.2 = cell_at col r2.2 → r1 = r2.
Proof.
  unfold cells. induction rs as [|r rs IH]; intros Hnd H1 H2 Heq.
  { by apply elem_of_nil in H1. }
  rewrite !fmap_cons in Hnd. apply NoDup_cons in Hnd as [Hr Hnd].
  assert (∀ r', r' ∈ rs → cell_at col r'.2 ≠ cell_at col r.2) as Hother.
  { intros r' Hr' Hsame. apply Hr. rewrite <- Hsame.
    apply list_elem_of_fmap. exists r'.2. split; [done |].
    apply list_elem_of_fmap. by exists r'. }
  apply elem_of_cons in H1 as [-> | H1]; apply elem_of_cons in H2 as [-> | H2].
  - done.
  - by destruct (Hother r2 H2).
  - by destruct (Hother r1 H1).
  - by apply IH.
Qed.

(** The rows of a table whose labels are distinct texts have one sorted
    arrangement only. *)
Lemma sorted_rows_unique col (rs rs1 rs2 : list (nat * gmap string cell)) :
  forallb is_str (cells col rs) = true →
  NoDup (cells col rs) →
  rs1 ≡ₚ rs → rs2 ≡ₚ rs →
  StronglySorted (row_le col) rs1 → StronglySorted (row_le col) rs2 →
  rs1 = rs2.
Proof.
  intros Hstr Hnd Hp1 Hp2 Hs1 Hs2.
  apply (StronglySorted_unique_on (row_le col)); [| done | done | by rewrite Hp1, Hp2].
  intros r1 r2 Hr1 Hr2 H12 H21. rewrite Hp1 in Hr1, Hr2.
  apply (NoDup_cells_inj col rs); [done | done | done |].
  unfold row_le in H12, H21.
  assert (∀ r, r ∈ rs → ∃ s, cell_at col r.2 = CStr s) as Htext.
  { intros r Hr. rewrite forallb_true in Hstr.
    assert (cell_at col r.2 ∈ cells col rs) as Hin.
    { unfold cells. apply list_elem_of_fmap. exists r.2. split; [done |].
      apply list_elem_of_fmap. by exists r. }
    apply Hstr in Hin. destruct (cell_at col r.2) as [s| |]; [by exists s | done | done]. }
  destruct (Htext r1 Hr1) as [s1 Hs1']. destruct (Htext r2 Hr2) as [s2 Hs2'].
  rewrite Hs1', Hs2' in *. simpl in H12, H21. f_equal.
  by apply (anti_symm String.le).
Qed.

End ExtremesOfRuns.



(** The capture rates A1: 4.0, A2: 6.0, B1: 2.0 select A2 and B1. *)
Example extremes_of_sample_runs :
  (df ← sort_values "Condition" sample_summaries;
   '(fastest, slowest) ← report_extremes df;
   Ok (cell_at "Condition" fastest, cell_at "Condition" slowest)) =
  Ok (CStr "A2", CStr "B1").
Proof. vm_compute. reflexivity. Qed.

(** On a tie the first record in sorted order is taken. *)
Example extremes_tie_first :
  (summaries ← load_all_summaries
     [("r1_summary.txt", Text (run_summary "C1" "6.0"));
      ("r2_summary.txt", Text (run_summary "B1" "2.0"));
      ("r3_summary.txt", Text (run_summary "A2" "6.0"));
      ("r4_summary.txt", Text (run_summary "A1" "2.0"))];
   df ← sort_values "Condition" summaries;
   '(fastest, slowest) ← report_extremes df;
   Ok (cell_at "Condition" fastest, cell_at "Condition" slowest)) =
  Ok (CStr "A2", CStr "A1").
Proof. vm_compute. reflexivity. Qed.


(** A capture rate recorded as an infinity is a rate, and the greatest. *)
Example extremes_infinite_rate :
  (summaries ← load_all_summaries
     [("r1_summary.txt", Text (run_summary "A1" "Infinity"));
      ("r2_summary.txt", Text (run_summary "A2" "6.0"));
      ("r3_summary.txt", Text (run_summary "B1" "2.0"))];
   df ← sort_values "Condition" summaries;
   '(fastest, slowest) ← report_extremes df;
   Ok (cell_at "Condition" fastest, rate_of fastest, cell_at "Condition" slowest)) =
  Ok (CStr "A1", CNum (Inf false), CStr "B1").
Proof. vm_compute. reflexivity. Qed.

(** Records with one and the same label keep the order of the table. *)
Example sort_values_keeps_ties :
  (summaries ← load_all_summaries
     [("r1_summary.txt", Text (run_summary "A1" "1.0"));
      ("r2_summary.txt", Text (run_summary "A1" "2.0"));
      ("r3_summary.txt", Text (run_summary "A1" "3.0"))];
   df ← sort_values "Condition" summaries;
   Ok (rows df).*1) = Ok [0; 1; 2]%nat.
Proof. vm_compute. reflexivity. Qed.
(* ===================================================================== *)
(** ** More on the summary loader *)
(* ===================================================================== *)

Section SummaryLoaderMore.
Import Str.

Lemma summary_lines_Ok data lines : ∃ data', summary_lines data lines = Ok data'.
Proof. rewrite summary_lines_fold. by eexists. Qed.

(** What the loop over the files collects: the records of the files, in
    order, without the empty ones. *)
Lemma collect_summaries_spec acc files res :
  collect_summaries acc files = Ok res ↔
  ∃ datas,
    Forall2 (λ nf data, ∃ content, nf.2 = Text content ∧
                        summary_lines [] (readlines content) = Ok data) files datas ∧
    res = acc ++ filter (λ data, data ≠ []) datas.
Proof.
  revert acc. induction files as [|[name f] files IH]; intros acc; simpl.
  - split.
    + intros [= <-]. exists []. split; [constructor | by rewrite app_nil_r].
    + intros (datas & Hf & ->). apply Forall2_nil_inv_l in Hf as ->.
      by rewrite app_nil_r.
  - destruct f as [content|e]; simpl.
    + destruct (summary_lines_Ok [] (readlines content)) as [data Hdata].
      rewrite Hdata. simpl. rewrite IH. split.
      * intros (datas & Hf & ->). exists (data :: datas). split.
        -- constructor; [by exists content | done].
        -- destruct data as [|kv data].
           ++ by rewrite filter_cons_False by (by intros H).
           ++ rewrite filter_cons_True by done. by rewrite <- app_assoc.
      * intros (datas & Hf & ->).
        apply Forall2_cons_inv_l in Hf as (data' & datas' & (c & [= <-] & Hd) & Hf & ->).
        rewrite Hdata in Hd. injection Hd as <-.
        exists datas'. split; [done |].
        destruct data as [|kv data].
        -- by rewrite filter_cons_False by (by intros H).
        -- rewrite filter_cons_True by done. by rewrite <- app_assoc.
    + split; [done |]. intros (datas & Hf & _).
      apply Forall2_cons_inv_l in Hf as (data' & datas' & (c & Hc & _) & _). done.
Qed.

Lemma all_readable_datas (files : directory) :
  (∀ name f, (name, f) ∈ files → ∃ content, f = Text content) →
  ∃ datas,
    Forall2 (λ nf data, ∃ content, nf.2 = Text content ∧
                        summary_lines [] (readlines content) = Ok data) files datas.
Proof.
  induction files as [|[name f] files IH]; intros Hall.
  - exists []. constructor.
  - destruct (Hall name f) as [content ->]; [by left |].
    destruct (summary_lines_Ok [] (readlines content)) as [data Hdata].
    destruct IH as [datas Hdatas]; [intros n f Hin; apply (Hall n f); by right |].
    exists (data :: datas). constructor; [by exists content | done].
Qed.

End SummaryLoaderMore.

(** X1.  [load_all_summaries] returns a table exactly when every file that
    matches [*_summary.txt] can be read: no text of a readable summary can
    make it raise (the unpacking of [split] cannot fail, and the coercions
    do not raise), and one unreadable summary always does. *)
Theorem load_all_summaries_fails_only_on_unreadable (d : directory) :
  is_Ok (load_all_summaries d) ↔
  ∀ name f, (name, f) ∈ glob "_summary.txt" d → ∃ content, f = Text content.
Proof.
  unfold load_all_summaries, is_Ok. split.
  - intros [df Hload].
    destruct (collect_summaries [] _) as [ds|] eqn:Hds; [| done].
    by apply (collect_summaries_readable _ _ _ Hds).
  - intros Hall. destruct (all_readable_datas _ Hall) as [datas Hdatas].
    assert (collect_summaries [] (glob "_summary.txt" d) =
            Ok ([] ++ filter (λ data, data ≠ []) datas)) as ->.
    { apply collect_summaries_spec. by exists datas. }
    simpl. destruct (coerce_summaries_spec (frame_of_dicts (filter (λ data, data ≠ []) datas)))
      as (df & -> & _). by exists df.
Qed.

(** X2.  When [load_all_summaries] returns, the rows of its table are the
    records read from the matching files, in directory order, leaving out
    every file that yields no key/value pair; the rows carry the index
    0, 1, ..., and each cell is the coerced value of its record (NaN for a
    key the record lacks). *)
Theorem load_all_summaries_drops_empty_records (d : directory) (df : DataFrame) :
  load_all_summaries d = Ok df →
  ∃ datas,
    Forall2 (λ nf data, ∃ content, nf.2 = Text content ∧
                        summary_lines [] (Str.readlines content) = Ok data)
            (glob "_summary.txt" d) datas ∧
    Forall2 (λ data r, ∀ col, cell_at col r.2 = summary_cell col data)
            (filter (λ data, data ≠ []) datas) (rows df) ∧
    (rows df).*1 = seq 0 (length (filter (λ data, data ≠ []) datas)).
Proof.
  intros Hload.
  destruct (load_all_summaries_rows _ _ Hload) as (ds & Hds & Hrows & Hindex).
  apply collect_summaries_spec in Hds as (datas & Hdatas & ->).
  by exists datas.
Qed.

Lemma load_all_summaries_drops_empty_records_witness :
  ∃ df,
    load_all_summaries
      [("a_summary.txt", Text "=== no pairs here ===");
       ("b_summary.txt", Text "Condition: B1")] = Ok df ∧
    (rows df).*1 = [0%nat].
Proof.
  assert (∃ df, load_all_summaries
      [("a_summary.txt", Text "=== no pairs here ===");
       ("b_summary.txt", Text "Condition: B1")] = Ok df) as [df Hload]
    by (eexists; vm_compute; reflexivity).
  exists df. split; [exact Hload |].
  destruct (load_all_summaries_drops_empty_records _ _ Hload) as (datas & Hd & _ & Hindex).
  rewrite Hindex.
  apply Forall2_cons_inv_l in Hd as (d1 & datas1 & (c1 & Hc1 & H1) & Hd & ->).
  apply Forall2_cons_inv_l in Hd as (d2 & datas2 & (c2 & Hc2 & H2) & Hd & ->).
  apply Forall2_nil_inv_l in Hd as ->.
  simpl in Hc1, Hc2. injection Hc1 as <-. injection Hc2 as <-.
  vm_compute in H1. vm_compute in H2.
  apply Ok_inj in H1. apply Ok_inj in H2. subst d1 d2. reflexivity.
Defined.
Section SummaryText.
Import Str StrFacts.

Lemma replace_nonempty a old new s :
  replace (String a old) new s = replace_go (String a old) new 0 s.
Proof. done. Qed.

(** Deleting occurrences of a text adds no character. *)
Lemma replace_go_delete c old k s : has_char c (replace_go old "" k s) → has_char c s.
Proof.
  revert k. induction s as [|a s IH]; intros k; simpl; [done |].
  destruct k as [|k].
  - destruct (startswith old (String a s)); simpl.
    + intros H. right. by eapply IH.
    + intros [-> | H]; [by left | right; by eapply IH].
  - intros H. right. by eapply IH.
Qed.

(** Deleting every occurrence of one character leaves none. *)
Lemma replace_go_char c s : ¬ has_char c (replace_go (String c "") "" 0 s).
Proof.
  induction s as [|a s IH]; simpl; [tauto |].
  destruct (decide (c = a)) as [<- | Hne]; simpl.
  - done.
  - intros [-> | H]; [done | by apply IH].
Qed.

Lemma strip_units_no_s raw : ¬ has_char "s" (strip_units raw).
Proof.
  unfold strip_units. rewrite !replace_nonempty. intros H.
  apply replace_go_delete in H. by apply replace_go_char in H.
Qed.

Lemma lstrip_sub c s : has_char c (lstrip s) → has_char c s.
Proof.
  induction s as [|a s IH]; simpl; [done |].
  destruct (isspace a); [intros H; right; by apply IH | done].
Qed.

Lemma rstrip_sub c s : has_char c (rstrip s) → has_char c s.
Proof.
  induction s as [|a s IH]; simpl; [done |].
  destruct (rstrip s) as [|b r] eqn:Hr.
  - destruct (isspace a); simpl; [done |]. intros [-> | []]. by left.
  - simpl. intros [-> | H]; [by left | right; by apply IH].
Qed.

Lemma strip_sub c s : has_char c (strip s) → has_char c s.
Proof. unfold strip. intros H. by apply lstrip_sub, rstrip_sub. Qed.

Lemma dict_get_set k k' v d x :
  dict_get k' (dict_set k v d) = Some x → x = v ∨ dict_get k' d = Some x.
Proof.
  destruct (decide (k = k')) as [<- | Hne].
  - rewrite dict_get_set_eq. intros [= <-]. by left.
  - rewrite dict_get_set_ne by done. by right.
Qed.

Lemma dict_set_keys k v (d : dict) x : x ∈ (dict_set k v d).*1 ↔ x = k ∨ x ∈ d.*1.
Proof.
  induction d as [|[k' v'] d IH]; simpl.
  - rewrite list_elem_of_singleton. split; [by left | intros [? | H]; [done |]].
    by apply elem_of_nil in H.
  - destruct (decide (k' = k)) as [-> | Hne]; simpl.
    + rewrite !elem_of_cons. tauto.
    + rewrite !elem_of_cons, IH. tauto.
Qed.

Lemma dict_set_keys_NoDup k v (d : dict) : NoDup d.*1 → NoDup (dict_set k v d).*1.
Proof.
  induction d as [|[k' v'] d IH]; simpl.
  - intros _. apply NoDup_singleton.
  - rewrite NoDup_cons. intros [Hk' Hd].
    destruct (decide (k' = k)) as [-> | Hne]; simpl.
    + by apply NoDup_cons.
    + apply NoDup_cons. split; [| by apply IH].
      rewrite dict_set_keys. intros [? | ?]; done.
Qed.

Local Abbreviation step :=
  (λ (d : dict) line, match line_fields line with
                      | Some (key, raw) => dict_set key (strip_units raw) d
                      | None => d
                      end).

(** The values of a record are values of lines, without their units. *)
Lemma record_values (d : dict) lines k x :
  dict_get k (foldl step d lines) = Some x →
  dict_get k d = Some x ∨ ∃ raw, x = strip_units raw.
Proof.
  revert d. induction lines as [|line lines IH]; intros d; simpl; [by left |].
  intros H. apply IH in H as [H | H]; [| by right].
  destruct (line_fields line) as [[key raw]|]; [| by left].
  apply dict_get_set in H as [-> | H]; [right; by exists raw | by left].
Qed.

(** The keys of a record are the keys of the lines read as pairs. *)
Lemma record_keys (d : dict) lines k :
  k ∈ (foldl step d lines).*1 ↔
  k ∈ d.*1 ∨ ∃ line raw, line ∈ lines ∧ line_fields line = Some (k, raw).
Proof.
  revert d. induction lines as [|line lines IH]; intros d; simpl.
  - split; [by left | intros [H | (l & raw & Hl & _)]; [done |]].
    by apply elem_of_nil in Hl.
  - rewrite IH. split.
    + intros [H | (l & raw & Hl & Hf)].
      * destruct (line_fields line) as [[key raw]|] eqn:Hline; [| by left].
        apply dict_set_keys in H as [-> | H]; [| by left].
        right. exists line, raw. split; [by left | done].
      * right. exists l, raw. split; [by right | done].
    + intros [H | (l & raw & Hl & Hf)].
      * left. destruct (line_fields line) as [[key raw]|]; [| done].
        apply dict_set_keys. by right.
      * apply elem_of_cons in Hl as [-> | Hl].
        -- left. rewrite Hf. apply dict_set_keys. by left.
        -- right. by exists l, raw.
Qed.

Lemma record_keys_NoDup (d : dict) lines : NoDup d.*1 → NoDup (foldl step d lines).*1.
Proof.
  revert d. induction lines as [|line lines IH]; intros d Hd; simpl; [done |].
  apply IH. destruct (line_fields line) as [[key raw]|]; [| done].
  by apply dict_set_keys_NoDup.
Qed.

Lemma collect_summaries_raises acc pre name e post :
  (∀ n f, (n, f) ∈ pre → ∃ c, f = Text c) →
  collect_summaries acc (pre ++ (name, Unreadable e) :: post) = Raise e.
Proof.
  revert acc. induction pre as [|[n f] pre IH]; intros acc Hpre; simpl; [done |].
  destruct (Hpre n f) as [c ->]; [by left |]. simpl.
  rewrite summary_lines_fold. simpl. apply IH.
  intros n' f' Hin. apply (Hpre n' f'). by right.
Qed.

Lemma add_column_NoDup cols c : NoDup cols → NoDup (add_column cols c).
Proof.
  intros Hnd. unfold add_column. case_decide as Hc; [done |].
  apply NoDup_app. split; [done |]. split; [| apply NoDup_singleton].
  intros x Hx Hx'. apply list_elem_of_singleton in Hx' as ->. done.
Qed.

Lemma add_columns_NoDup cs cols : NoDup cols → NoDup (foldl add_column cols cs).
Proof.
  revert cols. induction cs as [|c cs IH]; intros cols Hnd; simpl; [done |].
  by apply IH, add_column_NoDup.
Qed.

Lemma frame_columns_NoDup {A} (f : A → list string) (l : list A) cols :
  NoDup cols → NoDup (foldl (λ cols x, foldl add_column cols (f x)) cols l).
Proof.
  revert cols. induction l as [|x l IH]; intros cols Hnd; simpl; [done |].
  by apply IH, add_columns_NoDup.
Qed.

(** The columns of the loaded table are those of the frame built from the
    records: the coercions add and drop none. *)
Lemma load_all_summaries_columns d df :
  load_all_summaries d = Ok df →
  ∃ ds, collect_summaries [] (glob "_summary.txt" d) = Ok ds ∧
        columns df = columns (frame_of_dicts ds).
Proof.
  unfold load_all_summaries. intros Hload.
  destruct (collect_summaries [] _) as [ds|] eqn:Hds; [| done]. simpl in Hload.
  destruct (coerce_summaries_spec (frame_of_dicts ds)) as (df' & Hco & Hcols & _).
  rewrite Hco in Hload. injection Hload as ->. by exists ds.
Qed.

End SummaryText.

(** X3.  When the files matching [*_summary.txt] are readable up to one
    that is not, [load_all_summaries] raises the exception of that file,
    whatever follows it: the first failure ends the loading, and its
    exception reaches the caller unchanged. *)
Theorem load_all_summaries_raises_first_unreadable (d : directory)
    (pre post : directory) (name : string) (e : exn) :
  glob "_summary.txt" d = pre ++ (name, Unreadable e) :: post →
  (∀ n f, (n, f) ∈ pre → ∃ content, f = Text content) →
  load_all_summaries d = Raise e.
Proof.
  intros Hglob Hpre. unfold load_all_summaries.
  by rewrite Hglob, collect_summaries_raises.
Qed.

Lemma load_all_summaries_raises_first_unreadable_witness :
  load_all_summaries
    [("a_summary.txt", Text "Condition: A1");
     ("b_summary.txt", Unreadable (OSError "Permission denied"));
     ("c_summary.txt", Unreadable (ValueError "invalid start byte"))] =
  Raise (OSError "Permission denied").
Proof.
  apply (load_all_summaries_raises_first_unreadable _
           [("a_summary.txt", Text "Condition: A1")] 
           [("c_summary.txt", Unreadable (ValueError "invalid start byte"))]
           "b_summary.txt").
  - vm_compute. reflexivity.
  - intros n f Hin. apply list_elem_of_singleton in Hin.
    injection Hin as -> ->. by eexists.
Defined.

(** X4.  No text cell of the table of run records contains the letter
    [s]: [replace('s', '')] removes every occurrence from every value,
    condition labels included, not only a trailing unit of seconds. *)
Theorem summary_text_has_no_s (d : directory) (df : DataFrame)
    (r : nat * gmap string cell) (col v : string) :
  load_all_summaries d = Ok df →
  r ∈ rows df →
  cell_at col r.2 = CStr v →
  ¬ Str.has_char "s" v.
Proof.
  intros Hload Hr Hv.
  destruct (load_all_summaries_rows _ _ Hload) as (ds & Hds & Hrows & _).
  apply list_elem_of_lookup in Hr as [i Hi].
  destruct (Forall2_lookup_r _ _ _ _ _ Hrows Hi) as (data & Hdata & Hcells).
  rewrite Hcells in Hv.
  apply collect_summaries_spec in Hds as (datas & Hdatas & ->). simpl in Hdata.
  apply list_elem_of_lookup_2, list_elem_of_filter in Hdata as [_ Hdata].
  apply list_elem_of_lookup in Hdata as [j Hj].
  destruct (Forall2_lookup_r _ _ _ _ _ Hdatas Hj) as (nf & _ & content & _ & Hlines).
  rewrite summary_lines_fold in Hlines. apply Ok_inj in Hlines.
  unfold summary_cell, coerce_cell in Hv.
  assert (dict_get col data = Some v) as Hget.
  { destruct (decide (col ∈ numeric_columns)).
    - pose proof (to_numeric_not_str (from_option CStr CNaN (dict_get col data))) as Hn.
      by rewrite Hv in Hn.
    - destruct (decide (col = "First Kill Time")).
      + pose proof (to_numeric_not_str
          (str_replace "N/A" "" (from_option CStr CNaN (dict_get col data)))) as Hn.
        by rewrite Hv in Hn.
      + destruct (dict_get col data); simpl in Hv; [by injection Hv as -> | done]. }
  rewrite <- Hlines in Hget. apply record_values in Hget as [Hget | [raw ->]]; [done |].
  apply strip_units_no_s.
Qed.

Lemma summary_text_has_no_s_witness :
  ∃ df r,
    load_all_summaries [("a_summary.txt", Text "Condition: sparse flocks")] = Ok df ∧
    r ∈ rows df ∧
    cell_at "Condition" r.2 = CStr "pare flock" ∧
    ¬ Str.has_char "s" "pare flock".
Proof.
  assert (∃ df,
    load_all_summaries [("a_summary.txt", Text "Condition: sparse flocks")] = Ok df ∧
    ∃ r, rows df = [r] ∧ cell_at "Condition" r.2 = CStr "pare flock")
    as (df & Hload & r & Hrows & Hcell).
  { eexists. split; [vm_compute; reflexivity |].
    eexists. split; [reflexivity |]. vm_compute. reflexivity. }
  assert (r ∈ rows df) as Hr by (rewrite Hrows; apply list_elem_of_here).
  exists df, r. split; [exact Hload |]. split; [exact Hr |]. split; [exact Hcell |].
  exact (summary_text_has_no_s _ _ _ _ _ Hload Hr Hcell).
Defined.
Section GlobFacts.
Import Str.

Lemma glob_glob_none a b d :
  (∀ r, startswith (String.rev a) r = true → startswith (String.rev b) r = false) →
  glob b (glob a d) = [].
Proof.
  intros Hab. unfold glob. apply filter_none. intros nf Hnf Hb.
  apply list_elem_of_filter in Hnf as [Ha _].
  unfold endswith in *. apply Hab in Ha. congruence.
Qed.

Lemma startswith_other a p b q r :
  a ≠ b → startswith (String a p) r = true → startswith (String b q) r = false.
Proof.
  intros Hne. destruct r as [|c r]; simpl; [done |].
  destruct (decide (a = c)) as [<- |]; [| done]. intros _. by rewrite decide_False.
Qed.

Lemma startswith_same a p q r :
  (∀ r', startswith p r' = true → startswith q r' = false) →
  startswith (String a p) r = true → startswith (String a q) r = false.
Proof.
  intros Hpq. destruct r as [|c r]; simpl; [done |].
  destruct (decide (a = c)); [apply Hpq | done].
Qed.

End GlobFacts.

(** X5.  The three loaders read disjoint sets of files: a name that ends
    in [_summary.txt] ends neither in [_captures.csv] nor in
    [_snapshots.csv], and a name that ends in [_captures.csv] does not end
    in [_snapshots.csv]. *)
Theorem loaders_read_disjoint_files (d : directory) :
  glob "_captures.csv" (glob "_summary.txt" d) = [] ∧
  glob "_snapshots.csv" (glob "_summary.txt" d) = [] ∧
  glob "_snapshots.csv" (glob "_captures.csv" d) = [].
Proof.
  split; [| split]; apply glob_glob_none; intros r.
  - by apply startswith_other.
  - by apply startswith_other.
  - change (String.rev "_captures.csv") with "vsc.serutpac_".
    change (String.rev "_snapshots.csv") with "vsc.stohspans_".
    do 5 (apply startswith_same; clear r; intros r). by apply startswith_other.
Qed.

(** X6.  The columns of the table of run records are exactly the keys of
    the lines that are read as a pair in some matching file, each column
    once; a column name never contains a colon, since the key of a line is
    what precedes its first colon. *)
Theorem summary_columns_are_keys (d : directory) (df : DataFrame) :
  load_all_summaries d = Ok df →
  NoDup (columns df) ∧
  (∀ col, col ∈ columns df ↔
     ∃ name content line raw,
       (name, Text content) ∈ glob "_summary.txt" d ∧
       line ∈ Str.readlines content ∧
       line_fields line = Some (col, raw)) ∧
  (∀ col, col ∈ columns df → ¬ Str.has_char ":" col).
Proof.
  intros Hload.
  destruct (load_all_summaries_columns _ _ Hload) as (ds & Hds & Hcols).
  apply collect_summaries_spec in Hds as (datas & Hdatas & ->).
  change (columns df = columns (frame_of_dicts (filter (λ data, data ≠ []) datas))) in Hcols.
  assert (∀ col, col ∈ columns df ↔
     ∃ name content line raw,
       (name, Text content) ∈ glob "_summary.txt" d ∧
       line ∈ Str.readlines content ∧
       line_fields line = Some (col, raw)) as Hkeys.
  { intros col. rewrite Hcols, frame_of_dicts_columns. split.
    - intros (data & Hdata & Hcol).
      apply list_elem_of_filter in Hdata as [_ Hdata].
      apply list_elem_of_lookup in Hdata as [j Hj].
      destruct (Forall2_lookup_r _ _ _ _ _ Hdatas Hj) as ([name f] & Hnf & content & Hf & Hlines).
      simpl in Hf. subst f.
      rewrite summary_lines_fold in Hlines. apply Ok_inj in Hlines. subst data.
      apply record_keys in Hcol as [Hcol | (line & raw & Hline & Hfields)].
      + by apply elem_of_nil in Hcol.
      + exists name, content, line, raw. split; [| done].
        by eapply list_elem_of_lookup_2.
    - intros (name & content & line & raw & Hin & Hline & Hfields).
      apply list_elem_of_lookup in Hin as [i Hi].
      destruct (Forall2_lookup_l _ _ _ _ _ Hdatas Hi) as (data & Hdata & c & Hc & Hlines).
      simpl in Hc. injection Hc as <-.
      rewrite summary_lines_fold in Hlines. apply Ok_inj in Hlines.
      assert (col ∈ data.*1) as Hcol.
      { rewrite <- Hlines. apply record_keys. right. by exists line, raw. }
      exists data. split; [| done]. apply list_elem_of_filter. split.
      + intros ->. by apply elem_of_nil in Hcol.
      + by eapply list_elem_of_lookup_2. }
  split; [| split; [exact Hkeys |]].
  - rewrite Hcols. unfold frame_of_dicts. simpl.
    apply (frame_columns_NoDup (λ d : dict, d.*1)). constructor.
  - intros col Hcol. apply Hkeys in Hcol as (_ & _ & line & raw & _ & _ & Hfields).
    apply line_fields_text in Hfields as (_ & _ & pre & post & _ & Hpre & -> & _).
    intros H. by apply Hpre, strip_sub.
Qed.

Lemma summary_columns_are_keys_witness :
  ∃ df,
    load_all_summaries [("a_summary.txt", Text "Start Time : 12:30")] = Ok df ∧
    NoDup (columns df) ∧
    "Start Time" ∈ columns df.
Proof.
  assert (∃ df,
    load_all_summaries [("a_summary.txt", Text "Start Time : 12:30")] = Ok df)
    as [df Hload] by (eexists; vm_compute; reflexivity).
  destruct (summary_columns_are_keys _ _ Hload) as (Hnd & Hkeys & _).
  exists df. split; [exact Hload |]. split; [exact Hnd |].
  apply Hkeys. exists "a_summary.txt", "Start Time : 12:30", "Start Time : 12:30", "12:30".
  split; [| split].
  - vm_compute. apply list_elem_of_here.
  - vm_compute. apply list_elem_of_here.
  - vm_compute. reflexivity.
Defined.
Section CsvTables.
Variable DATA_DIR : string.
Variable parse_csv : string → result DataFrame.

Lemma frame_columns_elem {A} (f : A → list string) (l : list A) cols x :
  x ∈ foldl (λ cols a, foldl add_column cols (f a)) cols l ↔
  x ∈ cols ∨ ∃ a, a ∈ l ∧ x ∈ f a.
Proof.
  revert cols. induction l as [|a l IH]; intros cols; simpl.
  - split; [by left | intros [H | (a & Ha & _)]; [done |]].
    by apply elem_of_nil in Ha.
  - rewrite IH, add_columns_elem. split.
    + intros [[H | H] | (b & Hb & Hx)].
      * by left.
      * right. exists a. split; [by left | done].
      * right. exists b. split; [by right | done].
    + intros [H | (b & Hb & Hx)].
      * left. by left.
      * apply elem_of_cons in Hb as [-> | Hb].
        -- left. by right.
        -- right. by exists b.
Qed.

Lemma combines_concat dfs :
  combines dfs (mkFrame (foldl (λ cols df, foldl add_column cols (columns df)) [] dfs)
                        (imap (λ i r, (i, r.2)) (dfs ≫= rows))).
Proof.
  split; [exact (imap_index snd (dfs ≫= rows) 0) |].
  split; [exact (frame_columns_NoDup columns dfs [] NoDup_nil_2) |].
  intros c. etransitivity; [exact (frame_columns_elem columns dfs [] c) |].
  split; [intros [H | H]; [by apply elem_of_nil in H | done] | by right].
Qed.

Lemma concat_or_empty_combines dfs :
  ∃ table, concat_or_empty dfs = Ok table ∧ combines dfs table.
Proof.
  rewrite concat_or_empty_Ok. eexists. split; [done |].
  destruct dfs as [|df dfs]; [apply (combines_concat []) | apply combines_concat].
Qed.

Lemma parsed_or_skipped (files : directory) :
  (length (parsed_frames parse_csv files) +
   length (skipped_messages DATA_DIR parse_csv files))%nat = length files.
Proof.
  unfold parsed_frames, skipped_messages.
  induction files as [|[name f] files IH]; [done |]. simpl.
  unfold omap in IH. destruct (read_csv parse_csv f); simpl; lia.
Qed.

End CsvTables.

(** X7.  The table a CSV loader returns is renumbered: whatever index the
    tables of the files carry, its rows are numbered 0, 1, ... in order
    ([ignore_index=True]); its columns are the columns of the files that
    parsed, each once.  Every matching file is accounted for exactly once,
    as a parsed table or as a printed line. *)
Theorem csv_loaders_renumber_and_count (DATA_DIR : string)
    (parse_csv : string → result DataFrame) (d : directory) :
  (∃ table out,
     load_all_captures DATA_DIR parse_csv d = (Ok table, out) ∧
     combines (parsed_frames parse_csv (glob "_captures.csv" d)) table ∧
     (length (parsed_frames parse_csv (glob "_captures.csv" d)) + length out)%nat =
       length (glob "_captures.csv" d)) ∧
  (∃ table out,
     load_all_snapshots DATA_DIR parse_csv d = (Ok table, out) ∧
     combines (parsed_frames parse_csv (glob "_snapshots.csv" d)) table ∧
     (length (parsed_frames parse_csv (glob "_snapshots.csv" d)) + length out)%nat =
       length (glob "_snapshots.csv" d)).
Proof.
  unfold load_all_captures, load_all_snapshots. rewrite !read_frames_eq. simpl.
  split.
  - destruct (concat_or_empty_combines (parsed_frames parse_csv (glob "_captures.csv" d)))
      as (table & -> & Hcomb).
    exists table, (skipped_messages DATA_DIR parse_csv (glob "_captures.csv" d)).
    split; [done |]. split; [done |]. apply parsed_or_skipped.
  - destruct (concat_or_empty_combines (parsed_frames parse_csv (glob "_snapshots.csv" d)))
      as (table & -> & Hcomb).
    exists table, (skipped_messages DATA_DIR parse_csv (glob "_snapshots.csv" d)).
    split; [done |]. split; [done |]. apply parsed_or_skipped.
Qed.

Example csv_loader_renumbers :
  let parse := λ c : string,
    if decide (c = "a") then Ok (mkFrame ["condition"] [(7%nat, {["condition" := CStr "A1"]})])
    else Ok (mkFrame ["time_sec"] [(7%nat, {["time_sec" := CNum 1]})]) in
  (load_all_captures "data" parse
     [("a_captures.csv", Text "a"); ("b_captures.csv", Text "b")]).1 =
  Ok (mkFrame ["condition"; "time_sec"]
        [(0%nat, {["condition" := CStr "A1"]}); (1%nat, {["time_sec" := CNum 1]})]).
Proof. vm_compute. reflexivity. Qed.
(* ===================================================================== *)
(** ** The stages of [main] and the heap *)
(* ===================================================================== *)

Section HeapReads.

Lemma reads_only_ret {A} (a : A) : reads_only (mret a).
Proof. by intros h a' h' [= _ <-]. Qed.

Lemma reads_only_lift {A} (r : result A) : reads_only (lift r).
Proof. by intros h a h' [_ ->]%lift_Ok. Qed.

Lemma reads_only_load l : reads_only (load l).
Proof. by intros h a h' [_ ->]%load_Ok. Qed.

Lemma reads_only_bind {A B} (m : M A) (f : A → M B) :
  reads_only m → (∀ a, reads_only (f a)) → reads_only (m ≫= f).
Proof.
  intros Hm Hf h b h2 (a & h1 & H1 & H2)%bind_Ok.
  apply Hm in H1 as ->. by apply Hf in H2.
Qed.

Ltac solve_reads_only :=
  repeat first
    [ apply reads_only_load | apply reads_only_lift | apply reads_only_ret
    | apply reads_only_bind; [| intros ?] ].

Lemma reads_only_print_summary_table l : reads_only (print_summary_table l).
Proof. unfold print_summary_table. solve_reads_only. Qed.

Lemma reads_only_plot_condition_comparison l : reads_only (plot_condition_comparison l).
Proof. unfold plot_condition_comparison. solve_reads_only. Qed.

Lemma reads_only_plot_predation_timeline l : reads_only (plot_predation_timeline l).
Proof. unfold plot_predation_timeline. solve_reads_only. Qed.

Lemma reads_only_plot_experiment_groups l : reads_only (plot_experiment_groups l).
Proof. unfold plot_experiment_groups. solve_reads_only. Qed.

Lemma reads_only_write_analysis_report s l : reads_only (write_analysis_report s l).
Proof. unfold write_analysis_report. solve_reads_only. Qed.

End HeapReads.

(** X8.  The table printer, the plots of the run records, the timeline
    plot and the report writer never change a table they are given:
    whenever one of them returns, every object of the heap is as it was
    (they sort, select and filter into tables of their own). *)
Theorem reporting_stages_read_only (summaries captures : ref) :
  reads_only (print_summary_table summaries) ∧
  reads_only (plot_condition_comparison summaries) ∧
  reads_only (plot_predation_timeline captures) ∧
  reads_only (plot_experiment_groups summaries) ∧
  reads_only (write_analysis_report summaries captures).
Proof.
  split_and!.
  - apply reads_only_print_summary_table.
  - apply reads_only_plot_condition_comparison.
  - apply reads_only_plot_predation_timeline.
  - apply reads_only_plot_experiment_groups.
  - apply reads_only_write_analysis_report.
Qed.
Section MainSteps.

Variable DATA_DIR : string.
Variable parse_csv : string → result DataFrame.
Variable polyfit : list cell → list cell → result (cell * cell).

Lemma load_all_captures_Ok d : ∃ table, (load_all_captures DATA_DIR parse_csv d).1 = Ok table.
Proof.
  unfold load_all_captures. rewrite read_frames_eq. simpl.
  rewrite concat_or_empty_Ok. by eexists.
Qed.

Lemma load_all_snapshots_Ok d : ∃ table, (load_all_snapshots DATA_DIR parse_csv d).1 = Ok table.
Proof.
  unfold load_all_snapshots. rewrite read_frames_eq. simpl.
  rewrite concat_or_empty_Ok. by eexists.
Qed.

(** [main] after its three loaders: the tables are the objects 0, 1
    and 2. *)
Lemma main_loaded d summaries :
  load_all_summaries d = Ok summaries →
  ∃ captures snapshots,
    (load_all_captures DATA_DIR parse_csv d).1 = Ok captures ∧
    main DATA_DIR parse_csv polyfit d [] =
    (conds ← (df ← load 0%nat; lift (getitem "Condition" df));
     _ ← lift (sorted_unique conds);
     _ ← print_summary_table 0%nat;
     _ ← plot_condition_comparison 0%nat;
     _ ← plot_predation_timeline 1%nat;
     _ ← plot_confusion_effect polyfit 1%nat;
     _ ← plot_experiment_groups 0%nat;
     write_analysis_report 0%nat 1%nat) [summaries; captures; snapshots].
Proof.
  intros Hs.
  destruct (load_all_captures_Ok d) as [captures Hc].
  destruct (load_all_snapshots_Ok d) as [snapshots Hn].
  exists captures, snapshots. split; [done |].
  unfold main. rewrite Hs, Hc, Hn. reflexivity.
Qed.

Lemma main_raises_unloaded d e :
  load_all_summaries d = Raise e → main DATA_DIR parse_csv polyfit d [] = Raise e.
Proof. intros Hs. unfold main. by rewrite Hs. Qed.

End MainSteps.

Section Inversions.

Lemma getitem_inv col df vals :
  getitem col df = Ok vals → col ∈ columns df ∧ vals = cells col (rows df).
Proof. unfold getitem. case_decide; [by intros [= <-] | done]. Qed.

Lemma getitem_KeyError col df : col ∉ columns df → getitem col df = Raise (KeyError col).
Proof. intros H. unfold getitem. by rewrite decide_False. Qed.

Lemma sort_values_inv col df df' :
  sort_values col df = Ok df' →
  col ∈ columns df ∧ df' = mkFrame (columns df) (stable_sort (row_le col) (rows df)).
Proof.
  unfold sort_values. destruct (getitem col df) as [keys|] eqn:Hk; [| done]. simpl.
  apply getitem_inv in Hk as [Hcol _].
  destruct (_ && _); [done |]. by intros [= <-].
Qed.

Lemma select_inv cols df df' :
  select cols df = Ok df' → ∀ c, c ∈ cols → c ∈ columns df.
Proof.
  unfold select. destruct (filter _ cols) as [|c0 l] eqn:Hf; [| done].
  intros _ c Hc. destruct (decide (c ∈ columns df)) as [| Hno]; [done |].
  assert (c ∈ filter (λ c, c ∉ columns df) cols) as Hin
    by (by apply list_elem_of_filter).
  rewrite Hf in Hin. by apply elem_of_nil in Hin.
Qed.

Lemma first_best_inv better best l x :
  first_best better best l = Some x →
  best = Some x ∨ ∃ j c, (j, CNum c) ∈ l.
Proof.
  revert best. induction l as [|[j [s|c|]] l IH]; intros best; simpl.
  - by left.
  - intros H. apply IH in H as [H | (j' & c' & H)]; [by left |].
    right. exists j', c'. by right.
  - intros _. right. exists j, c. by left.
  - intros H. apply IH in H as [H | (j' & c' & H)]; [by left |].
    right. exists j', c'. by right.
Qed.

Lemma idx_best_inv better col df i :
  idx_best better col df = Ok i →
  col ∈ columns df ∧ ∃ r q, r ∈ rows df ∧ cell_at col r.2 = CNum q.
Proof.
  unfold idx_best. destruct (getitem col df) as [vals|] eqn:Hv; [| done]. simpl.
  apply getitem_inv in Hv as [Hcol ->]. split; [done |].
  destruct (existsb is_str _); [done |].
  destruct (first_best _ _ _) as [[i' q]|] eqn:Hf; [| done].
  apply first_best_inv in Hf as [Hf | (j & c & Hin)]; [done |].
  rewrite zip_index_cells in Hin. apply list_elem_of_fmap in Hin as (r & Hr & Hin).
  injection Hr as _ Hc. by exists r, c.
Qed.

Lemma result_bind_inv {A B} (m : result A) (f : A → result B) b :
  m ≫= f = Ok b → ∃ a, m = Ok a ∧ f a = Ok b.
Proof. destruct m as [a|]; [by exists a | done]. Qed.

End Inversions.

(** X9.  When the table of run records has no column [Condition] (as when
    no summary was found, or none holds a [Condition] line), [main] stops
    with [KeyError: 'Condition'] at its first use of that column, after the
    three loaders have returned and before the summary table is printed or
    anything is plotted. *)
Theorem main_without_condition_column (DATA_DIR : string)
    (parse_csv : string → result DataFrame)
    (polyfit : list cell → list cell → result (cell * cell))
    (d : directory) (summaries : DataFrame) :
  load_all_summaries d = Ok summaries →
  "Condition" ∉ columns summaries →
  main DATA_DIR parse_csv polyfit d [] = Raise (KeyError "Condition").
Proof.
  intros Hs Hno.
  destruct (main_loaded DATA_DIR parse_csv polyfit d _ Hs) as (c & n & _ & ->).
  rewrite run_bind, run_bind, (run_load 0%nat [summaries; c; n] summaries) by done.
  by rewrite run_lift, getitem_KeyError.
Qed.

Lemma main_without_condition_column_witness :
  main "data" sample_parse_csv sample_polyfit
    [("notes.txt", Text "nothing"); ("run1_captures.csv", Text sample_captures)] [] =
  Raise (KeyError "Condition").
Proof.
  apply (main_without_condition_column _ _ _ _ empty_frame).
  - vm_compute. reflexivity.
  - simpl. apply not_elem_of_nil.
Defined.

(** X10.  When some run records carry a condition label and others none
    (their summary has no [Condition] line), [main] stops with a
    [TypeError] while sorting the labels for its first message: a missing
    label is a float, which Python does not compare with a string.  The
    tables are loaded; no table is printed and nothing is plotted. *)
Theorem main_with_unlabelled_run (DATA_DIR : string)
    (parse_csv : string → result DataFrame)
    (polyfit : list cell → list cell → result (cell * cell))
    (d : directory) (summaries : DataFrame)
    (r1 r2 : nat * gmap string cell) (label : string) :
  load_all_summaries d = Ok summaries →
  "Condition" ∈ columns summaries →
  r1 ∈ rows summaries → cell_at "Condition" r1.2 = CStr label →
  r2 ∈ rows summaries → cell_at "Condition" r2.2 = CNaN →
  ∃ msg, main DATA_DIR parse_csv polyfit d [] = Raise (TypeError msg).
Proof.
  intros Hs Hcol Hr1 Hl1 Hr2 Hl2. eexists.
  destruct (main_loaded DATA_DIR parse_csv polyfit d _ Hs) as (c & n & _ & ->).
  rewrite run_bind, run_bind, (run_load 0%nat [summaries; c; n] summaries) by done.
  rewrite run_lift, (getitem_Ok _ _ Hcol), run_bind, run_lift.
  unfold sorted_unique.
  assert (existsb is_str (cells "Condition" (rows summaries)) = true) as ->.
  { apply existsb_exists. exists (CStr label). split; [| done].
    apply list_elem_of_In. rewrite <- Hl1. unfold cells.
    apply list_elem_of_fmap. exists r1.2. split; [done |].
    apply list_elem_of_fmap. by exists r1. }
  assert (existsb (λ c, negb (is_str c)) (cells "Condition" (rows summaries)) = true) as ->.
  { apply existsb_exists. exists CNaN. split; [| done].
    apply list_elem_of_In. rewrite <- Hl2. unfold cells.
    apply list_elem_of_fmap. exists r2.2. split; [done |].
    apply list_elem_of_fmap. by exists r2. }
  done.
Qed.

Lemma main_with_unlabelled_run_witness :
  ∃ msg,
    main "data" sample_parse_csv sample_polyfit
      [("a_summary.txt", Text "Condition: A1"); ("b_summary.txt", Text "Total Kills: 3")] [] =
    Raise (TypeError msg).
Proof.
  assert (∃ df r1 r2,
    load_all_summaries
      [("a_summary.txt", Text "Condition: A1"); ("b_summary.txt", Text "Total Kills: 3")] =
      Ok df ∧
    columns df = ["Condition"; "Total Kills"] ∧ rows df = [r1; r2] ∧
    cell_at "Condition" r1.2 = CStr "A1" ∧ cell_at "Condition" r2.2 = CNaN)
    as (df & r1 & r2 & Hload & Hcols & Hrows & H1 & H2).
  { eexists. eexists. eexists. split; [vm_compute; reflexivity |].
    split; [reflexivity |]. split; [reflexivity |]. split; vm_compute; reflexivity. }
  apply (main_with_unlabelled_run _ _ _ _ df r1 r2 "A1").
  - exact Hload.
  - rewrite Hcols. apply list_elem_of_here.
  - rewrite Hrows. apply list_elem_of_here.
  - exact H1.
  - rewrite Hrows. apply list_elem_of_further, list_elem_of_here.
  - exact H2.
Defined.

Section MainCompletes.

Variable DATA_DIR : string.
Variable parse_csv : string → result DataFrame.
Variable polyfit : list cell → list cell → result (cell * cell).

Lemma analysis_report_inv summaries captures report :
  analysis_report summaries captures = Ok report →
  ∃ r q, r ∈ rows summaries ∧ cell_at "Capture Rate" r.2 = CNum q.
Proof.
  unfold analysis_report. intros H.
  apply result_bind_inv in H as (df & Hsort & H).
  apply result_bind_inv in H as (tbl & _ & H).
  apply result_bind_inv in H as (fkt & _ & H).
  apply result_bind_inv in H as (rate & _ & H).
  apply result_bind_inv in H as (fams & _ & H).
  apply result_bind_inv in H as (vw & _ & H).
  apply result_bind_inv in H as ([fastest slowest] & Hext & _).
  unfold report_extremes in Hext.
  apply result_bind_inv in Hext as (i & Hi & _).
  apply idx_best_inv in Hi as (_ & r & q & Hr & Hq).
  apply sort_values_inv in Hsort as [_ ->]. simpl in Hr.
  rewrite stable_sort_Permutation in Hr. by exists r, q.
Qed.

Lemma main_completes_inv d report hf :
  main DATA_DIR parse_csv polyfit d [] = Ok (report, hf) →
  ∃ summaries captures,
    load_all_summaries d = Ok summaries ∧
    (load_all_captures DATA_DIR parse_csv d).1 = Ok captures ∧
    (∀ c, c ∈ summary_columns → c ∈ columns summaries) ∧
    (∃ r q, r ∈ rows summaries ∧ cell_at "Capture Rate" r.2 = CNum q) ∧
    (∀ c, c ∈ ["condition"; "time_sec"; "boids_in_view"] → c ∈ columns captures).
Proof.
  intros H.
  destruct (load_all_summaries d) as [summaries|e] eqn:Hs;
    [| by rewrite (main_raises_unloaded _ _ _ _ _ Hs) in H].
  destruct (main_loaded DATA_DIR parse_csv polyfit d _ Hs) as (captures & n & Hc & Hmain).
  rewrite Hmain in H. clear Hmain.
  pose proof (reads_only_print_summary_table 0%nat) as Rp.
  pose proof (reads_only_plot_condition_comparison 0%nat) as Rc.
  pose proof (reads_only_plot_predation_timeline 1%nat) as Rt.
  pose proof (reads_only_plot_experiment_groups 0%nat) as Rg.
  set (h0 := [summaries; captures; n]) in *.
  assert (h0 !! 0%nat = Some summaries) as H0 by done.
  assert (h0 !! 1%nat = Some captures) as H1 by done.
  apply bind_Ok in H as (conds & h & Hconds & H).
  assert (h = h0) as ->.
  { revert Hconds. apply reads_only_bind; [apply reads_only_load |].
    intros ?. apply reads_only_lift. }
  apply bind_Ok in H as (u & h & Hu & H). apply lift_Ok in Hu as [_ ->].
  apply bind_Ok in H as (printed & h & Hp & H).
  pose proof (Rp _ _ _ Hp) as ->.
  apply bind_Ok in H as (bars & h & Hb & H). apply Rc in Hb as ->.
  apply bind_Ok in H as (lines & h & Ht & H).
  pose proof (Rt _ _ _ Ht) as ->.
  apply bind_Ok in H as (plot & h & Hplot & H).
  apply bind_Ok in H as (groups & h' & Hg & H). apply Rg in Hg as ->.
  exists summaries, captures. split; [done |]. split; [done |]. split; [| split].
  - unfold print_summary_table in Hp.
    apply bind_Ok in Hp as (s & h1 & Hl & Hp). apply load_Ok in Hl as [Hl ->].
    change (Some summaries = Some s) in Hl. injection Hl as <-.
    apply bind_Ok in Hp as (sel & h1 & Hsel & _). apply lift_Ok in Hsel as [Hsel _].
    by eapply select_inv.
  - destruct (plot_confusion_effect_Ok _ _ _ _ _ _ H1 Hplot) as (diffs & _ & ->).
    pose proof (write_analysis_report_value 0%nat 1%nat
      (h0 ++ [setitem "time_diff" diffs captures]) summaries captures) as Hv.
    rewrite H in Hv. simpl in Hv. symmetry in Hv.
    by eapply analysis_report_inv, Hv.
  - assert ("condition" ∈ columns captures) as Hcond.
    { unfold plot_predation_timeline in Ht.
      apply bind_Ok in Ht as (s & h1 & Hl & Ht). apply load_Ok in Hl as [Hl ->].
      change (Some captures = Some s) in Hl. injection Hl as <-.
      apply bind_Ok in Ht as (all & h1 & Hall & _). apply lift_Ok in Hall as [Hall _].
      by apply getitem_inv in Hall as [? _]. }
    rewrite (plot_confusion_effect_eq _ _ _ _ H1) in Hplot.
    apply result_bind_inv in Hplot as (diffs & Hdiffs & Hplot).
    apply result_bind_inv in Hplot as (vw & Hvw & _).
    apply getitem_inv in Hvw as [Hvw _].
    apply setitem_columns in Hvw as [Hvw | [=]].
    unfold groupby_diff in Hdiffs.
    apply result_bind_inv in Hdiffs as (ks & _ & Hdiffs).
    apply result_bind_inv in Hdiffs as (vs & Hvs & _).
    apply getitem_inv in Hvs as [Htime _].
    intros c Hin. repeat (apply elem_of_cons in Hin as [-> | Hin]; [done |]).
    by apply elem_of_nil in Hin.
Qed.

End MainCompletes.

(** X11.  [main] runs to its end only on a directory with data of both
    kinds: when it returns, the table of run records has the five columns
    of the report and at least one run with a numeric capture rate, the
    capture table has the columns [condition], [time_sec] and
    [boids_in_view], and so at least one summary was found and at least one
    capture log was parsed.  (The snapshot table is under no such
    condition.) *)
Theorem main_completes_only_with_data (DATA_DIR : string)
    (parse_csv : string → result DataFrame)
    (polyfit : list cell → list cell → result (cell * cell))
    (d : directory) (report : Report) (hf : heap) :
  main DATA_DIR parse_csv polyfit d [] = Ok (report, hf) →
  ∃ summaries captures,
    load_all_summaries d = Ok summaries ∧
    (load_all_captures DATA_DIR parse_csv d).1 = Ok captures ∧
    (∀ c, c ∈ summary_columns → c ∈ columns summaries) ∧
    (∃ r q, r ∈ rows summaries ∧ cell_at "Capture Rate" r.2 = CNum q) ∧
    (∀ c, c ∈ ["condition"; "time_sec"; "boids_in_view"] → c ∈ columns captures) ∧
    glob "_summary.txt" d ≠ [] ∧
    parsed_frames parse_csv (glob "_captures.csv" d) ≠ [].
Proof.
  intros H.
  destruct (main_completes_inv _ _ _ _ _ _ H)
    as (summaries & captures & Hs & Hc & Hcols & (r & q & Hr & Hq) & Hccols).
  exists summaries, captures. split_and!; try done.
  - by exists r, q.
  - intros Hglob.
    destruct (load_all_summaries_rows _ _ Hs) as (ds & Hds & Hrows & _).
    rewrite Hglob in Hds. injection Hds as <-.
    apply Forall2_nil_inv_l in Hrows. rewrite Hrows in Hr.
    by apply elem_of_nil in Hr.
  - intros Hnone. unfold load_all_captures in Hc.
    rewrite read_frames_eq, Hnone in Hc. simpl in Hc. injection Hc as <-.
    assert ("condition" ∈ columns empty_frame) as Hin by (apply Hccols; left).
    by apply elem_of_nil in Hin.
Qed.

Lemma main_completes_only_with_data_witness :
  ∃ summaries captures,
    load_all_summaries sample_runs = Ok summaries ∧
    (load_all_captures "data" sample_parse_csv sample_runs).1 = Ok captures ∧
    (∀ c, c ∈ summary_columns → c ∈ columns summaries) ∧
    (∃ r q, r ∈ rows summaries ∧ cell_at "Capture Rate" r.2 = CNum q) ∧
    (∀ c, c ∈ ["condition"; "time_sec"; "boids_in_view"] → c ∈ columns captures) ∧
    glob "_summary.txt" sample_runs ≠ [] ∧
    parsed_frames sample_parse_csv (glob "_captures.csv" sample_runs) ≠ [].
Proof.
  assert (∃ report hf,
    main "data" sample_parse_csv sample_polyfit sample_runs [] = Ok (report, hf))
    as (report & hf & Hmain) by (eexists; eexists; vm_compute; reflexivity).
  exact (main_completes_only_with_data _ _ _ _ _ _ Hmain).
Defined.
(* ===================================================================== *)
(** ** More on [plot_confusion_effect] *)
(* ===================================================================== *)

Section ConfusionMore.

Lemma dropna_inv col df valid :
  dropna col df = Ok valid →
  columns valid = columns df ∧
  rows valid = filter (λ r, cell_at col r.2 ≠ CNaN) (rows df).
Proof. unfold dropna. case_decide; [by intros [= <-] | done]. Qed.

Lemma cells_elem col rs v :
  v ∈ cells col rs ↔ ∃ r : nat * gmap string cell, r ∈ rs ∧ v = cell_at col r.2.
Proof.
  unfold cells. rewrite list_elem_of_fmap. split.
  - intros (m & -> & Hm). apply list_elem_of_fmap in Hm as (r & -> & Hr). by exists r.
  - intros (r & Hr & ->). exists r.2. split; [done |].
    apply list_elem_of_fmap. by exists r.
Qed.

Lemma groupby_diff_length key col df diffs :
  groupby_diff key col df = Ok diffs → length diffs = length (rows df).
Proof.
  unfold groupby_diff. intros H.
  apply result_bind_inv in H as (ks & Hks & H).
  apply result_bind_inv in H as (vs & Hvs & H).
  apply getitem_inv in Hks as [_ ->]. apply getitem_inv in Hvs as [_ ->].
  destruct (existsb is_str _); [done |]. injection H as <-.
  rewrite diff_go_length, length_zip, !cells_length. lia.
Qed.

Lemma trend_line_ext polyfit1 polyfit2 valid :
  (∀ x y, (2 < length x)%nat → length y = length x → CNaN ∉ y →
          polyfit1 x y = polyfit2 x y) →
  (∀ r, r ∈ rows valid → cell_at "time_diff" r.2 ≠ CNaN) →
  trend_line polyfit1 valid = trend_line polyfit2 valid.
Proof.
  intros Hfit Hvalid. unfold trend_line. case_decide as Hlen; [| done].
  destruct (getitem "boids_in_view" valid) as [x|] eqn:Hx; [| done]. simpl.
  destruct (getitem "time_diff" valid) as [y|] eqn:Hy; [| done]. simpl.
  apply getitem_inv in Hx as [_ ->]. apply getitem_inv in Hy as [_ ->].
  rewrite (Hfit (cells "boids_in_view" (rows valid)) (cells "time_diff" (rows valid))).
  - done.
  - by rewrite cells_length.
  - by rewrite !cells_length.
  - intros (r & Hr & Hnan)%cells_elem. by apply (Hvalid r).
Qed.

Lemma plot_confusion_effect_dangling polyfit l h :
  h !! l = None →
  plot_confusion_effect polyfit l h = Raise (ValueError "dangling reference").
Proof.
  intros Hl. unfold plot_confusion_effect, copy. rewrite !run_bind.
  unfold load at 1. by rewrite Hl.
Qed.

Lemma num_sub_nonneg a b :
  num_le a b → num_sub b a = CNaN ∨ ∃ q, num_sub b a = CNum q ∧ num_le 0 q.
Proof.
  destruct a as [p|[]], b as [q|[]]; simpl; intros H; try done;
    try (by left); try (right; by eexists).
  right. eexists. split; [done |]. simpl.
  change (0 <= Qred (q - p))%Q. rewrite Qred_correct. unfold Qminus.
  by apply (proj1 (Qle_minus_iff p q)).
Qed.

(** When the values of each key never decrease along the list, no
    difference is negative. *)
Lemma diff_go_nonneg last (l : list (cell * cell)) :
  (∀ k a b, last k = Some (CNum a) → (k, CNum b) ∈ l → num_le a b) →
  (∀ i j k a b, (i < j)%nat → l !! i = Some (k, CNum a) → l !! j = Some (k, CNum b) →
                num_le a b) →
  ∀ v, v ∈ diff_go last l → v = CNaN ∨ ∃ q, v = CNum q ∧ num_le 0 q.
Proof.
  revert last. induction l as [|[k x] l IH]; intros last Hlast Hsorted v Hv.
  { by apply elem_of_nil in Hv. }
  assert (∀ v, v ∈ diff_go last l → v = CNaN ∨ ∃ q, v = CNum q ∧ num_le 0 q) as Hsame.
  { apply IH.
    - intros k' a b Hk Hin. apply (Hlast k' a b Hk). by right.
    - intros i j k' a b Hij Hi Hj. apply (Hsorted (S i) (S j) k' a b); [lia | done | done]. }
  assert (∀ v, v ∈ diff_go (λ k', if decide (k' = k) then Some x else last k') l →
               v = CNaN ∨ ∃ q, v = CNum q ∧ num_le 0 q) as Hnext.
  { apply IH.
    - intros k' a b Hk Hin. destruct (decide (k' = k)) as [-> |].
      + injection Hk as ->. apply list_elem_of_lookup in Hin as [j Hj].
        apply (Hsorted 0%nat (S j) k a b); [lia | done | done].
      + apply (Hlast k' a b Hk). by right.
    - intros i j k' a b Hij Hi Hj. apply (Hsorted (S i) (S j) k' a b); [lia | done | done]. }
  assert (from_option (cell_sub x) CNaN (last k) = CNaN ∨
          ∃ q, from_option (cell_sub x) CNaN (last k) = CNum q ∧ num_le 0 q) as Hhead.
  { destruct (last k) as [p|] eqn:Hp; [| by left]. simpl.
    destruct x as [|b|]; [by left | | by left]. destruct p as [|a|]; [by left | | by left].
    simpl. apply num_sub_nonneg. apply (Hlast k a b Hp). by left. }
  destruct k as [s|q|]; simpl in Hv; apply elem_of_cons in Hv as [-> | Hv];
    try (by apply Hhead); try (by apply Hnext); [by left | by apply Hsame].
Qed.

(** The points of the scatter plot, for differences assigned to the rows
    as the column [new]: the pairs of the rows whose difference is not
    NaN. *)
Lemma scatter_points (col new : string) (rs : list (nat * gmap string cell)) vals :
  col ≠ new → length vals = length rs →
  let valid := filter (λ r : nat * gmap string cell, cell_at new r.2 ≠ CNaN)
                 (zip_with (λ (r : nat * gmap string cell) v, (r.1, <[new := v]> r.2))
                    rs vals) in
  zip (cells col valid) (cells new valid) =
  filter (λ p : cell * cell, p.2 ≠ CNaN) (zip (cells col rs) vals).
Proof.
  intros Hne. cbv zeta. unfold cells.
  revert vals. induction rs as [|r rs IH]; intros [|v vals] Hlen; try done.
  simpl in Hlen. simpl. rewrite !filter_cons. simpl.
  rewrite cell_at_insert_eq.
  destruct (decide (v ≠ CNaN)) as [Hv | Hv]; simpl.
  - rewrite cell_at_insert_eq, cell_at_insert_ne by done. f_equal. apply IH. lia.
  - apply IH. lia.
Qed.

End ConfusionMore.

(** X12.  [plot_confusion_effect] calls the fitting routine on nothing but
    two series of equal length, three or more points long, whose second
    series (the intervals) holds no NaN: two routines that agree on such
    input give the same outcome, result, exception and heap alike. *)
Theorem polyfit_only_on_three_points
    (polyfit1 polyfit2 : list cell → list cell → result (cell * cell))
    (l : ref) (h : heap) :
  (∀ x y, (2 < length x)%nat → length y = length x → CNaN ∉ y →
          polyfit1 x y = polyfit2 x y) →
  plot_confusion_effect polyfit1 l h = plot_confusion_effect polyfit2 l h.
Proof.
  intros Hfit. destruct (h !! l) as [captures|] eqn:Hl.
  - rewrite !(plot_confusion_effect_eq _ _ _ _ Hl).
    destruct (groupby_diff _ _ _) as [diffs|]; [| done]. simpl.
    destruct (getitem "boids_in_view" _) as [vw|]; [| done]. simpl.
    destruct (median_defined vw); [| done]. simpl.
    destruct (dropna _ _) as [valid|] eqn:Hvalid; [| done]. simpl.
    destruct (getitem "boids_in_view" valid) as [x|]; [| done]. simpl.
    destruct (getitem "time_diff" valid) as [y|]; [| done]. simpl.
    rewrite (trend_line_ext polyfit1 polyfit2 valid Hfit); [done |].
    apply dropna_inv in Hvalid as [_ Hrows]. intros r Hr. rewrite Hrows in Hr.
    by apply list_elem_of_filter in Hr as [? _].
  - by rewrite !plot_confusion_effect_dangling.
Qed.

Lemma polyfit_only_on_three_points_witness :
  plot_confusion_effect sample_polyfit 0%nat [sample_capture_table] =
  plot_confusion_effect
    (λ x y, if decide (2 < length x)%nat then Ok (CNum 1, CNum 0)
            else Raise (TypeError "expected non-empty vector for x"))
    0%nat [sample_capture_table].
Proof.
  apply polyfit_only_on_three_points.
  intros x y Hlen _ _. unfold sample_polyfit. by rewrite decide_True.
Defined.

(** X13.  What [plot_confusion_effect] draws: the histogram shows the
    [boids_in_view] of every row of the table it was given, first captures
    included, and none of them is text; the scatter plot has a point for
    each row that has an interval and for no other: its points are, in the
    order of the rows, the pairs of [boids_in_view] and interval of exactly
    the rows whose interval is not NaN. *)
Theorem confusion_plot_series
    (polyfit : list cell → list cell → result (cell * cell))
    (l : ref) (h h' : heap) (captures : DataFrame) (plot : ConfusionPlot) :
  h !! l = Some captures →
  plot_confusion_effect polyfit l h = Ok (plot, h') →
  ∃ diffs,
    groupby_diff "condition" "time_sec" captures = Ok diffs ∧
    length diffs = length (rows captures) ∧
    hist_values plot = cells "boids_in_view" (rows captures) ∧
    existsb is_str (hist_values plot) = false ∧
    length (scatter_x plot) = length (scatter_y plot) ∧
    zip (scatter_x plot) (scatter_y plot) =
      filter (λ p : cell * cell, p.2 ≠ CNaN)
             (zip (cells "boids_in_view" (rows captures)) diffs).
Proof.
  intros Hl H. rewrite (plot_confusion_effect_eq _ _ _ _ Hl) in H.
  apply result_bind_inv in H as (diffs & Hdiffs & H). cbv zeta in H.
  apply result_bind_inv in H as (vw & Hvw & H).
  apply result_bind_inv in H as (u & Hmedian & H).
  apply result_bind_inv in H as (valid & Hvalid & H).
  apply result_bind_inv in H as (x & Hx & H).
  apply result_bind_inv in H as (y & Hy & H).
  apply result_bind_inv in H as (line & _ & H).
  injection H as <- _. simpl.
  exists diffs. split; [done |].
  apply groupby_diff_length in Hdiffs.
  apply getitem_inv in Hvw as [_ ->]. apply getitem_inv in Hx as [_ ->].
  apply getitem_inv in Hy as [_ ->]. apply dropna_inv in Hvalid as [_ Hrows].
  split_and!.
  - done.
  - by apply setitem_other_cells.
  - unfold median_defined in Hmedian. by destruct (existsb is_str _).
  - by rewrite !cells_length.
  - rewrite Hrows. unfold setitem. simpl. by apply scatter_points.
Qed.

Lemma confusion_plot_series_witness :
  ∃ plot h',
    plot_confusion_effect sample_polyfit 0%nat [sample_capture_table] = Ok (plot, h') ∧
    hist_values plot = [CNum 6; CNum 3; CNum 4; CNum 2; CNum 7] ∧
    zip (scatter_x plot) (scatter_y plot) = [(CNum 4, CNum 3); (CNum 2, CNum 3); (CNum 7, CNum 4)].
Proof.
  assert (∃ plot h',
    plot_confusion_effect sample_polyfit 0%nat [sample_capture_table] = Ok (plot, h'))
    as (plot & h' & Hplot) by (eexists; eexists; vm_compute; reflexivity).
  exists plot, h'. split; [exact Hplot |].
  destruct (confusion_plot_series sample_polyfit 0%nat [sample_capture_table] h'
              sample_capture_table plot eq_refl Hplot)
    as (diffs & Hdiffs & _ & Hhist & _ & _ & Hpoints).
  vm_compute in Hdiffs. injection Hdiffs as <-.
  split; [rewrite Hhist | rewrite Hpoints]; vm_compute; reflexivity.
Defined.

(** X14.  When the capture table lists the events of each condition in
    the order of time (whatever the order between conditions), no interval
    is negative: every entry of [time_diff] is NaN or a number that is not
    below zero.  (Times may be infinite; the order and the differences are
    those of floating point.) *)
Theorem intervals_not_negative (captures : DataFrame) (diffs : list cell) :
  groupby_diff "condition" "time_sec" captures = Ok diffs →
  (∀ i j ri rj ti tj, (i < j)%nat →
     rows captures !! i = Some ri → rows captures !! j = Some rj →
     cell_at "condition" ri.2 = cell_at "condition" rj.2 →
     cell_at "time_sec" ri.2 = CNum ti → cell_at "time_sec" rj.2 = CNum tj →
     num_le ti tj) →
  ∀ v, v ∈ diffs → v = CNaN ∨ ∃ q, v = CNum q ∧ num_le 0 q.
Proof.
  intros Hdiffs Hsorted. unfold groupby_diff in Hdiffs.
  apply result_bind_inv in Hdiffs as (ks & Hks & Hdiffs).
  apply result_bind_inv in Hdiffs as (vs & Hvs & Hdiffs).
  rewrite (getitem_pairs _ _ _ _ _ Hks Hvs) in Hdiffs.
  destruct (existsb is_str vs); [done |]. injection Hdiffs as <-.
  apply diff_go_nonneg; [done |].
  intros i j k a b Hij Hi Hj.
  rewrite list_lookup_fmap in Hi, Hj.
  destruct (rows captures !! i) as [ri|] eqn:Hri; [| done].
  destruct (rows captures !! j) as [rj|] eqn:Hrj; [| done].
  simpl in Hi, Hj. injection Hi as Hki Hti. injection Hj as Hkj Htj.
  apply (Hsorted i j ri rj a b); try done. by rewrite Hki, Hkj.
Qed.

Lemma intervals_not_negative_witness :
  ∃ diffs,
    groupby_diff "condition" "time_sec" sample_capture_table = Ok diffs ∧
    ∀ v, v ∈ diffs → v = CNaN ∨ ∃ q, v = CNum q ∧ num_le 0 q.
Proof.
  assert (∃ diffs, groupby_diff "condition" "time_sec" sample_capture_table = Ok diffs)
    as [diffs Hdiffs] by (eexists; vm_compute; reflexivity).
  exists diffs. split; [exact Hdiffs |].
  apply (intervals_not_negative sample_capture_table diffs Hdiffs).
  intros i j ri rj ti tj Hij Hi Hj Hc Hti Htj.
  destruct i as [|[|[|[|[|i]]]]]; destruct j as [|[|[|[|[|j]]]]];
    try lia; try discriminate Hi; try discriminate Hj;
    simpl in Hi, Hj; injection Hi as <-; injection Hj as <-;
    vm_compute in Hc; try discriminate Hc;
    vm_compute in Hti; vm_compute in Htj;
    injection Hti as <-; injection Htj as <-; discriminate.
Defined.
(* ===================================================================== *)
(** ** The timeline and the printed table *)
(* ===================================================================== *)

Section Tables.

Lemma mapM_inv {A B} (f : A → result B) (l : list A) (k : list B) :
  mapM f l = Ok k → Forall2 (λ x y, f x = Ok y) l k.
Proof.
  revert k. induction l as [|x l IH]; intros k; simpl.
  - intros [= <-]. constructor.
  - intros H. apply result_bind_inv in H as (y & Hy & H).
    apply result_bind_inv in H as (k' & Hk' & H). injection H as <-.
    constructor; [done | by apply IH].
Qed.

Lemma mapM_inv_elem {A B} (f : A → result B) (l : list A) (k : list B) :
  mapM f l = Ok k → Forall2 (λ x y, x ∈ l ∧ f x = Ok y) l k.
Proof.
  revert k. induction l as [|x l IH]; intros k; simpl.
  - intros [= <-]. constructor.
  - intros H. apply result_bind_inv in H as (y & Hy & H).
    apply result_bind_inv in H as (k' & Hk' & H). injection H as <-.
    constructor; [split; [by left | done] |].
    eapply Forall2_impl; [by apply IH |]. intros a b [Ha Hb]. split; [by right | done].
Qed.

Lemma Forall2_fmap_eq {A B} (g : B → A) (P : A → B → Prop) l k :
  Forall2 (λ x y, g y = x ∧ P x y) l k → g <$> k = l.
Proof.
  induction 1 as [|x y l k [Hx _] _ IH]; [done |]. by rewrite fmap_cons, Hx, IH.
Qed.

Lemma Forall2_Forall_snd {A B} (P : A → B → Prop) (Q : B → Prop) l k :
  Forall2 P l k → (∀ x y, P x y → Q y) → Forall Q k.
Proof. intros H HPQ. induction H; constructor; eauto. Qed.

Lemma sorted_unique_inv vals conds :
  sorted_unique vals = Ok conds → conds = stable_sort cell_le (remove_dups vals).
Proof. unfold sorted_unique. destruct (_ && _); [done | by intros [= <-]]. Qed.

Lemma cell_at_filter (cols : list string) (c : string) (r : gmap string cell) :
  c ∈ cols →
  cell_at c (filter (λ kv : string * cell, kv.1 ∈ cols) r) = cell_at c r.
Proof.
  intros Hc. unfold cell_at. destruct (r !! c) as [v|] eqn:Hv; simpl.
  - by rewrite (map_lookup_filter_Some_2 _ _ _ _ Hv Hc).
  - by rewrite map_lookup_filter, Hv.
Qed.

Lemma StronglySorted_map_inv {A B} (f : A → B) (R : relation B) (S : relation A) l :
  (∀ x y, R (f x) (f y) → S x y) →
  StronglySorted R (map f l) → StronglySorted S l.
Proof.
  intros HRS. induction l as [|x l IH]; simpl; intros H; [constructor |].
  apply StronglySorted_inv in H as [Hl Hx]. constructor; [by apply IH |].
  rewrite Forall_forall. intros y Hy. apply HRS.
  rewrite Forall_forall in Hx. apply Hx. apply list_elem_of_fmap. by exists y.
Qed.

Lemma select_Ok (cols : list string) df :
  (∀ c, c ∈ cols → c ∈ columns df) →
  select cols df =
  Ok (mkFrame cols
        (map (λ r, (r.1, filter (λ kv : string * cell, kv.1 ∈ cols) r.2)) (rows df))).
Proof.
  intros Hcols. unfold select. rewrite filter_none; [done |].
  intros c Hc Hno. by apply Hno, Hcols.
Qed.

Lemma cells_select (cols : list string) (c : string) (rs : list (nat * gmap string cell)) :
  c ∈ cols →
  cells c (map (λ r, (r.1, filter (λ kv : string * cell, kv.1 ∈ cols) r.2)) rs) =
  cells c rs.
Proof.
  intros Hc. unfold cells. induction rs as [|r rs IH]; [done |].
  simpl. rewrite cell_at_filter by done. f_equal. apply IH.
Qed.

End Tables.

(** X15.  For a capture table whose condition labels are all text, the
    timeline has one line for each condition that occurs in the table and
    no other, the conditions in ascending order without repetition; the
    line of a condition shows the [time_sec] and [kill_number] of exactly
    the rows of that condition, in the order of the table.  (A missing
    label is unequal to itself, so that its line would be empty.) *)
Theorem timeline_one_line_per_condition (l : ref) (h h' : heap) (captures : DataFrame)
    (lines : list (cell * list cell * list cell)) :
  h !! l = Some captures →
  forallb is_str (cells "condition" (rows captures)) = true →
  plot_predation_timeline l h = Ok (lines, h') →
  let conds := (λ line : cell * list cell * list cell, line.1.1) <$> lines in
  NoDup conds ∧
  StronglySorted cell_le conds ∧
  (∀ c, c ∈ conds ↔ c ∈ cells "condition" (rows captures)) ∧
  Forall (λ line : cell * list cell * list cell,
            line.1.2 = cells "time_sec" (group_of "condition" line.1.1 captures) ∧
            line.2 = cells "kill_number" (group_of "condition" line.1.1 captures)) lines.
Proof.
  intros Hl Hstr H. unfold plot_predation_timeline in H.
  apply bind_Ok in H as (df & h1 & Hload & H). apply load_Ok in Hload as [Hload ->].
  rewrite Hl in Hload. injection Hload as <-.
  apply bind_Ok in H as (all & h1 & Hall & H). apply lift_Ok in Hall as [Hall ->].
  apply getitem_inv in Hall as [_ ->].
  apply bind_Ok in H as (conditions & h1 & Hconds & H).
  apply lift_Ok in Hconds as [Hconds ->]. apply sorted_unique_inv in Hconds.
  apply lift_Ok in H as [H _]. apply mapM_inv_elem in H.
  assert (Forall2 (λ c (line : cell * list cell * list cell),
            line.1.1 = c ∧
            line.1.2 = cells "time_sec" (group_of "condition" c captures) ∧
            line.2 = cells "kill_number" (group_of "condition" c captures))
            conditions lines) as Hlines.
  { eapply Forall2_impl; [exact H |]. intros c line [Hin Hline]. simpl in Hline.
    assert (c ≠ CNaN) as Hc.
    { rewrite Hconds, stable_sort_Permutation, elem_of_remove_dups in Hin.
      rewrite forallb_true in Hstr. apply Hstr in Hin. by intros ->. }
    apply result_bind_inv in Hline as (t & Ht & Hline).
    apply result_bind_inv in Hline as (k & Hk & Hline). injection Hline as <-.
    apply getitem_inv in Ht as [_ ->]. apply getitem_inv in Hk as [_ ->].
    simpl. unfold group_of.
    rewrite (list_filter_iff _ (λ r, cell_at "condition" r.2 = c)) by (intros r; tauto).
    done. }
  assert ((λ line : cell * list cell * list cell, line.1.1) <$> lines = conditions) as Hc.
  { exact (Forall2_fmap_eq _ _ _ _ Hlines). }
  cbv zeta. rewrite Hc, Hconds. split_and!.
  - rewrite stable_sort_Permutation. apply NoDup_remove_dups.
  - apply StronglySorted_stable_sort; apply _.
  - intros c. by rewrite stable_sort_Permutation, elem_of_remove_dups.
  - apply (Forall2_Forall_snd _ _ _ _ Hlines). by intros c line (<- & Ht & Hk).
Qed.

Lemma timeline_one_line_per_condition_witness :
  ∃ lines h',
    plot_predation_timeline 0%nat [sample_capture_table] = Ok (lines, h') ∧
    NoDup ((λ line : cell * list cell * list cell, line.1.1) <$> lines) ∧
    (∀ c, c ∈ (λ line : cell * list cell * list cell, line.1.1) <$> lines ↔
          c ∈ cells "condition" (rows sample_capture_table)).
Proof.
  assert (∃ lines h',
    plot_predation_timeline 0%nat [sample_capture_table] = Ok (lines, h'))
    as (lines & h' & Hplot) by (eexists; eexists; vm_compute; reflexivity).
  exists lines, h'. split; [exact Hplot |].
  destruct (timeline_one_line_per_condition 0%nat [sample_capture_table] h'
              sample_capture_table lines eq_refl eq_refl Hplot) as (Hnd & _ & Hin & _).
  split; [exact Hnd | exact Hin].
Defined.

Example timeline_sample :
  value (plot_predation_timeline 0%nat [sample_capture_table]) =
  Ok [(CStr "A1", [CNum 2; CNum 5; CNum 9], [CNum 1; CNum 1; CNum 1]);
      (CStr "B1", [CNum 1; CNum 4], [CNum 1; CNum 1])].
Proof. vm_compute. reflexivity. Qed.

(** Rows without a label are on no line: the line of the missing label is
    empty. *)
Example timeline_missing_label :
  value (plot_predation_timeline 0%nat
           [mkFrame ["condition"; "time_sec"; "kill_number"]
              [(0%nat, {["time_sec" := CNum 2; "kill_number" := CNum 1]});
               (1%nat, {["time_sec" := CNum 5; "kill_number" := CNum 2]})]]) =
  Ok [(CNaN, [], [])].
Proof. vm_compute. reflexivity. Qed.

Section PrintedTable.

Lemma set_columns_Ok names df :
  length names = length (columns df) →
  set_columns names df =
  Ok (mkFrame names
        (map (λ r, (r.1, list_to_map (zip names ((λ c, cell_at c r.2) <$> columns df))))
             (rows df))).
Proof. intros H. unfold set_columns. by rewrite decide_True. Qed.

(** Reading a renamed row under the heading of a column gives the cell of
    that column. *)
Lemma renamed_cell (r : gmap string cell) i c hd :
  summary_columns !! i = Some c →
  summary_headings !! i = Some hd →
  cell_at hd (list_to_map (zip summary_headings ((λ c, cell_at c r) <$> summary_columns)))
  = cell_at c r.
Proof.
  intros Hc Hhd.
  destruct i as [|[|[|[|[|i]]]]]; try discriminate Hc;
    injection Hc as <-; injection Hhd as <-; reflexivity.
Qed.

End PrintedTable.

(** X16.  For a table of run records that has the five columns of the
    summary and no number among its condition labels,
    [print_summary_table] returns a table under the five Japanese
    headings whose rows are the rows of the records in ascending order of
    [Condition], each with its index label and, under each heading, the
    cell of the column the heading stands for; the table it was given is
    left as it was.  Columns other than the five are not shown. *)
Theorem summary_table_printed (l : ref) (h : heap) (summaries : DataFrame) :
  h !! l = Some summaries →
  (∀ c, c ∈ summary_columns → c ∈ columns summaries) →
  existsb is_num (cells "Condition" (rows summaries)) = false →
  ∃ printed sorted,
    print_summary_table l h = Ok (printed, h) ∧
    columns printed = summary_headings ∧
    sorted ≡ₚ rows summaries ∧
    StronglySorted (row_le "Condition") sorted ∧
    Forall2 (λ r p : nat * gmap string cell,
               p.1 = r.1 ∧
               ∀ i c hd, summary_columns !! i = Some c →
                         summary_headings !! i = Some hd →
                         cell_at hd p.2 = cell_at c r.2)
            sorted (rows printed).
Proof.
  intros Hl Hcols Hnum.
  pose (f := λ r : nat * gmap string cell,
               (r.1, filter (λ kv : string * cell, kv.1 ∈ summary_columns) r.2)).
  pose (g := λ r : nat * gmap string cell,
               (r.1, list_to_map (M := gmap string cell)
                       (zip summary_headings ((λ c, cell_at c r.2) <$> summary_columns)))).
  destruct (Permutation_map_inv f (rows summaries)
              (stable_sort_Permutation (row_le "Condition") (map f (rows summaries))))
    as (sorted & Hsorted & Hperm).
  exists (mkFrame summary_headings (map g (map f sorted))), sorted.
  split_and!.
  - unfold print_summary_table.
    rewrite run_bind, (run_load _ _ _ Hl), run_bind, run_lift.
    rewrite (select_Ok _ _ Hcols), run_bind, run_lift.
    rewrite sort_values_Ok;
      [| apply list_elem_of_here
       | simpl; rewrite cells_select by apply list_elem_of_here; exact Hnum ].
    rewrite run_lift, set_columns_Ok by done. simpl.
    fold f. by rewrite Hsorted.
  - done.
  - by symmetry.
  - apply (StronglySorted_map_inv f (row_le "Condition")).
    + intros x y. unfold row_le, f. simpl.
      by rewrite !cell_at_filter by apply list_elem_of_here.
    + rewrite <- Hsorted. apply StronglySorted_stable_sort; apply _.
  - simpl. clear Hsorted Hperm. induction sorted as [|r rs IH]; constructor; [| exact IH].
    split; [done |]. intros i c hd Hc Hhd.
    etransitivity; [exact (renamed_cell (f r).2 i c hd Hc Hhd) |].
    apply cell_at_filter. by eapply list_elem_of_lookup_2.
Qed.

Lemma summary_table_printed_witness :
  ∃ printed,
    print_summary_table 0%nat [sample_summaries] = Ok (printed, [sample_summaries]) ∧
    columns printed = summary_headings.
Proof.
  assert (∀ c, c ∈ summary_columns → c ∈ columns sample_summaries) as Hcols.
  { assert (columns sample_summaries =
            ["Condition"; "Initial Boid Count"; "First Kill Time"; "Total Duration";
             "Total Kills"; "Capture Rate"]) as -> by (vm_compute; reflexivity).
    intros c Hc. unfold summary_columns in Hc.
    repeat (apply elem_of_cons in Hc as [-> | Hc]; [repeat constructor |]).
    by apply elem_of_nil in Hc. }
  assert (existsb is_num (cells "Condition" (rows sample_summaries)) = false) as Hnum
    by (vm_compute; reflexivity).
  generalize dependent sample_summaries. intros df Hcols Hnum.
  destruct (summary_table_printed 0%nat [df] df eq_refl Hcols Hnum)
    as (printed & sorted & Hprint & Hheadings & _).
  exists printed. split; [exact Hprint | exact Hheadings].
Defined.
(* ===================================================================== *)
(** ** The snapshot table in [main] *)
(* ===================================================================== *)

Section Snapshots.

Variable polyfit : list cell → list cell → result (cell * cell).

Lemma ignores_third_lift {A} (r : result A) : ignores_third (lift r).
Proof. intros h1 h2 H. unfold lift. by destruct r. Qed.

Lemma ignores_third_ret {A} (a : A) : ignores_third (mret a).
Proof. by intros h1 h2 H. Qed.

Lemma ignores_third_load0 : ignores_third (load 0%nat).
Proof. intros h1 h2 H. pose proof H as (s & c & n1 & n2 & k & -> & ->). done. Qed.

Lemma ignores_third_load1 : ignores_third (load 1%nat).
Proof. intros h1 h2 H. pose proof H as (s & c & n1 & n2 & k & -> & ->). done. Qed.

Lemma ignores_third_bind {A B} (m : M A) (f : A → M B) :
  ignores_third m → (∀ a, ignores_third (f a)) → ignores_third (m ≫= f).
Proof.
  intros Hm Hf h1 h2 H. specialize (Hm h1 h2 H). rewrite !run_bind.
  destruct (m h1) as [[a1 h1']|e1], (m h2) as [[a2 h2']|e2]; try done.
  destruct Hm as [<- H']. by apply Hf.
Qed.

Lemma ignores_third_plot_confusion_effect :
  ignores_third (plot_confusion_effect polyfit 1%nat).
Proof.
  intros h1 h2 (s & c & n1 & n2 & k & -> & ->).
  rewrite !(plot_confusion_effect_eq polyfit 1%nat _ c) by done.
  destruct (groupby_diff _ _ _) as [diffs|]; [| done]. simpl.
  destruct (getitem "boids_in_view" _) as [vw|]; [| done]. simpl.
  destruct (median_defined vw); [| done]. simpl.
  destruct (dropna _ _) as [valid|]; [| done]. simpl.
  destruct (getitem "boids_in_view" valid) as [x|]; [| done]. simpl.
  destruct (getitem "time_diff" valid) as [y|]; [| done]. simpl.
  destruct (trend_line polyfit valid) as [line|]; [| done]. simpl.
  split; [done |]. by eexists s, c, n1, n2, _.
Qed.

Ltac solve_ignores_third :=
  repeat first
    [ apply ignores_third_load0 | apply ignores_third_load1 | apply ignores_third_lift
    | apply ignores_third_ret
    | apply ignores_third_plot_confusion_effect
    | apply ignores_third_bind; [| intros ?] ].

(** [main] after its loaders. *)
Lemma ignores_third_main_stages :
  ignores_third
    (conds ← (df ← load 0%nat; lift (getitem "Condition" df));
     _ ← lift (sorted_unique conds);
     _ ← print_summary_table 0%nat;
     _ ← plot_condition_comparison 0%nat;
     _ ← plot_predation_timeline 1%nat;
     _ ← plot_confusion_effect polyfit 1%nat;
     _ ← plot_experiment_groups 0%nat;
     write_analysis_report 0%nat 1%nat).
Proof.
  unfold print_summary_table, plot_condition_comparison, plot_predation_timeline,
    plot_experiment_groups, write_analysis_report.
  solve_ignores_third.
Qed.

Lemma ignores_third_value {A} (m : M A) s c n n' :
  ignores_third m → value (m [s; c; n]) = value (m [s; c; n']).
Proof.
  intros H. specialize (H [s; c; n] [s; c; n']).
  destruct (m [s; c; n]) as [[a1 h1]|e1], (m [s; c; n']) as [[a2 h2]|e2]; simpl.
  - destruct H as [-> _]; [by eexists _, _, _, _, _ | done].
  - destruct H. by eexists _, _, _, _, _.
  - destruct H. by eexists _, _, _, _, _.
  - f_equal. apply H. by eexists _, _, _, _, _.
Qed.

End Snapshots.

(** X17.  The snapshot files have no part in what [main] produces: two
    directories with the same summaries and the same capture logs give the
    same report, or the same exception, whatever snapshot files they hold
    and whether or not these can be read.  [load_all_snapshots] is called,
    and its table is never used. *)
Theorem main_ignores_snapshots (DATA_DIR : string)
    (parse_csv : string → result DataFrame)
    (polyfit : list cell → list cell → result (cell * cell))
    (d d' : directory) :
  glob "_summary.txt" d = glob "_summary.txt" d' →
  glob "_captures.csv" d = glob "_captures.csv" d' →
  value (main DATA_DIR parse_csv polyfit d []) =
  value (main DATA_DIR parse_csv polyfit d' []).
Proof.
  intros Hsum Hcap.
  assert (load_all_summaries d' = load_all_summaries d) as Hs
    by (unfold load_all_summaries; by rewrite Hsum).
  assert ((load_all_captures DATA_DIR parse_csv d').1 =
          (load_all_captures DATA_DIR parse_csv d).1) as Hc
    by (unfold load_all_captures; by rewrite Hcap).
  destruct (load_all_summaries d) as [summaries|e] eqn:Hload.
  - destruct (main_loaded DATA_DIR parse_csv polyfit d _ Hload) as (c & n & Hcd & ->).
    destruct (main_loaded DATA_DIR parse_csv polyfit d' _ Hs) as (c' & n' & Hcd' & ->).
    rewrite Hc, Hcd in Hcd'. injection Hcd' as <-.
    apply ignores_third_value, ignores_third_main_stages.
  - by rewrite (main_raises_unloaded _ _ _ _ _ Hload), (main_raises_unloaded _ _ _ _ _ Hs).
Qed.

Lemma main_ignores_snapshots_witness :
  value (main "data" sample_parse_csv sample_polyfit sample_runs []) =
  value (main "data" sample_parse_csv sample_polyfit
           (("run1_snapshots.csv", Unreadable (OSError "Permission denied")) :: sample_runs)
           []).
Proof.
  apply main_ignores_snapshots.
  - vm_compute. reflexivity.
  - vm_compute. reflexivity.
Defined.

(** X18.  The report guards its section on the confusion effect: with a
    capture table that lacks the column [boids_in_view] (the empty table of
    a directory without capture logs, for one) the report is written as for
    no capture data at all, and it shows no view statistics. *)
Theorem report_without_view (summaries captures : DataFrame) :
  "boids_in_view" ∉ columns captures →
  analysis_report summaries captures = analysis_report summaries empty_frame ∧
  ∀ report, analysis_report summaries captures = Ok report → view report = None.
Proof.
  intros Hno.
  assert (report_view captures = Ok None) as Hview
    by (unfold report_view; by rewrite decide_False).
  split.
  - unfold analysis_report. by rewrite Hview.
  - unfold analysis_report. rewrite Hview. intros report H.
    apply result_bind_inv in H as (df & _ & H).
    apply result_bind_inv in H as (tbl & _ & H).
    apply result_bind_inv in H as (fkt & _ & H).
    apply result_bind_inv in H as (rate & _ & H).
    apply result_bind_inv in H as (fams & _ & H).
    apply result_bind_inv in H as (vw & Hvw & H). injection Hvw as <-.
    apply result_bind_inv in H as ([fastest slowest] & _ & H).
    apply result_bind_inv in H as (c1 & _ & H).
    apply result_bind_inv in H as (c2 & _ & H).
    by injection H as <-.
Qed.

Lemma report_without_view_witness :
  analysis_report sample_summaries (mkFrame ["condition"] []) =
  analysis_report sample_summaries empty_frame.
Proof.
  apply (report_without_view sample_summaries (mkFrame ["condition"] [])).
  intros Hin. apply list_elem_of_singleton in Hin. discriminate Hin.
Defined.
